(** * Audit trail of document mutations: diff engine, retention, capture hooks

    A shallow embedding of [utils/diffCalculator.ts], [utils/auditCleanup.ts]
    and [utils/auditCapture.ts], and the properties of the specification
    checked against it.

    Conventions of the embedding.
    - A JavaScript value is a tree ([JsVal]).  Values of reference types carry
      the identity of their allocation ([Ref]), which [===] compares.
    - A plain object is the list of its own enumerable entries, in the order
      in which [Object.keys] lists them; a JavaScript object has each key
      once.  [JObj] stands for the objects that [val.constructor === Object]
      accepts, and a key that an object lacks reads as [undefined]: this is
      the source on objects whose own keys shadow no member of
      [Object.prototype] ([ordinary] below), and the statements that depend
      on it say so.  Objects of other kinds are [JInstance].
    - An array is the list of its items: arrays have no holes.
    - Finite numbers are integers ([Fin]); [NaN] is kept apart because [===]
      tells it from itself.  The diff engine only compares numbers.
    - A [Date] holds a valid instant in milliseconds since the epoch, and the
      process runs in UTC, so that [setDate(getDate() - n)] moves an instant
      by [n] times 86 400 000 ms.
    - A document is [Record<string, any> | null | undefined]: [Some] of the
      entries of a plain object, or [None] for both [null] and [undefined],
      which the code never tells apart ([!oldDoc]). *)

From Stdlib Require Import ZArith List String Ascii Bool Arith Lia.
From Stdlib Require Import Permutation Sorted DecimalString.
Import ListNotations.

Set Warnings "-register-all".
Local Open Scope list_scope.

(** ** JavaScript values *)

Definition Ref := nat.

Inductive number : Type :=
| NaN
| Fin (z : Z).

Inductive JsVal : Type :=
| JUndefined
| JNull
| JBool (b : bool)
| JNum (n : number)
| JStr (s : string)
| JSymbol (r : Ref)
| JFunc (r : Ref)
| JInstance (r : Ref)
| JDate (r : Ref) (time : Z)
| JArr (r : Ref) (items : list JsVal)
| JObj (r : Ref) (fields : list (string * JsVal)).

Definition Fields := list (string * JsVal).
Definition Doc := option Fields.

(** [obj[key]] for the own keys of [obj]; a key that [obj] lacks reads as
    [undefined], as in the source unless the key names a member of
    [Object.prototype]. *)
Fixpoint getField (fields : Fields) (key : string) : JsVal :=
  match fields with
  | [] => JUndefined
  | (k, v) :: rest => if String.eqb k key then v else getField rest key
  end.

(** [Object.keys(obj)] *)
Definition keys (fields : Fields) : list string := map fst fields.

Definition includes (l : list string) (key : string) : bool :=
  existsb (String.eqb key) l.

(** [new Set([...])]: the distinct elements, each at its first position. *)
Fixpoint newSet (l : list string) : list string :=
  match l with
  | [] => []
  | x :: rest => x :: filter (fun y => negb (String.eqb y x)) (newSet rest)
  end.

(** [array[i]], [undefined] out of range *)
Definition item (a : list JsVal) (i : nat) : JsVal := nth i a JUndefined.

Definition numEq (a b : number) : bool :=
  match a, b with
  | Fin x, Fin y => Z.eqb x y
  | _, _ => false
  end.

(** [val1 === val2] *)
Definition strictEq (val1 val2 : JsVal) : bool :=
  match val1, val2 with
  | JUndefined, JUndefined => true
  | JNull, JNull => true
  | JBool a, JBool b => Bool.eqb a b
  | JNum a, JNum b => numEq a b
  | JStr a, JStr b => String.eqb a b
  | JSymbol r1, JSymbol r2 => Nat.eqb r1 r2
  | JFunc r1, JFunc r2 => Nat.eqb r1 r2
  | JInstance r1, JInstance r2 => Nat.eqb r1 r2
  | JDate r1 _, JDate r2 _ => Nat.eqb r1 r2
  | JArr r1 _, JArr r2 _ => Nat.eqb r1 r2
  | JObj r1 _, JObj r2 _ => Nat.eqb r1 r2
  | _, _ => false
  end.

(** [val == null] *)
Definition isNullish (val : JsVal) : bool :=
  match val with
  | JUndefined | JNull => true
  | _ => false
  end.

(** [val !== null && typeof val === 'object' && val.constructor === Object],
    for objects that have no own key [constructor]. *)
Definition isPlainObject (val : JsVal) : bool :=
  match val with
  | JObj _ _ => true
  | _ => false
  end.

Definition isArray (val : JsVal) : bool :=
  match val with
  | JArr _ _ => true
  | _ => false
  end.

(** ** Decimal and ISO-8601 text *)

Definition natToString (n : nat) : string :=
  NilZero.string_of_uint (Nat.to_uint n).

Definition intToString (z : Z) : string :=
  NilZero.string_of_int (Z.to_int z).

Fixpoint zeros (n : nat) : string :=
  match n with
  | O => EmptyString
  | S k => String "0"%char (zeros k)
  end.

Definition pad (width : nat) (z : Z) : string :=
  let s := natToString (Z.to_nat z) in
  String.append (zeros (width - String.length s)) s.

(** [Date.prototype.toISOString] of a valid instant. *)
Definition toISOString (time : Z) : string :=
  let days := (time / 86400000)%Z in
  let ms := (time mod 86400000)%Z in
  let z := (days + 719468)%Z in
  let era := (z / 146097)%Z in
  let doe := (z - era * 146097)%Z in
  let yoe := ((doe - doe / 1460 + doe / 36524 - doe / 146096) / 365)%Z in
  let doy := (doe - (365 * yoe + yoe / 4 - yoe / 100))%Z in
  let mp := ((5 * doy + 2) / 153)%Z in
  let d := (doy - (153 * mp + 2) / 5 + 1)%Z in
  let m := (if mp <? 10 then mp + 3 else mp - 9)%Z in
  let y := (yoe + era * 400 + (if m <=? 2 then 1 else 0))%Z in
  let year :=
    if ((0 <=? y) && (y <=? 9999))%Z%bool then pad 4 y
    else String.append (if (y <? 0)%Z then "-" else "+") (pad 6 (Z.abs y)) in
  String.concat ""
    [year; "-"; pad 2 m; "-"; pad 2 d; "T";
     pad 2 (ms / 3600000); ":"; pad 2 ((ms / 60000) mod 60); ":";
     pad 2 ((ms / 1000) mod 60); "."; pad 3 (ms mod 1000); "Z"]%string.

(** ** The diff engine ([utils/diffCalculator.ts]) *)

Record FieldChange : Type := mkChange {
  field : string;
  oldValue : JsVal;
  newValue : JsVal;
  path : string
}.

Record FlatItem : Type := mkFlat {
  flatField : string;
  flatValue : JsVal;
  flatPath : string
}.

(** Deep equality check for two values.  [keys1.every(key => ...)] visits the
    entries of [val1]; [val2[key]] and [val2[index]] are looked up. *)
Fixpoint deepEqual (val1 val2 : JsVal) {struct val1} : bool :=
  if strictEq val1 val2 then true
  else if isNullish val1 || isNullish val2 then false
  else
    match val1, val2 with
    | JDate _ t1, JDate _ t2 => Z.eqb t1 t2
    | JArr _ a1, JArr _ a2 =>
        if negb (Nat.eqb (List.length a1) (List.length a2)) then false
        else
          (fix every (l : list JsVal) (index : nat) {struct l} : bool :=
             match l with
             | [] => true
             | x :: rest => deepEqual x (item a2 index) && every rest (S index)
             end) a1 0%nat
    | JObj _ o1, JObj _ o2 =>
        if negb (Nat.eqb (List.length (keys o1)) (List.length (keys o2))) then false
        else
          (fix every (l : Fields) {struct l} : bool :=
             match l with
             | [] => true
             | (key, v) :: rest => deepEqual v (getField o2 key) && every rest
             end) o1
    | _, _ => false
    end.

(** Serialize value for storage (handle special types) *)
Definition serializeValue (value : JsVal) : JsVal :=
  match value with
  | JUndefined => JNull
  | JDate _ t => JStr (toISOString t)
  | JFunc _ => JStr "[Function]"
  | JSymbol _ => JStr "[Symbol]"
  | JObj _ o =>
      if (50 <? List.length (keys o))%nat
      then JStr (String.concat "" ["[Object with "; natToString (List.length (keys o)); " keys]"]%string)
      else value
  | JArr _ a =>
      if (100 <? List.length a)%nat
      then JStr (String.concat "" ["[Array with "; natToString (List.length a); " items]"]%string)
      else value
  | _ => value
  end.

(** Payload internal fields *)
Definition isInternalField (key : string) : bool :=
  String.eqb key "updatedAt" || String.eqb key "createdAt" || String.eqb key "id".

(** [parentPath ? `${parentPath}.${key}` : key] *)
Definition joinPath (parentPath key : string) : string :=
  if String.eqb parentPath "" then key
  else String.append parentPath (String.append "." key).

(** [`${path}[${i}]`] *)
Definition indexPath (p : string) (i : nat) : string :=
  String.append p (String.append "[" (String.append (natToString i) "]")).

(** [`${path}.length`] *)
Definition lengthPath (p : string) : string := String.append p ".length".

(** Nesting depth of a value: the recursions below descend one level of
    objects or arrays per call. *)
Fixpoint depth (v : JsVal) : nat :=
  match v with
  | JArr _ a => S (list_max (map depth a))
  | JObj _ o => S (list_max (map (fun kv => depth (snd kv)) o))
  | _ => O
  end.

Definition depthFields (o : Fields) : nat :=
  list_max (map (fun kv => depth (snd kv)) o).

Definition depthDoc (d : Doc) : nat :=
  match d with
  | Some o => depthFields o
  | None => O
  end.

(** Flatten nested object into array of field paths and values.  [fuel]
    bounds the nesting that is followed ([flattenObject] below gives enough). *)
Fixpoint flattenObjectF (fuel : nat) (obj : Doc) (parentPath : string)
    (excludeFields : list string) : list FlatItem :=
  match fuel with
  | O => []
  | S fuel' =>
      match obj with
      | None => []
      | Some o =>
          flat_map
            (fun kv : string * JsVal =>
               let (key, value) := kv in
               if includes excludeFields key then []
               else if isInternalField key then []
               else
                 let currentPath := joinPath parentPath key in
                 match value with
                 | JObj _ o' => flattenObjectF fuel' (Some o') currentPath excludeFields
                 | JArr _ a =>
                     flat_map
                       (fun index =>
                          let x := item a index in
                          let itemPath := indexPath currentPath index in
                          match x with
                          | JObj _ o' => flattenObjectF fuel' (Some o') itemPath excludeFields
                          | _ => [mkFlat (indexPath key index) (serializeValue x) itemPath]
                          end)
                       (seq 0 (List.length a))
                 | _ => [mkFlat key (serializeValue value) currentPath]
                 end)
            o
      end
  end.

Definition flattenObject (obj : Doc) (parentPath : string)
    (excludeFields : list string) : list FlatItem :=
  flattenObjectF (S (depthDoc obj)) obj parentPath excludeFields.

(** Compare two arrays and identify changes.  [calculateDiff] and
    [compareArrays] call each other: the call back into [calculateDiff] is the
    parameter [diff]. *)
Definition compareArraysWith
    (diff : Doc -> Doc -> list string -> string -> list FieldChange)
    (oldArray newArray : list JsVal) (path : string)
    (excludeFields : list string) : list FieldChange :=
  (if negb (Nat.eqb (List.length oldArray) (List.length newArray))
   then [mkChange (lengthPath path)
                  (JNum (Fin (Z.of_nat (List.length oldArray))))
                  (JNum (Fin (Z.of_nat (List.length newArray))))
                  (lengthPath path)]
   else [])
  ++
  flat_map
    (fun i =>
       let oldItem := item oldArray i in
       let newItem := item newArray i in
       let itemPath := indexPath path i in
       if negb (deepEqual oldItem newItem) then
         match oldItem, newItem with
         | JObj _ o', JObj _ n' => diff (Some o') (Some n') excludeFields itemPath
         | _, _ =>
             [mkChange (indexPath path i) (serializeValue oldItem)
                       (serializeValue newItem) itemPath]
         end
       else [])
    (seq 0 (Nat.max (List.length oldArray) (List.length newArray))).

(** Calculate differences between two objects.  [fuel] bounds the nesting that
    is followed ([calculateDiff] below gives enough). *)
Fixpoint calculateDiffF (fuel : nat) (oldDoc newDoc : Doc)
    (excludeFields : list string) (parentPath : string) {struct fuel}
    : list FieldChange :=
  match fuel with
  | O => []
  | S fuel' =>
      match oldDoc, newDoc with
      | None, None => []
      | None, _ =>
          map (fun it => mkChange (flatField it) JNull (flatValue it) (flatPath it))
              (flattenObject newDoc parentPath excludeFields)
      | _, None =>
          map (fun it => mkChange (flatField it) (flatValue it) JNull (flatPath it))
              (flattenObject oldDoc parentPath excludeFields)
      | Some o, Some n =>
          let allKeys := newSet (keys o ++ keys n) in
          flat_map
            (fun key =>
               if includes excludeFields key then []
               else if isInternalField key then []
               else
                 let oldValue := getField o key in
                 let newValue := getField n key in
                 let currentPath := joinPath parentPath key in
                 if negb (deepEqual oldValue newValue) then
                   match oldValue, newValue with
                   | JObj _ o', JObj _ n' =>
                       calculateDiffF fuel' (Some o') (Some n') excludeFields currentPath
                   | JArr _ oldArray, JArr _ newArray =>
                       compareArraysWith (calculateDiffF fuel') oldArray newArray
                                         currentPath excludeFields
                   | _, _ =>
                       [mkChange key (serializeValue oldValue) (serializeValue newValue)
                                 currentPath]
                   end
                 else [])
            allKeys
      end
  end.

Definition compareArraysF (fuel : nat) :=
  compareArraysWith (calculateDiffF fuel).

Definition diffFuel (oldDoc newDoc : Doc) : nat :=
  S (Nat.max (depthDoc oldDoc) (depthDoc newDoc)).

Definition calculateDiff (oldDoc newDoc : Doc) (excludeFields : list string)
    : list FieldChange :=
  calculateDiffF (diffFuel oldDoc newDoc) oldDoc newDoc excludeFields "".

Definition compareArrays (oldArray newArray : list JsVal) (path : string)
    (excludeFields : list string) : list FieldChange :=
  compareArraysF (S (Nat.max (list_max (map depth oldArray)) (list_max (map depth newArray))))
                 oldArray newArray path excludeFields.

(** ** Effects: state, exceptions, [try]/[catch] *)

Inductive result (A : Type) : Type :=
| Ok (a : A)
| Throw (message : string).

Arguments Ok {A} a.
Arguments Throw {A} message.

(** A computation over a state [S] that returns or throws; the state at the
    point of the [throw] is kept, as the heap is in JavaScript. *)
Definition M (S A : Type) : Type := S -> result A * S.

Definition ret {S A : Type} (a : A) : M S A := fun s => (Ok a, s).

Definition bind {S A B : Type} (m : M S A) (k : A -> M S B) : M S B :=
  fun s =>
    match m s with
    | (Ok a, s') => k a s'
    | (Throw e, s') => (Throw e, s')
    end.

Definition tryCatch {S A : Type} (body : M S A) (handler : string -> M S A) : M S A :=
  fun s =>
    match body s with
    | (Ok a, s') => (Ok a, s')
    | (Throw e, s') => handler e s'
    end.

(** A read of the state, and a write that cannot fail. *)
Definition reads {S A : Type} (f : S -> A) : M S A := fun s => (Ok (f s), s).
Definition writes {S : Type} (f : S -> S) : M S unit := fun s => (Ok tt, f s).

(** Run [m] on the first component of the state. *)
Definition onFst {S R A : Type} (m : M S A) : M (S * R) A :=
  fun s =>
    let (x, w') := m (fst s) in (x, (w', snd s)).

Declare Scope js_scope.
Delimit Scope js_scope with js.
Notation "x <- m ;; k" := (bind m (fun x => k))
  (at level 61, m at next level, right associativity) : js_scope.
Notation "m ;; k" := (bind m (fun _ => k))
  (at level 61, right associativity) : js_scope.
Local Open Scope js_scope.

(** ** Audit entries, configuration and the host interface *)

Inductive Action : Type := Create | Update | Delete.

Definition actionEqb (a b : Action) : bool :=
  match a, b with
  | Create, Create | Update, Update | Delete, Delete => true
  | _, _ => false
  end.

(** The data of one [audit-logs] document.  [timestamp] is the instant that
    the stored ISO-8601 text denotes. *)
Record AuditData : Type := mkAuditData {
  collection : string;
  documentId : string;
  action : Action;
  userId : option Z;
  userName : string;
  timestamp : Z;
  changes : list FieldChange;
  ip : string;
  userAgent : string;
  version : Z;
  isSnapshot : bool
}.

(** A stored entry: the data and the id given by the store. *)
Record AuditLog : Type := mkAuditLog {
  id : Z;
  data :> AuditData
}.

Record AuditConfig : Type := mkAuditConfig {
  excludeFields : list string;
  excludeCollections : list string;
  trackActions : list Action;
  windowDays : option Z;
  minVersions : option Z;
  maxDays : option Z
}.

(** [value || fallback] on an optional number *)
Definition orDefault (value : option Z) (fallback : Z) : Z :=
  match value with
  | Some v => if Z.eqb v 0 then fallback else v
  | None => fallback
  end.

Definition tracks (config : AuditConfig) (a : Action) : bool :=
  existsb (actionEqb a) (trackActions config).

Record CleanupResult : Type := mkCleanupResult {
  deletedCount : Z;
  keptCount : Z;
  skippedSnapshots : Z;
  documentsProcessed : Z
}.

(** The callback handed to [setImmediate] by the post-mutation hook. *)
Record CleanupTask : Type := mkCleanupTask {
  taskCollection : string;
  taskDocumentId : string;
  taskConfig : AuditConfig
}.

(** What the code asks of Payload and of the runtime, over a state [W] of the
    host.  The logger, the clock and [setImmediate] do not throw. *)
Class Payload (W : Type) : Type := {
  (** [payload.findByID({ collection, id, req })] *)
  findByID : string -> JsVal -> M W Fields;
  (** [payload.find] on [audit-logs] for one [(collection, documentId)],
      [sort: '-version'], with the given [limit] *)
  findAuditLogs : string -> string -> nat -> M W (list AuditLog);
  (** [payload.create] on [audit-logs] *)
  createAuditLog : AuditData -> M W unit;
  (** [payload.delete] on [audit-logs] by id *)
  deleteAuditLog : Z -> M W unit;
  loggerWarn : string -> W -> W;
  loggerError : string -> W -> W;
  (** [new Date()] *)
  newDate : W -> Z;
  setImmediate : CleanupTask -> W -> W
}.

(** ** Retention ([utils/auditCleanup.ts]) *)

Definition msPerDay : Z := 86400000.

(** [d.setDate(d.getDate() - days)] *)
Definition subDays (instant days : Z) : Z := (instant - days * msPerDay)%Z.

Definition incrKept (r : CleanupResult) : CleanupResult :=
  mkCleanupResult (deletedCount r) (keptCount r + 1) (skippedSnapshots r)
                  (documentsProcessed r).

Definition incrSkipped (r : CleanupResult) : CleanupResult :=
  mkCleanupResult (deletedCount r) (keptCount r) (skippedSnapshots r + 1)
                  (documentsProcessed r).

Definition incrDeleted (r : CleanupResult) : CleanupResult :=
  mkCleanupResult (deletedCount r + 1) (keptCount r) (skippedSnapshots r)
                  (documentsProcessed r).

Definition emptyResult (processed : Z) : CleanupResult :=
  mkCleanupResult 0 0 0 processed.

(** [for (let i = 0; i < docs.length; i++) body], from index [i] on. *)
Fixpoint forEntries {St : Type} (body : nat -> AuditLog -> St -> St)
    (i : nat) (docs : list AuditLog) (s : St) : St :=
  match docs with
  | [] => s
  | entry :: rest => forEntries body (S i) rest (body i entry s)
  end.

(** The body of the loop of [cleanupDocumentAuditLogs], on [result] and
    [toDelete]. *)
Definition cleanupStep (minV maxAgeCutoff windowCutoff : Z) (i : nat)
    (entry : AuditLog) (s : CleanupResult * list Z) : CleanupResult * list Z :=
  let (result, toDelete) := s in
  if isSnapshot entry then (incrKept (incrSkipped result), toDelete)
  else if (Z.of_nat i <? minV)%Z then (incrKept result, toDelete)
  else if (timestamp entry <? maxAgeCutoff)%Z then (result, toDelete ++ [id entry])
  else if (timestamp entry <? windowCutoff)%Z then (result, toDelete ++ [id entry])
  else (incrKept result, toDelete).

(** The body of the loop of [getCleanupPreview]. *)
Definition previewStep (minV maxAgeCutoff windowCutoff : Z) (i : nat)
    (entry : AuditLog) (result : CleanupResult) : CleanupResult :=
  if isSnapshot entry then incrKept (incrSkipped result)
  else if (Z.of_nat i <? minV)%Z then incrKept result
  else if (timestamp entry <? maxAgeCutoff)%Z || (timestamp entry <? windowCutoff)%Z
       then incrDeleted result
  else incrKept result.

Definition cleanupErrorLine (collection documentId message : string) : string :=
  String.concat ""
    ["Failed to cleanup audit logs for "; collection; "/"; documentId; ": "; message]%string.

Definition previewErrorLine (collection documentId message : string) : string :=
  String.concat ""
    ["Failed to preview cleanup for "; collection; "/"; documentId; ": "; message]%string.

Section Retention.
Context {W : Type} `{Payload W}.

(** [for (const id of toDelete) { await payload.delete(...); result.deletedCount++ }] *)
Fixpoint deleteAll (toDelete : list Z) : M (W * CleanupResult) unit :=
  match toDelete with
  | [] => ret tt
  | i :: rest =>
      onFst (deleteAuditLog i) ;;
      writes (fun s => (fst s, incrDeleted (snd s))) ;;
      deleteAll rest
  end.

(** Clean up old audit logs for a specific document.  [result] is the
    object that the function fills and returns, also after a [catch]. *)
Definition cleanupDocumentAuditLogs (collection documentId : string)
    (config : AuditConfig) : M W CleanupResult :=
  fun w =>
    let run :=
      tryCatch
        (auditEntries <- onFst (findAuditLogs collection documentId 1000) ;;
         match auditEntries with
         | [] => ret tt
         | latestEntry :: _ =>
             let windowCutoff :=
               subDays (timestamp latestEntry) (orDefault (windowDays config) 90) in
             now <- onFst (reads newDate) ;;
             let maxAgeCutoff := subDays now (orDefault (maxDays config) 365) in
             result <- reads snd ;;
             let (result', toDelete) :=
               forEntries
                 (cleanupStep (orDefault (minVersions config) 10) maxAgeCutoff windowCutoff)
                 0 auditEntries (result, []) in
             writes (fun s => (fst s, result')) ;;
             deleteAll toDelete
         end)
        (fun message =>
           onFst (writes (loggerError (cleanupErrorLine collection documentId message))))
        (w, emptyResult 1) in
    (Ok (snd (snd run)), fst (snd run)).

(** Get cleanup statistics without actually deleting anything. *)
Definition getCleanupPreview (collection documentId : string)
    (config : AuditConfig) : M W CleanupResult :=
  fun w =>
    let run :=
      tryCatch
        (auditEntries <- onFst (findAuditLogs collection documentId 1000) ;;
         match auditEntries with
         | [] => ret tt
         | latestEntry :: _ =>
             let windowCutoff :=
               subDays (timestamp latestEntry) (orDefault (windowDays config) 90) in
             now <- onFst (reads newDate) ;;
             let maxAgeCutoff := subDays now (orDefault (maxDays config) 365) in
             result <- reads snd ;;
             writes (fun s =>
               (fst s,
                forEntries
                  (previewStep (orDefault (minVersions config) 10) maxAgeCutoff windowCutoff)
                  0 auditEntries result))
         end)
        (fun message =>
           onFst (writes (loggerError (previewErrorLine collection documentId message))))
        (w, emptyResult 1) in
    (Ok (snd (snd run)), fst (snd run)).

(** The [setImmediate] callback of the post-mutation hook. *)
Definition runCleanupTask (task : CleanupTask) : M W unit :=
  tryCatch
    (cleanupDocumentAuditLogs (taskCollection task) (taskDocumentId task)
                              (taskConfig task) ;;
     ret tt)
    (fun message =>
       writes (loggerWarn (String.append "Failed to cleanup audit logs: " message))).

End Retention.

(** ** Capture hooks ([utils/auditCapture.ts]) *)

Inductive Operation : Type := OpCreate | OpUpdate.

Record User : Type := mkUser {
  userIdOf : option Z;
  email : option string
}.

(** [req.context]: the [id] entry and the [__auditSnapshot__] bag, keyed by
    collection slug. *)
Record Context : Type := mkContext {
  contextId : JsVal;
  auditSnapshot : option (list (string * Fields))
}.

Record Headers : Type := mkHeaders {
  xForwardedFor : option string;
  xRealIp : option string;
  headerUserAgent : option string
}.

Record Req : Type := mkReq {
  user : option User;
  context : option Context;
  headers : option Headers;
  connectionRemoteAddress : option string;
  socketRemoteAddress : option string
}.

(** Truthiness of a value, and [a || b] on optional strings. *)
Definition truthy (v : JsVal) : bool :=
  match v with
  | JUndefined | JNull => false
  | JBool b => b
  | JNum NaN => false
  | JNum (Fin z) => negb (Z.eqb z 0)
  | JStr s => negb (String.eqb s "")
  | _ => true
  end.

Definition orElse (a : option string) (b : option string) : option string :=
  match a with
  | Some s => if String.eqb s "" then b else a
  | None => b
  end.

Definition orString (a : option string) (fallback : string) : string :=
  match orElse a None with
  | Some s => s
  | None => fallback
  end.

(** [String(id)]; document ids are numbers or strings, the other cases are
    there for totality. *)
Definition jsString (v : JsVal) : string :=
  match v with
  | JUndefined => "undefined"
  | JNull => "null"
  | JBool true => "true"
  | JBool false => "false"
  | JNum NaN => "NaN"
  | JNum (Fin z) => intToString z
  | JStr s => s
  | JDate _ t => toISOString t
  | JSymbol _ => "Symbol()"
  | JFunc _ => "function"
  | JArr _ _ => ""
  | JInstance _ | JObj _ _ => "[object Object]"
  end%string.

Definition isSpace (c : ascii) : bool :=
  let n := nat_of_ascii c in
  ((9 <=? n) && (n <=? 13) || (n =? 32))%nat.

Fixpoint trimStart (s : string) : string :=
  match s with
  | String c rest => if isSpace c then trimStart rest else s
  | EmptyString => s
  end.

(** [s.trim()] for ASCII white space *)
Fixpoint trimEnd (s : string) : string :=
  match s with
  | String c rest =>
      match trimEnd rest with
      | EmptyString => if isSpace c then EmptyString else String c EmptyString
      | rest' => String c rest'
      end
  | EmptyString => s
  end.

Definition trim (s : string) : string := trimEnd (trimStart s).

(** [s.split(',')[0]] *)
Fixpoint firstHop (s : string) : string :=
  match s with
  | String c rest => if Ascii.eqb c ","%char then EmptyString else String c (firstHop rest)
  | EmptyString => s
  end.

(** Extract client IP from request *)
Definition getClientIp (req : Req) : string :=
  let header (f : Headers -> option string) :=
    match headers req with
    | Some h => f h
    | None => None
    end in
  match orElse (header xForwardedFor) None with
  | Some forwarded => trim (firstHop forwarded)
  | None =>
      match orElse (header xRealIp) None with
      | Some realIp => realIp
      | None =>
          orString (orElse (connectionRemoteAddress req) (socketRemoteAddress req))
                   "Unknown"
      end
  end.

Definition getUserAgent (req : Req) : string :=
  orString match headers req with
           | Some h => headerUserAgent h
           | None => None
           end "Unknown".

Definition getUserId (req : Req) : option Z :=
  match user req with
  | Some u => userIdOf u
  | None => None
  end.

Definition getUserName (req : Req) : string :=
  orString match user req with
           | Some u => email u
           | None => None
           end "System".

Fixpoint lookupSlug (bag : list (string * Fields)) (slug : string) : Doc :=
  match bag with
  | [] => None
  | (s, d) :: rest => if String.eqb s slug then Some d else lookupSlug rest slug
  end.

(** [req.context?.[AUDIT_SNAPSHOT_KEY]?.[collectionSlug]] *)
Definition snapshotOf (req : Req) (slug : string) : Doc :=
  match context req with
  | Some c =>
      match auditSnapshot c with
      | Some bag => lookupSlug bag slug
      | None => None
      end
  | None => None
  end.

(** Determine if this change represents a critical snapshot to preserve
    (the source writes the initial of [Critical] as a Cyrillic letter). *)
Definition isCriticalSnapshot (newDoc : Fields) (oldDoc : Doc)
    (changes : list FieldChange) : bool :=
  match find (fun c => String.eqb (field c) "status") changes with
  | Some statusChange =>
      if strictEq (newValue statusChange) (JStr "published") then true
      else match oldDoc with None => true | Some _ => false end
  | None => match oldDoc with None => true | Some _ => false end
  end.

Definition hasKey (o : Fields) (key : string) : bool := includes (keys o) key.

Section Capture.
Context {W : Type} `{Payload W}.

Definition errorMessage (pre message : string) : string :=
  String.append pre message.

(** The [beforeChange] hook: captures the "before" snapshot in the request
    context.  The request is mutated in place; it is returned here with the
    data. *)
Definition createBeforeChangeHook (collectionSlug : string)
    (excludeFields : list string) (config : AuditConfig)
    (req : Req) (operation : Operation) (data : Fields) : M W (Fields * Req) :=
  if String.eqb collectionSlug "audit-logs" then ret (data, req)
  else
    let action := match operation with OpCreate => Create | OpUpdate => Update end in
    if negb (tracks config action) then ret (data, req)
    else
      match operation, context req with
      | OpUpdate, Some ctx =>
          req' <- tryCatch
            (let originalId :=
               if hasKey data "id" then getField data "id" else contextId ctx in
             if truthy originalId then
               original <- findByID collectionSlug originalId ;;
               let bag := match auditSnapshot ctx with
                          | Some b => b
                          | None => []
                          end in
               ret (mkReq (user req)
                          (Some (mkContext (contextId ctx)
                                           (Some ((collectionSlug, original) :: bag))))
                          (headers req) (connectionRemoteAddress req)
                          (socketRemoteAddress req))
             else ret req)
            (fun message =>
               writes (loggerWarn
                 (errorMessage "Failed to fetch original document for audit: " message)) ;;
               ret req) ;;
          ret (data, req')
      | _, _ => ret (data, req)
      end.

(** The [afterChange] hook: calculates the diff and saves the audit entry.
    Every [return] of the source returns [doc]. *)
Definition createAfterChangeHook (collectionSlug : string)
    (excludeFields : list string) (config : AuditConfig)
    (req : Req) (doc : Fields) (operation : Operation) (previousDoc : Doc)
    : M W Fields :=
  if String.eqb collectionSlug "audit-logs" then ret doc
  else
    let action := match operation with OpCreate => Create | OpUpdate => Update end in
    if negb (tracks config action) then ret doc
    else
      tryCatch
        (let originalDoc :=
           match previousDoc with
           | Some d => Some d
           | None => snapshotOf req collectionSlug
           end in
         let changes := calculateDiff originalDoc (Some doc) excludeFields in
         if (Nat.eqb (List.length changes) 0
             && match operation with OpUpdate => true | OpCreate => false end)%bool
         then ret tt
         else
           let userId := getUserId req in
           let userName := getUserName req in
           let ip := getClientIp req in
           let userAgent := getUserAgent req in
           let documentId := jsString (getField doc "id") in
           latestAudit <- findAuditLogs collectionSlug documentId 1 ;;
           let version :=
             match latestAudit with
             | latest :: _ => (version latest + 1)%Z
             | [] => 1%Z
             end in
           let isSnapshot := isCriticalSnapshot doc originalDoc changes in
           now <- reads newDate ;;
           createAuditLog
             (mkAuditData collectionSlug documentId action userId userName now
                          changes ip userAgent version isSnapshot) ;;
           writes (setImmediate (mkCleanupTask collectionSlug documentId config)))
        (fun message =>
           writes (loggerError (errorMessage "Failed to create audit entry: " message))) ;;
      ret doc.

(** The [beforeDelete] hook: captures the deletion audit. *)
Definition createBeforeDeleteHook (collectionSlug : string) (config : AuditConfig)
    (req : Req) (docId : JsVal) : M W unit :=
  if String.eqb collectionSlug "audit-logs" then ret tt
  else if negb (tracks config Delete) then ret tt
  else
    tryCatch
      (doc <- findByID collectionSlug docId ;;
       let changes := calculateDiff (Some doc) None (excludeFields config) in
       let userId := getUserId req in
       let userName := getUserName req in
       let ip := getClientIp req in
       let userAgent := getUserAgent req in
       let documentId := jsString docId in
       latestAudit <- findAuditLogs collectionSlug documentId 1 ;;
       let version :=
         match latestAudit with
         | latest :: _ => (version latest + 1)%Z
         | [] => 1%Z
         end in
       now <- reads newDate ;;
       createAuditLog
         (mkAuditData collectionSlug documentId Delete userId userName now
                      changes ip userAgent version true))
      (fun message =>
         writes (loggerError
           (errorMessage "Failed to create audit entry for deletion: " message))).

End Capture.

(** ** A host: the audit store in memory

    The rows of [audit-logs] in insertion order, the documents of the other
    collections, the clock, the log, the pending [setImmediate] callbacks, and
    [faults]: for each coming call of Payload, whether that call throws. *)

Record World : Type := mkWorld {
  auditLogs : list AuditLog;
  nextId : Z;
  documents : string -> JsVal -> option Fields;
  clock : Z;
  faults : list bool;
  logLines : list string;
  immediates : list CleanupTask
}.

Definition withLogs (rows : list AuditLog) (w : World) : World :=
  mkWorld rows (nextId w) (documents w) (clock w) (faults w) (logLines w) (immediates w).

Definition withFaults (fs : list bool) (w : World) : World :=
  mkWorld (auditLogs w) (nextId w) (documents w) (clock w) fs (logLines w) (immediates w).

Definition logLine (line : string) (w : World) : World :=
  mkWorld (auditLogs w) (nextId w) (documents w) (clock w) (faults w)
          (logLines w ++ [line]) (immediates w).

Definition pushImmediate (task : CleanupTask) (w : World) : World :=
  mkWorld (auditLogs w) (nextId w) (documents w) (clock w) (faults w) (logLines w)
          (immediates w ++ [task]).

(** One call of Payload: it uses up one entry of the script, and throws when
    the entry says so. *)
Definition afterCall (w : World) : World := withFaults (tl (faults w)) w.

Definition attempt {A : Type} (op : M World A) : M World A :=
  fun w =>
    if hd false (faults w) then (Throw "collaborator failure", afterCall w)
    else op (afterCall w).

Definition matches (c d : string) (e : AuditLog) : bool :=
  String.eqb (collection e) c && String.eqb (documentId e) d.

(** [sort: '-version'] *)
Fixpoint insertByVersion (e : AuditLog) (l : list AuditLog) : list AuditLog :=
  match l with
  | [] => [e]
  | x :: rest =>
      if (version x <=? version e)%Z then e :: l else x :: insertByVersion e rest
  end.

Definition sortByVersionDesc (l : list AuditLog) : list AuditLog :=
  fold_right insertByVersion [] l.

Definition memFind (c d : string) (limit : nat) : M World (list AuditLog) :=
  attempt (reads (fun w =>
    firstn limit (sortByVersionDesc (filter (matches c d) (auditLogs w))))).

Definition memCreate (entry : AuditData) : M World unit :=
  attempt (writes (fun w =>
    mkWorld (auditLogs w ++ [mkAuditLog (nextId w) entry]) (nextId w + 1)
            (documents w) (clock w) (faults w) (logLines w) (immediates w))).

Definition memDelete (i : Z) : M World unit :=
  attempt (fun w =>
    if existsb (fun e => Z.eqb (id e) i) (auditLogs w)
    then (Ok tt, withLogs (filter (fun e => negb (Z.eqb (id e) i)) (auditLogs w)) w)
    else (Throw "Not Found", w)).

Definition memFindByID (c : string) (i : JsVal) : M World Fields :=
  attempt (fun w =>
    match documents w c i with
    | Some d => (Ok d, w)
    | None => (Throw "Not Found", w)
    end).

#[export] Instance MemPayload : Payload World := {
  findByID := memFindByID;
  findAuditLogs := memFind;
  createAuditLog := memCreate;
  deleteAuditLog := memDelete;
  loggerWarn := logLine;
  loggerError := logLine;
  newDate := clock;
  setImmediate := pushImmediate
}.

(** Sequential execution: the hooks and utilities run to completion one after
    the other; between two of them time passes and the failures to come are
    anybody's guess. *)
Inductive Event : Type :=
| AfterChange (collectionSlug : string) (excludeFields : list string)
    (config : AuditConfig) (req : Req) (doc : Fields) (operation : Operation)
    (previousDoc : Doc)
| BeforeDelete (collectionSlug : string) (config : AuditConfig) (req : Req)
    (docId : JsVal)
| Immediate
| Cleanup (c d : string) (config : AuditConfig)
| Preview (c d : string) (config : AuditConfig)
| Environment (now : Z) (failures : list bool).

Definition runEvent (e : Event) (w : World) : World :=
  match e with
  | AfterChange slug ex config req doc op prev =>
      snd (createAfterChangeHook slug ex config req doc op prev w)
  | BeforeDelete slug config req docId =>
      snd (createBeforeDeleteHook slug config req docId w)
  | Immediate =>
      match immediates w with
      | [] => w
      | task :: rest =>
          snd (runCleanupTask task
                 (mkWorld (auditLogs w) (nextId w) (documents w) (clock w) (faults w)
                          (logLines w) rest))
      end
  | Cleanup c d config => snd (cleanupDocumentAuditLogs c d config w)
  | Preview c d config => snd (getCleanupPreview c d config w)
  | Environment now failures =>
      mkWorld (auditLogs w) (nextId w) (documents w) now failures (logLines w)
              (immediates w)
  end.

Definition runEvents (es : list Event) (w : World) : World :=
  fold_left (fun w e => runEvent e w) es w.

(** ** Further functions of the sources *)

(** Get a human-readable summary of changes *)
Definition getChangeSummary (changes : list FieldChange) : string :=
  match changes with
  | [] => "No changes"
  | [change] => String.append "Changed " (field change)
  | _ =>
      let fields := firstn 3 (map field changes) in
      let remaining := (List.length changes - List.length fields)%nat in
      let fieldList := String.concat ", " fields in
      if (0 <? remaining)%nat
      then String.concat ""
             ["Changed "; fieldList; " and "; natToString remaining; " more"]
      else String.append "Changed " fieldList
  end%string.

(** [utils/slugify.ts], on ASCII text. *)

Definition isUpper (c : ascii) : bool :=
  let n := nat_of_ascii c in ((65 <=? n) && (n <=? 90))%nat.

Definition isLower (c : ascii) : bool :=
  let n := nat_of_ascii c in ((97 <=? n) && (n <=? 122))%nat.

Definition isDigit (c : ascii) : bool :=
  let n := nat_of_ascii c in ((48 <=? n) && (n <=? 57))%nat.

Definition isDash (c : ascii) : bool := Ascii.eqb c "-"%char.

(** [\w] *)
Definition isWord (c : ascii) : bool :=
  isUpper c || isLower c || isDigit c || Ascii.eqb c "_"%char.

Definition lowerChar (c : ascii) : ascii :=
  if isUpper c then ascii_of_nat (nat_of_ascii c + 32) else c.

(** [s.toLowerCase()] *)
Fixpoint toLowerCase (s : string) : string :=
  match s with
  | EmptyString => EmptyString
  | String c rest => String (lowerChar c) (toLowerCase rest)
  end.

(** [s.replace(/p+/g, with)] for a class [p] of characters and a text of one
    character: [inRun] tells that the character before was of the class. *)
Fixpoint replaceRuns (p : ascii -> bool) (replacement : ascii) (inRun : bool)
    (s : string) : string :=
  match s with
  | EmptyString => EmptyString
  | String c rest =>
      if p c
      then if inRun then replaceRuns p replacement true rest
           else String replacement (replaceRuns p replacement true rest)
      else String c (replaceRuns p replacement false rest)
  end.

(** [s.replace(/[^...]+/g, '')]: the characters of the class [keep] stay. *)
Fixpoint keepOnly (keep : ascii -> bool) (s : string) : string :=
  match s with
  | EmptyString => EmptyString
  | String c rest =>
      if keep c then String c (keepOnly keep rest) else keepOnly keep rest
  end.

(** [s.replace(/^p+/, '')] *)
Fixpoint dropStart (p : ascii -> bool) (s : string) : string :=
  match s with
  | String c rest => if p c then dropStart p rest else s
  | EmptyString => s
  end.

(** [s.replace(/p+$/, '')] *)
Fixpoint dropEnd (p : ascii -> bool) (s : string) : string :=
  match s with
  | String c rest =>
      match dropEnd p rest with
      | EmptyString => if p c then EmptyString else String c EmptyString
      | rest' => String c rest'
      end
  | EmptyString => s
  end.

(** Converts a string to a URL-friendly slug.  [/\-\-+/g] replaces the runs
    of two hyphens or more, which leaves one hyphen for every run. *)
Definition slugify (text : string) : string :=
  dropEnd isDash
    (dropStart isDash
       (replaceRuns isDash "-" false
          (keepOnly (fun c => isWord c || isDash c)
             (replaceRuns isSpace "-" false
                (trim (toLowerCase text)))))).

(** [hooks/auditHooks.ts] *)

(** [obj[key] = v]: in place for a key of the object, at the end for a new
    one. *)
Fixpoint setField (o : Fields) (key : string) (v : JsVal) : Fields :=
  match o with
  | [] => [(key, v)]
  | (k, x) :: rest =>
      if String.eqb k key then (k, v) :: rest else (k, x) :: setField rest key v
  end.

(** [req.user.id] *)
Definition userIdValue (u : User) : JsVal :=
  match userIdOf u with
  | Some z => JNum (Fin z)
  | None => JUndefined
  end.

(** Hook to automatically set created_by and updated_by fields *)
Definition auditHook (data : Fields) (req : Req) (operation : Operation) : Fields :=
  match user req with
  | Some u =>
      let data' :=
        match operation with
        | OpCreate => setField data "created_by" (userIdValue u)
        | OpUpdate => data
        end in
      setField data' "updated_by" (userIdValue u)
  | None => data
  end.

(** [cleanupAllAuditLogs] of [utils/auditCleanup.ts] *)

(** [docGroups]: a [Map] from collection to the [Set] of its document ids,
    both in the order of first insertion. *)
Definition DocGroups := list (string * list string).

Definition addToSet (ids : list string) (d : string) : list string :=
  if includes ids d then ids else ids ++ [d].

Fixpoint addToGroups (groups : DocGroups) (c d : string) : DocGroups :=
  match groups with
  | [] => [(c, [d])]
  | (c', ids) :: rest =>
      if String.eqb c' c then (c', addToSet ids d) :: rest
      else (c', ids) :: addToGroups rest c d
  end.

(** [for (const entry of uniqueDocs.docs) { ... docGroups.get(...).add(...) }] *)
Definition groupDocuments (docs : list AuditLog) : DocGroups :=
  fold_left (fun groups (e : AuditLog) => addToGroups groups (collection e) (documentId e))
            docs [].

(** The pairs in the order in which the two nested loops visit them. *)
Definition pairsOf (groups : DocGroups) : list (string * string) :=
  flat_map (fun g : string * list string => map (fun d => (fst g, d)) (snd g)) groups.

Definition addResult (total r : CleanupResult) : CleanupResult :=
  mkCleanupResult (deletedCount total + deletedCount r) (keptCount total + keptCount r)
                  (skippedSnapshots total + skippedSnapshots r)
                  (documentsProcessed total + 1).

Definition bulkErrorLine (message : string) : string :=
  String.append "Failed to cleanup all audit logs: " message.

Section BulkCleanup.
Context {W : Type} `{Payload W}.

(** [payload.find({ collection: 'audit-logs', limit })], without filter. *)
Variable findAllAuditLogs : nat -> M W (list AuditLog).

Fixpoint cleanupEach (config : AuditConfig) (pairs : list (string * string))
    : M (W * CleanupResult) unit :=
  match pairs with
  | [] => ret tt
  | (c, d) :: rest =>
      result <- onFst (cleanupDocumentAuditLogs c d config) ;;
      writes (fun s => (fst s, addResult (snd s) result)) ;;
      cleanupEach config rest
  end.

(** Clean up old audit logs across all documents.  [totalResult] is the
    object that the function fills and returns, also after a [catch]. *)
Definition cleanupAllAuditLogs (config : AuditConfig) : M W CleanupResult :=
  fun w =>
    let run :=
      tryCatch
        (uniqueDocs <- onFst (findAllAuditLogs (10 * 1000)) ;;
         cleanupEach config (pairsOf (groupDocuments uniqueDocs)))
        (fun message => onFst (writes (loggerError (bulkErrorLine message))))
        (w, emptyResult 0) in
    (Ok (snd (snd run)), fst (snd run)).

End BulkCleanup.

(** The unfiltered listing of the store in memory, newest entries first. *)
Definition memFindAll (limit : nat) : M World (list AuditLog) :=
  attempt (reads (fun w => firstn limit (rev (auditLogs w)))).

(** ** Vocabulary of the statements *)

(** The body of the loop of [calculateDiff] over [allKeys], with the
    recursive call as [diff]. *)
Definition diffKey (diff : Doc -> Doc -> list string -> string -> list FieldChange)
    (o n : Fields) (excluded : list string) (parentPath key : string)
    : list FieldChange :=
  if includes excluded key then []
  else if isInternalField key then []
  else
    let oldValue := getField o key in
    let newValue := getField n key in
    let currentPath := joinPath parentPath key in
    if negb (deepEqual oldValue newValue) then
      match oldValue, newValue with
      | JObj _ o', JObj _ n' => diff (Some o') (Some n') excluded currentPath
      | JArr _ oldArray, JArr _ newArray =>
          compareArraysWith diff oldArray newArray currentPath excluded
      | _, _ =>
          [mkChange key (serializeValue oldValue) (serializeValue newValue) currentPath]
      end
    else [].

(** The body of the loop of [flattenObject] over the entries. *)
Definition flattenEntry (flatten : Doc -> string -> list string -> list FlatItem)
    (parentPath : string) (excluded : list string) (kv : string * JsVal)
    : list FlatItem :=
  let (key, value) := kv in
  if includes excluded key then []
  else if isInternalField key then []
  else
    let currentPath := joinPath parentPath key in
    match value with
    | JObj _ o' => flatten (Some o') currentPath excluded
    | JArr _ a =>
        flat_map
          (fun index =>
             let x := item a index in
             let itemPath := indexPath currentPath index in
             match x with
             | JObj _ o' => flatten (Some o') itemPath excluded
             | _ => [mkFlat (indexPath key index) (serializeValue x) itemPath]
             end)
          (seq 0 (List.length a))
    | _ => [mkFlat key (serializeValue value) currentPath]
    end.

(** A change read backwards. *)
Definition swap (c : FieldChange) : FieldChange :=
  mkChange (field c) (newValue c) (oldValue c) (path c).

Fixpoint distinct (l : list string) : bool :=
  match l with
  | [] => true
  | x :: rest => negb (includes rest x) && distinct rest
  end.

Definition isUndefined (v : JsVal) : bool :=
  match v with
  | JUndefined => true
  | _ => false
  end.

(** A value as JSON gives it: every object has each key once and no field
    that holds [undefined], at every depth. *)
Fixpoint regular (v : JsVal) : bool :=
  match v with
  | JArr _ a => forallb regular a
  | JObj _ o =>
      distinct (map fst o)
      && forallb (fun kv : string * JsVal => negb (isUndefined (snd kv)) && regular (snd kv)) o
  | _ => true
  end.

(** The names of the members of [Object.prototype].  An object that has one
    of them as an own key shadows the member: its [constructor] is then no
    longer [Object], and a read of that key on an object that lacks it finds
    the inherited member, where [getField] answers [undefined]. *)
Definition prototypeMembers : list string :=
  ["constructor"; "__proto__"; "toString"; "toLocaleString"; "valueOf";
   "hasOwnProperty"; "isPrototypeOf"; "propertyIsEnumerable";
   "__defineGetter__"; "__defineSetter__"; "__lookupGetter__";
   "__lookupSetter__"]%string.

(** No object of the value has an own key among [names], at any depth. *)
Fixpoint lacksKeys (names : list string) (v : JsVal) : bool :=
  match v with
  | JArr _ a => forallb (lacksKeys names) a
  | JObj _ o =>
      forallb (fun kv : string * JsVal =>
                 negb (includes names (fst kv)) && lacksKeys names (snd kv)) o
  | _ => true
  end.

(** No object of the value shadows a member of [Object.prototype]: on these
    values [isPlainObject] and [getField] are the [val.constructor === Object]
    and the [obj[key]] of the source. *)
Definition ordinary (v : JsVal) : bool := lacksKeys prototypeMembers v.

(** No object of the document has an own key [constructor]: every object of
    it is a plain object for the source. *)
Definition plainDoc (d : Doc) : bool :=
  match d with
  | Some o => lacksKeys ["constructor"%string] (JObj 0 o)
  | None => true
  end.



(** What a path is made of: object keys, array indices, and the [.length]
    of an array. *)
Inductive Segment : Type :=
| Key (key : string)
| Index (i : nat)
| Length.

Definition extend (p : string) (s : Segment) : string :=
  match s with
  | Key key => joinPath p key
  | Index i => indexPath p i
  | Length => lengthPath p
  end.

Definition render (parentPath : string) (segments : list Segment) : string :=
  fold_left extend segments parentPath.

(** A key may appear when it is neither excluded nor a Payload internal
    field. *)
Definition allowed (excluded : list string) (s : Segment) : Prop :=
  match s with
  | Key key => includes excluded key = false /\ isInternalField key = false
  | _ => True
  end.

(** What the diff reads of a value on its way down: the own keys of an
    object, the value under a key ([undefined] for a key that the value
    lacks), the length of an array and its items. *)
Definition ownKeys (v : JsVal) : list string :=
  match v with
  | JObj _ o => keys o
  | _ => []
  end.

Definition Child (v : JsVal) (key : string) (x : JsVal) : Prop :=
  (exists r o, v = JObj r o /\ In (key, x) o)
  \/ (~ In key (ownKeys v) /\ x = JUndefined).

Definition size (v : JsVal) : nat :=
  match v with
  | JArr _ a => List.length a
  | _ => 0%nat
  end.

Definition element (v : JsVal) (i : nat) : JsVal :=
  match v with
  | JArr _ a => item a i
  | _ => JUndefined
  end.

(** The segments lead down the old and the new value side by side: a key
    segment is an own key of the old or of the new value at that place,
    neither excluded nor a Payload internal field; an index segment is below
    the length of the longer array; a length segment stands at two arrays of
    different lengths and ends the walk. *)
Inductive Walk (excluded : list string) : JsVal -> JsVal -> list Segment -> Prop :=
| walk_end (a b : JsVal) : Walk excluded a b []
| walk_key (a b x y : JsVal) (key : string) (rest : list Segment) :
    In key (ownKeys a) \/ In key (ownKeys b) ->
    includes excluded key = false -> isInternalField key = false ->
    Child a key x -> Child b key y ->
    Walk excluded x y rest ->
    Walk excluded a b (Key key :: rest)
| walk_index (a b : JsVal) (i : nat) (rest : list Segment) :
    (i < Nat.max (size a) (size b))%nat ->
    Walk excluded (element a i) (element b i) rest ->
    Walk excluded a b (Index i :: rest)
| walk_length (a b : JsVal) :
    isArray a = true -> isArray b = true -> size a <> size b ->
    Walk excluded a b [Length].

(** A document as a value; an absent document reads as [undefined]. *)
Definition asValue (d : Doc) : JsVal :=
  match d with
  | Some o => JObj 0 o
  | None => JUndefined
  end.

Definition Represents (v : JsVal) (d : Doc) : Prop :=
  match d with
  | Some o => exists r, v = JObj r o
  | None => v = JUndefined
  end.

(** [p] extends [parentPath] by segments that lead down [a] and [b], and [f]
    is [p] or is made of the last of these segments. *)
Definition Follows (excluded : list string) (a b : JsVal) (parentPath p f : string)
    : Prop :=
  exists segments,
    p = render parentPath segments
    /\ Walk excluded a b segments
    /\ (f = p \/ exists before own, segments = before ++ own /\ f = render "" own).


(** The text of a path cut at [.], [[] and []]. *)
Fixpoint cutPath (s current : string) : list string :=
  match s with
  | EmptyString => [current]
  | String ch rest =>
      if (Ascii.eqb ch "." || Ascii.eqb ch "[" || Ascii.eqb ch "]")%bool%char
      then current :: cutPath rest EmptyString
      else cutPath rest (String.append current (String ch EmptyString))
  end.

Definition pathSegments (s : string) : list string :=
  filter (fun piece => negb (String.eqb piece "")) (cutPath s "").

(** The entries that [payload.find] hands to the cleanup of [(c, d)]. *)
Definition fetched (c d : string) (w : World) : list AuditLog :=
  firstn 1000 (sortByVersionDesc (filter (matches c d) (auditLogs w))).

(** The decision of the retention loops on the entry at rank [i]: neither a
    snapshot nor among the first [minV], and older than one of the cutoffs. *)
Definition expired (minV maxAgeCutoff windowCutoff : Z) (i : nat) (e : AuditLog) : bool :=
  negb (isSnapshot e) && negb (Z.of_nat i <? minV)%Z
  && ((timestamp e <? maxAgeCutoff)%Z || (timestamp e <? windowCutoff)%Z).

(** The entries of [docs], ranked from [i] on, that the loops give up. *)
Fixpoint doomed (minV maxAgeCutoff windowCutoff : Z) (i : nat) (docs : list AuditLog)
    : list AuditLog :=
  match docs with
  | [] => []
  | e :: rest =>
      if expired minV maxAgeCutoff windowCutoff i e
      then e :: doomed minV maxAgeCutoff windowCutoff (S i) rest
      else doomed minV maxAgeCutoff windowCutoff (S i) rest
  end.

Definition snapshotCount (docs : list AuditLog) : Z :=
  Z.of_nat (List.length (filter (fun e : AuditLog => isSnapshot e) docs)).

Definition addDeleted (n : Z) (r : CleanupResult) : CleanupResult :=
  mkCleanupResult (deletedCount r + n) (keptCount r) (skippedSnapshots r)
                  (documentsProcessed r).

Definition addKept (kept skipped : Z) (r : CleanupResult) : CleanupResult :=
  mkCleanupResult (deletedCount r) (keptCount r + kept) (skippedSnapshots r + skipped)
                  (documentsProcessed r).

(** The cutoffs that both utilities compute from the configuration, the
    clock and the latest entry. *)
Definition minVersionsOf (config : AuditConfig) : Z := orDefault (minVersions config) 10.
Definition maxAgeCutoffOf (config : AuditConfig) (now : Z) : Z :=
  subDays now (orDefault (maxDays config) 365).
Definition windowCutoffOf (config : AuditConfig) (docs : list AuditLog) : Z :=
  match docs with
  | latest :: _ => subDays (timestamp latest) (orDefault (windowDays config) 90)
  | [] => 0
  end.

(** The ids that the cleanup of [(c, d)] sets out to delete in [w]. *)
Definition toDeleteOf (c d : string) (config : AuditConfig) (w : World) : list Z :=
  map id (doomed (minVersionsOf config) (maxAgeCutoffOf config (clock w))
                 (windowCutoffOf config (fetched c d w)) 0 (fetched c d w)).

Definition idIn (ids : list Z) (e : AuditLog) : bool := existsb (Z.eqb (id e)) ids.

(** The counters after the classification of the fetched entries. *)
Definition keptAfterLoop (c d : string) (config : AuditConfig) (w : World)
    : CleanupResult :=
  addKept (Z.of_nat (List.length (fetched c d w))
           - Z.of_nat (List.length (toDeleteOf c d config w)))
          (snapshotCount (fetched c d w)) (emptyResult 1).

(** The entries that a utility gets to see: none when the lookup throws. *)
Definition found (c d : string) (w : World) : list AuditLog :=
  if hd false (faults w) then [] else fetched c d w.

(** The "before" state of the post-mutation hook: [previousDoc], else the
    snapshot stashed in the request context. *)
Definition beforeState (req : Req) (slug : string) (previousDoc : Doc) : Doc :=
  match previousDoc with
  | Some d => Some d
  | None => snapshotOf req slug
  end.

(** The highest version among [rows], if any. *)
Fixpoint highestVersion (rows : list AuditLog) : option Z :=
  match rows with
  | [] => None
  | e :: rest =>
      match highestVersion rest with
      | None => Some (version e)
      | Some m => Some (Z.max (version e) m)
      end
  end.

(** One more than the highest version stored for [(c, d)]; 1 when there is
    none. *)
Definition nextVersion (c d : string) (rows : list AuditLog) : Z :=
  match highestVersion (filter (matches c d) rows) with
  | Some m => (m + 1)%Z
  | None => 1%Z
  end.

(** A hook left the store as it was, or added one entry for [(c, d)] that
    carries the next version. *)
Definition recorded (c d : string) (before after : list AuditLog) : Prop :=
  after = before
  \/ exists e : AuditLog,
       after = before ++ [e]
       /\ collection e = c /\ documentId e = d
       /\ version e = nextVersion c d before.

(** Within every [(collection, documentId)] pair the versions are positive
    and strictly increasing in the order of insertion. *)
Definition VersionsOrdered (rows : list AuditLog) : Prop :=
  Forall (fun e : AuditLog => (0 < version e)%Z) rows
  /\ forall c d : string,
       StronglySorted Z.lt (map (fun e : AuditLog => version e) (filter (matches c d) rows)).

(** The ids of the stored entries are distinct and below the next id that
    the store hands out. *)
Definition IdsFresh (w : World) : Prop :=
  NoDup (map id (auditLogs w))
  /\ Forall (fun e : AuditLog => (id e < nextId w)%Z) (auditLogs w).

(** The entry that the post-mutation hook writes in [w]. *)
Definition afterChangeEntry (slug : string) (excluded : list string) (req : Req)
    (doc : Fields) (operation : Operation) (previousDoc : Doc) (w : World) : AuditLog :=
  let originalDoc := beforeState req slug previousDoc in
  let changes := calculateDiff originalDoc (Some doc) excluded in
  mkAuditLog (nextId w)
    (mkAuditData slug (jsString (getField doc "id"))
       match operation with OpCreate => Create | OpUpdate => Update end
       (getUserId req) (getUserName req) (clock w) changes (getClientIp req)
       (getUserAgent req)
       (nextVersion slug (jsString (getField doc "id")) (auditLogs w))
       (isCriticalSnapshot doc originalDoc changes)).

(** *** Scenarios *)

Definition testConfig : AuditConfig :=
  mkAuditConfig [] [] [Create; Update; Delete] (Some 30%Z) (Some 3%Z) (Some 90%Z).

Definition baseTime : Z := 1764108000000.

(** The entry of rank [i] of the retention tests: version [10 - i], [i] days
    before [baseTime]. *)
Definition updateEntry (i : nat) (snapshot : bool) : AuditLog :=
  mkAuditLog (Z.of_nat i + 1)
    (mkAuditData "blog-posts" "test-doc-123" Update None "System"
                 (baseTime - Z.of_nat i * msPerDay) [] "Unknown" "Unknown"
                 (10 - Z.of_nat i) snapshot).

Definition worldOf (rows : list AuditLog) (now : Z) : World :=
  mkWorld rows (Z.of_nat (List.length rows) + 1) (fun _ _ => None) now [] [] [].

(** Ten update entries, versions 10 down to 1, one day apart; the clock is at
    the latest of them. *)
Definition tenUpdates : World :=
  worldOf (map (fun i => updateEntry i false) (seq 0 10)) baseTime.

(** One update entry written four hundred days before now. *)
Definition oldEntry : AuditLog :=
  mkAuditLog 1
    (mkAuditData "blog-posts" "test-doc-123" Update None "System"
                 (baseTime - 400 * msPerDay) [] "Unknown" "Unknown" 1 false).

Definition oneOldEntry : World := worldOf [oldEntry] baseTime.

(** A blog post, an edit of it, and a document that holds nothing but
    housekeeping and excluded fields. *)
Definition blogPost : Fields :=
  [("id", JNum (Fin 7)); ("title", JStr "Original Title");
   ("category", JStr "testing"); ("updatedAt", JStr "2025-11-25T22:00:00.000Z")]%string.

Definition editedPost : Fields :=
  [("id", JNum (Fin 7)); ("title", JStr "Updated Title");
   ("category", JStr "testing"); ("updatedAt", JStr "2025-11-25T22:05:00.000Z")]%string.

Definition bareDocument : Fields :=
  [("id", JNum (Fin 8)); ("createdAt", JStr "2025-11-25T22:00:00.000Z");
   ("updatedAt", JStr "2025-11-25T22:00:00.000Z"); ("password", JStr "secret")]%string.

Definition testReq : Req :=
  mkReq (Some (mkUser (Some 1%Z) (Some "test@example.com"%string))) (Some (mkContext JUndefined None))
        (Some (mkHeaders None None (Some "test-agent"%string)))
        (Some "127.0.0.1"%string) None.

(** An empty audit store next to a collection that holds [blogPost]. *)
Definition freshHost : World :=
  mkWorld [] 1 (fun _ _ => Some blogPost) baseTime [] [] [].

(** A creation, an edit, a write that changes nothing, the deferred cleanups
    and the deletion, one after the other. *)
Definition lifeOfAPost : list Event :=
  [AfterChange "blog-posts" ["password"] testConfig testReq blogPost OpCreate None;
   Immediate;
   AfterChange "blog-posts" ["password"] testConfig testReq editedPost OpUpdate
               (Some blogPost);
   AfterChange "blog-posts" ["password"] testConfig testReq editedPost OpUpdate
               (Some editedPost);
   Immediate;
   BeforeDelete "blog-posts" testConfig testReq (JNum (Fin 7))]%string.

(** Two versions of a document with a nested object and an array. *)
Definition draftPost : Fields :=
  [("title", JStr "Title"); ("meta", JObj 11 [("tags", JArr 12 [JStr "tag1"; JStr "tag2"])]);
   ("count", JNum (Fin 5))]%string.

Definition revisedPost : Fields :=
  [("title", JStr "New Title");
   ("meta", JObj 21 [("tags", JArr 22 [JStr "tag1"; JStr "tag3"; JStr "tag4"])]);
   ("count", JNum (Fin 5)); ("status", JStr "published")]%string.

(** Five entries a hundred days apart, the one of rank 3 a snapshot. *)
Definition sparseEntry (i : nat) : AuditLog :=
  mkAuditLog (Z.of_nat i + 1)
    (mkAuditData "blog-posts" "test-doc-123" Update None "System"
                 (baseTime - Z.of_nat i * 100 * msPerDay) [] "Unknown" "Unknown"
                 (10 - Z.of_nat i) (Nat.eqb i 3)).

Definition sparseHistory : World :=
  worldOf (map sparseEntry (seq 0 5)) baseTime.

(** A document with a feature switched on, and the same with it off. *)
Definition featureOn : Fields :=
  [("features", JArr 1 [JObj 3 [("id", JNum (Fin 1)); ("enabled", JBool true)]])]%string.

Definition featureOff : Fields :=
  [("features", JArr 2 [JObj 4 [("id", JNum (Fin 2)); ("enabled", JBool false)]])]%string.

(** The sparse history of one document next to an old entry of another. *)
Definition otherEntry : AuditLog :=
  mkAuditLog 6
    (mkAuditData "blog-posts" "test-doc-456" Update None "System"
                 (baseTime - 400 * msPerDay) [] "Unknown" "Unknown" 1 false).

Definition twoDocuments : World :=
  worldOf (map sparseEntry (seq 0 5) ++ [otherEntry]) baseTime.

(** A value that can be stored as it is: what [serializeValue] lets
    through. *)
Definition storable (v : JsVal) : bool :=
  match v with
  | JUndefined | JDate _ _ | JFunc _ | JSymbol _ => false
  | JObj _ o => (List.length o <=? 50)%nat
  | JArr _ a => (List.length a <=? 100)%nat
  | _ => true
  end.

(** A key that [calculateDiff] looks at. *)
Definition tracked (excluded : list string) (key : string) : bool :=
  negb (includes excluded key) && negb (isInternalField key).

Definition isLeaf (v : JsVal) : bool := negb (isPlainObject v) && negb (isArray v).

(** Texts: every character is of a class, the first one is, the last one
    is. *)
Fixpoint allChars (p : ascii -> bool) (s : string) : bool :=
  match s with
  | EmptyString => true
  | String c rest => p c && allChars p rest
  end.

Definition firstIs (p : ascii -> bool) (s : string) : bool :=
  match s with
  | EmptyString => false
  | String c _ => p c
  end.

Fixpoint lastIs (p : ascii -> bool) (s : string) : bool :=
  match s with
  | EmptyString => false
  | String c EmptyString => p c
  | String _ rest => lastIs p rest
  end.

(** No hyphen follows a hyphen; [afterDash] tells that the text comes after
    one. *)
Fixpoint noDoubleDash (afterDash : bool) (s : string) : bool :=
  match s with
  | EmptyString => true
  | String c rest =>
      if isDash c then negb afterDash && noDoubleDash true rest
      else noDoubleDash false rest
  end.

(** A slug: lower-case letters, digits, underscores and single hyphens, with
    no hyphen at either end. *)
Definition isSlugChar (c : ascii) : bool :=
  isLower c || isDigit c || Ascii.eqb c "_"%char || isDash c.

Definition isSlug (s : string) : bool :=
  allChars isSlugChar s && noDoubleDash false s
  && negb (firstIs isDash s) && negb (lastIs isDash s).

(** A document without nested objects and arrays. *)
Definition flat (o : Fields) : bool := forallb (fun kv => isLeaf (snd kv)) o.

(** The [x-forwarded-for] header of a request, when it is there and not
    empty. *)
Definition forwardedFor (req : Req) : option string :=
  match headers req with
  | Some h => orElse (xForwardedFor h) None
  | None => None
  end.

(** [f] is what the text [p] ends with. *)
Definition EndsWith (f p : string) : Prop := exists pre, p = String.append pre f.

(** ** Retention: the loops *)

Section RetentionLoops.
Variables minV maxAgeCutoff windowCutoff : Z.

Let keptOf (e : AuditLog) := addKept 1 (if isSnapshot e then 1 else 0).

Ltac same_counts :=
  unfold addDeleted, addKept, incrDeleted, incrKept, incrSkipped, snapshotCount;
  cbn [deletedCount keptCount skippedSnapshots documentsProcessed List.length filter];
  repeat (f_equal; try lia); try reflexivity.

Lemma cleanupStep_expired (i : nat) (e : AuditLog) (r : CleanupResult) (td : list Z) :
  cleanupStep minV maxAgeCutoff windowCutoff i e (r, td) =
  if expired minV maxAgeCutoff windowCutoff i e then (r, td ++ [id e])
  else (keptOf e r, td).
Proof.
  unfold cleanupStep, expired, keptOf.
  destruct (isSnapshot e); cbn [negb andb]; [same_counts|].
  destruct (Z.of_nat i <? minV)%Z; cbn [negb andb]; [same_counts|].
  destruct (timestamp e <? maxAgeCutoff)%Z; cbn [orb]; [reflexivity|].
  destruct (timestamp e <? windowCutoff)%Z; [reflexivity|same_counts].
Qed.

Lemma previewStep_expired (i : nat) (e : AuditLog) (r : CleanupResult) :
  previewStep minV maxAgeCutoff windowCutoff i e r =
  if expired minV maxAgeCutoff windowCutoff i e then incrDeleted r
  else keptOf e r.
Proof.
  unfold previewStep, expired, keptOf.
  destruct (isSnapshot e); cbn [negb andb]; [same_counts|].
  destruct (Z.of_nat i <? minV)%Z; cbn [negb andb]; [same_counts|].
  destruct ((timestamp e <? maxAgeCutoff)%Z || (timestamp e <? windowCutoff)%Z);
    [reflexivity|same_counts].
Qed.

Lemma expired_not_snapshot (i : nat) (e : AuditLog) :
  expired minV maxAgeCutoff windowCutoff i e = true -> isSnapshot e = false.
Proof.
  unfold expired. destruct (isSnapshot e); simpl; [discriminate | reflexivity].
Qed.

(** The cleanup loop leaves [deletedCount] alone, appends to [toDelete] the
    ids of the doomed entries, and counts every other entry as kept. *)
Lemma cleanup_loop (docs : list AuditLog) :
  forall (i : nat) (r : CleanupResult) (td : list Z),
    forEntries (cleanupStep minV maxAgeCutoff windowCutoff) i docs (r, td) =
    (addKept
       (Z.of_nat (List.length docs)
        - Z.of_nat (List.length (doomed minV maxAgeCutoff windowCutoff i docs)))
       (snapshotCount docs) r,
     td ++ map id (doomed minV maxAgeCutoff windowCutoff i docs)).
Proof.
  induction docs as [|e rest IH]; intros i r td.
  - simpl. rewrite app_nil_r. destruct r. same_counts.
  - cbn [forEntries doomed]. rewrite cleanupStep_expired.
    destruct (expired minV maxAgeCutoff windowCutoff i e) eqn:E; rewrite IH.
    + apply expired_not_snapshot in E.
      unfold snapshotCount. cbn [filter List.length map]. rewrite E.
      rewrite <- app_assoc. cbn [app]. f_equal. same_counts.
    + unfold keptOf, snapshotCount. cbn [filter List.length].
      destruct (isSnapshot e); cbn [List.length]; f_equal; same_counts.
Qed.

(** The preview loop counts the same entries, the doomed ones as deleted. *)
Lemma preview_loop (docs : list AuditLog) :
  forall (i : nat) (r : CleanupResult),
    forEntries (previewStep minV maxAgeCutoff windowCutoff) i docs r =
    addDeleted (Z.of_nat (List.length (doomed minV maxAgeCutoff windowCutoff i docs)))
      (addKept
         (Z.of_nat (List.length docs)
          - Z.of_nat (List.length (doomed minV maxAgeCutoff windowCutoff i docs)))
         (snapshotCount docs) r).
Proof.
  induction docs as [|e rest IH]; intros i r.
  - simpl. destruct r. same_counts.
  - cbn [forEntries doomed]. rewrite previewStep_expired.
    destruct (expired minV maxAgeCutoff windowCutoff i e) eqn:E; rewrite IH.
    + apply expired_not_snapshot in E.
      unfold snapshotCount. cbn [filter List.length]. rewrite E. same_counts.
    + unfold keptOf, snapshotCount. cbn [filter List.length].
      destruct (isSnapshot e); cbn [List.length]; same_counts.
Qed.

Lemma doomed_nth (docs : list AuditLog) :
  forall (i : nat) (e : AuditLog),
    In e (doomed minV maxAgeCutoff windowCutoff i docs) <->
    exists j, nth_error docs j = Some e
              /\ expired minV maxAgeCutoff windowCutoff (i + j) e = true.
Proof.
  induction docs as [|x rest IH]; intros i e.
  - simpl. split; [tauto|]. intros [j [Hj _]]. destruct j; discriminate.
  - cbn [doomed]. split.
    + intros Hin.
      destruct (expired minV maxAgeCutoff windowCutoff i x) eqn:E.
      * destruct Hin as [->|Hin].
        -- exists 0%nat. rewrite Nat.add_0_r. auto.
        -- apply IH in Hin. destruct Hin as [j [Hj He]].
           exists (S j). rewrite Nat.add_succ_r. auto.
      * apply IH in Hin. destruct Hin as [j [Hj He]].
        exists (S j). rewrite Nat.add_succ_r. auto.
    + intros [j [Hj He]]. destruct j as [|j].
      * simpl in Hj. injection Hj as ->. rewrite Nat.add_0_r in He.
        rewrite He. left; reflexivity.
      * simpl in Hj. rewrite Nat.add_succ_r in He.
        assert (In e (doomed minV maxAgeCutoff windowCutoff (S i) rest))
          by (apply IH; exists j; auto).
        destruct (expired minV maxAgeCutoff windowCutoff i x); [right|]; assumption.
Qed.

Lemma doomed_length (docs : list AuditLog) :
  forall i : nat,
    (List.length (doomed minV maxAgeCutoff windowCutoff i docs)
     + List.length (filter (fun e : AuditLog => isSnapshot e) docs)
     <= List.length docs)%nat.
Proof.
  induction docs as [|x rest IH]; intros i; [simpl; lia|].
  cbn [doomed filter]. specialize (IH (S i)).
  destruct (expired minV maxAgeCutoff windowCutoff i x) eqn:E.
  - apply expired_not_snapshot in E. rewrite E. simpl. lia.
  - destruct (isSnapshot x); simpl; lia.
Qed.

End RetentionLoops.

(** ** Retention on the store in memory *)

Lemma insertByVersion_perm (e : AuditLog) (l : list AuditLog) :
  Permutation (insertByVersion e l) (e :: l).
Proof.
  induction l as [|x rest IH]; simpl; [reflexivity|].
  destruct (version x <=? version e)%Z; [reflexivity|].
  rewrite IH. apply perm_swap.
Qed.

Lemma sortByVersionDesc_perm (l : list AuditLog) :
  Permutation (sortByVersionDesc l) l.
Proof.
  induction l as [|x rest IH]; simpl; [reflexivity|].
  rewrite insertByVersion_perm. now rewrite IH.
Qed.

(** A selection of rows with distinct ids has distinct ids. *)
Lemma filter_keeps_ids (select : AuditLog -> bool) (rows : list AuditLog) :
  NoDup (map id rows) -> NoDup (map id (filter select rows)).
Proof.
  induction rows as [|row rest IH]; cbn [map filter]; intros Hids; [constructor|].
  apply NoDup_cons_iff in Hids. destruct Hids as [Hfresh Hrest].
  destruct (select row); cbn [map]; [|now apply IH].
  constructor; [|now apply IH].
  intros Hin. apply Hfresh. apply in_map_iff in Hin.
  destruct Hin as [other [Hsame Hin]]. apply filter_In in Hin.
  apply in_map_iff. exists other. tauto.
Qed.

(** A page of a listing holds entries of the listing, each once if the
    listing does. *)
Lemma firstn_keeps {A : Type} (limit : nat) (listing : list A) :
  incl (firstn limit listing) listing
  /\ (NoDup listing -> NoDup (firstn limit listing)).
Proof.
  pose proof (firstn_skipn limit listing) as Hsplit. split.
  - intros x Hx. rewrite <- Hsplit. apply in_or_app. now left.
  - intros Hnd. rewrite <- Hsplit in Hnd. now apply NoDup_app_remove_r in Hnd.
Qed.

Lemma fetched_In (c d : string) (w : World) (e : AuditLog) :
  In e (fetched c d w) -> In e (auditLogs w) /\ matches c d e = true.
Proof.
  unfold fetched. intros Hin. apply (proj1 (firstn_keeps _ _)) in Hin.
  apply (Permutation_in _ (sortByVersionDesc_perm _)) in Hin.
  now apply filter_In in Hin.
Qed.

Lemma fetched_NoDup (c d : string) (w : World) :
  NoDup (map id (auditLogs w)) -> NoDup (map id (fetched c d w)).
Proof.
  intros Hnd. unfold fetched. rewrite <- firstn_map. apply firstn_keeps.
  apply (Permutation_NoDup
           (Permutation_sym (Permutation_map id (sortByVersionDesc_perm _)))).
  now apply filter_keeps_ids.
Qed.

(** Two entries of a store without duplicate ids are the same entry when
    their ids are. *)
Lemma same_id_same_entry (l : list AuditLog) (a b : AuditLog) :
  NoDup (map id l) -> In a l -> In b l -> id a = id b -> a = b.
Proof.
  induction l as [|x rest IH]; simpl; intros Hnd Ha Hb Hid; [contradiction|].
  inversion Hnd as [|? ? Hnotin Hrest]; subst.
  destruct Ha as [->|Ha], Hb as [->|Hb]; auto.
  - exfalso. apply Hnotin. rewrite Hid. now apply in_map.
  - exfalso. apply Hnotin. rewrite <- Hid. now apply in_map.
Qed.

Lemma idIn_spec (ids : list Z) (e : AuditLog) :
  idIn ids e = true <-> In (id e) ids.
Proof.
  unfold idIn. rewrite existsb_exists. split.
  - intros [x [Hin Heq]]. apply Z.eqb_eq in Heq. now subst.
  - intros Hin. exists (id e). split; [assumption | apply Z.eqb_refl].
Qed.

Lemma toDeleteOf_spec (c d : string) (config : AuditConfig) (w : World) (x : Z) :
  In x (toDeleteOf c d config w) <->
  exists j e, nth_error (fetched c d w) j = Some e
              /\ expired (minVersionsOf config) (maxAgeCutoffOf config (clock w))
                         (windowCutoffOf config (fetched c d w)) j e = true
              /\ id e = x.
Proof.
  unfold toDeleteOf. rewrite in_map_iff. split.
  - intros [e [Hid Hin]]. apply doomed_nth in Hin. destruct Hin as [j [Hj He]].
    exists j, e. auto.
  - intros [j [e [Hj [He Hid]]]]. exists e. split; [assumption|].
    apply doomed_nth. exists j. auto.
Qed.

(** A snapshot of the store is not among the ids to delete. *)
Lemma snapshot_not_in_toDelete (c d : string) (config : AuditConfig) (w : World)
    (e : AuditLog) :
  NoDup (map id (auditLogs w)) -> In e (auditLogs w) -> isSnapshot e = true ->
  ~ In (id e) (toDeleteOf c d config w).
Proof.
  intros Hnd Hin Hsnap Hdel. apply toDeleteOf_spec in Hdel.
  destruct Hdel as [j [e' [Hj [He Hid]]]].
  apply expired_not_snapshot in He. apply nth_error_In in Hj.
  apply fetched_In in Hj. destruct Hj as [Hin' _].
  assert (e' = e) by (eapply same_id_same_entry; eauto).
  subst. congruence.
Qed.

Lemma deleteAll_nil (w : World) (r : CleanupResult) :
  deleteAll [] (w, r) = (Ok tt, (w, r)).
Proof. reflexivity. Qed.

Lemma deleteAll_cons (i : Z) (rest : list Z) (w : World) (r : CleanupResult) :
  deleteAll (i :: rest) (w, r) =
  if hd false (faults w) then (Throw "collaborator failure", (afterCall w, r))
  else if existsb (fun e => Z.eqb (id e) i) (auditLogs w)
       then deleteAll rest
              (withLogs (filter (fun e => negb (Z.eqb (id e) i)) (auditLogs w))
                        (afterCall w),
               incrDeleted r)
       else (Throw "Not Found", (afterCall w, r)).
Proof.
  cbn [deleteAll]. unfold bind at 1. unfold onFst at 1.
  cbn [deleteAuditLog MemPayload fst snd]. unfold memDelete, attempt.
  destruct (hd false (faults w)); [reflexivity|].
  cbn [auditLogs afterCall withFaults].
  destruct (existsb (fun e : AuditLog => (id e =? i)%Z) (auditLogs w)); reflexivity.
Qed.

(** Whatever fails, the deletions remove only entries whose id was to be
    deleted, and leave the other counters alone. *)
Lemma deleteAll_store (td : list Z) :
  forall (w : World) (r : CleanupResult),
    let run := deleteAll td (w, r) in
    (forall e, In e (auditLogs w) -> ~ In (id e) td ->
               In e (auditLogs (fst (snd run))))
    /\ keptCount (snd (snd run)) = keptCount r
    /\ skippedSnapshots (snd (snd run)) = skippedSnapshots r.
Proof.
  induction td as [|i rest IH]; intros w r; [simpl; auto|].
  cbv zeta. rewrite deleteAll_cons.
  destruct (hd false (faults w)); [simpl; auto|].
  destruct (existsb _ (auditLogs w)); [|simpl; auto].
  specialize (IH (withLogs (filter (fun e => negb (Z.eqb (id e) i)) (auditLogs w))
                           (afterCall w)) (incrDeleted r)).
  cbv zeta in IH. destruct IH as [IH1 [IH2 IH3]].
  split; [|split; assumption].
  intros e Hin Hnot. apply IH1.
  - cbn [auditLogs withLogs]. apply filter_In. split; [assumption|].
    apply negb_true_iff, Z.eqb_neq. intros Heq. apply Hnot. now left.
  - intros Hin'. apply Hnot. now right.
Qed.

(** The deletions count what they delete: at most the ids they were given,
    all of them when none fails. *)
Lemma deleteAll_deleted (td : list Z) :
  forall (w : World) (r : CleanupResult),
    let run := deleteAll td (w, r) in
    (deletedCount r <= deletedCount (snd (snd run))
     <= deletedCount r + Z.of_nat (List.length td))%Z
    /\ documentsProcessed (snd (snd run)) = documentsProcessed r.
Proof.
  induction td as [|i rest IH]; intros w r; [simpl; lia|].
  cbv zeta. rewrite deleteAll_cons.
  destruct (hd false (faults w)); [cbn [snd List.length]; lia|].
  destruct (existsb _ (auditLogs w)); [|cbn [snd List.length]; lia].
  specialize (IH (withLogs (filter (fun e => negb (Z.eqb (id e) i)) (auditLogs w))
                           (afterCall w)) (incrDeleted r)).
  cbv zeta in IH.
  set (run := deleteAll rest _) in *. clearbody run.
  unfold incrDeleted in IH.
  cbn [deletedCount documentsProcessed List.length] in *. lia.
Qed.

Lemma all_false_tl (fs : list bool) :
  Forall (eq false) fs -> hd false fs = false /\ Forall (eq false) (tl fs).
Proof.
  intros Hall. destruct Hall as [|x rest Hx Hrest]; simpl; auto.
Qed.

Lemma filter_idIn_nil (l : list AuditLog) :
  filter (fun e => negb (idIn [] e)) l = l.
Proof.
  induction l as [|x l IHl]; [reflexivity|].
  cbn [filter idIn existsb negb]. now f_equal.
Qed.

Lemma filter_idIn_cons (i : Z) (rest : list Z) (l : list AuditLog) :
  filter (fun e => negb (idIn rest e)) (filter (fun e => negb (Z.eqb (id e) i)) l)
  = filter (fun e => negb (idIn (i :: rest) e)) l.
Proof.
  induction l as [|x l IHl]; [reflexivity|].
  cbn [filter idIn existsb].
  destruct (Z.eqb (id x) i) eqn:E; cbn [negb orb filter]; [exact IHl|].
  fold (idIn rest x). destruct (idIn rest x); cbn [negb];
    [exact IHl | now rewrite IHl].
Qed.

(** When no call fails and the ids to delete are distinct ids of stored
    entries, every deletion succeeds. *)
Lemma deleteAll_ok (td : list Z) :
  forall (w : World) (r : CleanupResult),
    Forall (eq false) (faults w) -> NoDup td ->
    (forall i, In i td -> exists e, In e (auditLogs w) /\ id e = i) ->
    exists w',
      deleteAll td (w, r) = (Ok tt, (w', addDeleted (Z.of_nat (List.length td)) r))
      /\ auditLogs w' = filter (fun e => negb (idIn td e)) (auditLogs w).
Proof.
  induction td as [|i rest IH]; intros w r Hfaults Hnd Hstored.
  - exists w. split.
    + rewrite deleteAll_nil. destruct r. unfold addDeleted. cbn. repeat f_equal. lia.
    + now rewrite filter_idIn_nil.
  - rewrite deleteAll_cons. apply all_false_tl in Hfaults.
    destruct Hfaults as [Hhd Htl]. rewrite Hhd.
    destruct (Hstored i (or_introl eq_refl)) as [e [Hin Hid]].
    assert (Hex : existsb (fun e => Z.eqb (id e) i) (auditLogs w) = true).
    { apply existsb_exists. exists e. split; [assumption|]. now apply Z.eqb_eq. }
    rewrite Hex. apply NoDup_cons_iff in Hnd. destruct Hnd as [Hnotin Hrest].
    destruct (IH (withLogs (filter (fun e => negb (Z.eqb (id e) i)) (auditLogs w))
                           (afterCall w))
                 (incrDeleted r)) as [w' [Hrun Hlogs]].
    + exact Htl.
    + exact Hrest.
    + intros j Hj. destruct (Hstored j (or_intror Hj)) as [e' [Hin' Hid']].
      exists e'. split; [|assumption]. cbn [auditLogs withLogs].
      apply filter_In. split; [assumption|].
      apply negb_true_iff, Z.eqb_neq. intros Heq. apply Hnotin. congruence.
    + exists w'. split.
      * rewrite Hrun. f_equal. f_equal. unfold addDeleted, incrDeleted.
        cbn [deletedCount keptCount skippedSnapshots documentsProcessed List.length].
        f_equal. lia.
      * rewrite Hlogs. cbn [auditLogs withLogs]. apply filter_idIn_cons.
Qed.

(** [cleanupDocumentAuditLogs] on the store in memory, step by step. *)
Lemma cleanup_run (c d : string) (config : AuditConfig) (w : World) :
  cleanupDocumentAuditLogs c d config w =
  if hd false (faults w)
  then (Ok (emptyResult 1),
        logLine (cleanupErrorLine c d "collaborator failure") (afterCall w))
  else
    match fetched c d w with
    | [] => (Ok (emptyResult 1), afterCall w)
    | _ :: _ =>
        let run := deleteAll (toDeleteOf c d config w)
                             (afterCall w, keptAfterLoop c d config w) in
        match fst run with
        | Ok _ => (Ok (snd (snd run)), fst (snd run))
        | Throw message =>
            (Ok (snd (snd run)), logLine (cleanupErrorLine c d message) (fst (snd run)))
        end
    end.
Proof.
  unfold cleanupDocumentAuditLogs, tryCatch, bind, onFst, reads, writes.
  cbn [findAuditLogs newDate loggerError MemPayload fst snd].
  unfold memFind, attempt, reads.
  destruct (hd false (faults w)) eqn:Hhd; [reflexivity|].
  cbn [auditLogs clock afterCall withFaults fst snd].
  fold (fetched c d w). fold (afterCall w). unfold keptAfterLoop, toDeleteOf.
  destruct (fetched c d w) as [|latest rest] eqn:Hdocs; [reflexivity|].
  rewrite cleanup_loop. cbn [fst snd app].
  unfold minVersionsOf, maxAgeCutoffOf, windowCutoffOf. rewrite length_map.
  cbv zeta. change (clock (afterCall w)) with (clock w).
  match goal with
  | |- context [deleteAll ?td ?s] => destruct (deleteAll td s) as [[u|m] [w' r']]
  end; reflexivity.
Qed.

(** [getCleanupPreview] on the store in memory. *)
Lemma preview_run (c d : string) (config : AuditConfig) (w : World) :
  getCleanupPreview c d config w =
  if hd false (faults w)
  then (Ok (emptyResult 1),
        logLine (previewErrorLine c d "collaborator failure") (afterCall w))
  else
    match fetched c d w with
    | [] => (Ok (emptyResult 1), afterCall w)
    | _ :: _ =>
        (Ok (addDeleted (Z.of_nat (List.length (toDeleteOf c d config w)))
                        (keptAfterLoop c d config w)),
         afterCall w)
    end.
Proof.
  unfold getCleanupPreview, tryCatch, bind, onFst, reads, writes.
  cbn [findAuditLogs newDate loggerError MemPayload fst snd].
  unfold memFind, attempt, reads.
  destruct (hd false (faults w)) eqn:Hhd; [reflexivity|].
  cbn [auditLogs clock afterCall withFaults fst snd].
  fold (fetched c d w). fold (afterCall w). unfold keptAfterLoop, toDeleteOf.
  destruct (fetched c d w) as [|latest rest] eqn:Hdocs; [reflexivity|].
  cbn [fst snd]. rewrite preview_loop.
  unfold minVersionsOf, maxAgeCutoffOf, windowCutoffOf. rewrite length_map.
  change (clock (afterCall w)) with (clock w). reflexivity.
Qed.

Ltac distinct_ids :=
  repeat (constructor; [simpl; intuition discriminate|]); constructor.

(** ** Retention: the statements *)

(** C1.  A snapshot entry of the store is never among the ids to delete, is
    still stored after [cleanupDocumentAuditLogs] and after
    [getCleanupPreview], whatever its rank and age and whichever calls fail;
    both utilities count every snapshot they were handed as skipped and as
    kept.  The deletions that the preview reports are the ids to delete, none
    of them a snapshot's (none when the lookup throws), the cleanup reports
    no more; and the preview counts every entry it was handed once, as kept
    or as deleted. *)
Theorem snapshots_are_never_deleted (w : World) (c d : string) (config : AuditConfig)
    (e : AuditLog)
    (Hids : NoDup (map id (auditLogs w)))
    (Hin : In e (auditLogs w))
    (Hsnap : isSnapshot e = true) :
  ~ In (id e) (toDeleteOf c d config w)
  /\ In e (auditLogs (snd (cleanupDocumentAuditLogs c d config w)))
  /\ In e (auditLogs (snd (getCleanupPreview c d config w)))
  /\ exists r p,
       fst (cleanupDocumentAuditLogs c d config w) = Ok r
       /\ fst (getCleanupPreview c d config w) = Ok p
       /\ skippedSnapshots r = snapshotCount (found c d w)
       /\ skippedSnapshots p = snapshotCount (found c d w)
       /\ (snapshotCount (found c d w) <= keptCount r)%Z
       /\ (snapshotCount (found c d w) <= keptCount p)%Z
       /\ deletedCount p
          = (if hd false (faults w) then 0
             else Z.of_nat (List.length (toDeleteOf c d config w)))%Z
       /\ (0 <= deletedCount r <= deletedCount p)%Z
       /\ (keptCount p + deletedCount p = Z.of_nat (List.length (found c d w)))%Z.
Proof.
  pose proof (snapshot_not_in_toDelete c d config w e Hids Hin Hsnap) as Hnot.
  assert (Hcount : (snapshotCount (fetched c d w)
                    <= keptCount (keptAfterLoop c d config w))%Z
                   /\ skippedSnapshots (keptAfterLoop c d config w)
                      = snapshotCount (fetched c d w)
                   /\ (keptCount (keptAfterLoop c d config w)
                       + Z.of_nat (List.length (toDeleteOf c d config w))
                       = Z.of_nat (List.length (fetched c d w)))%Z).
  { unfold keptAfterLoop, toDeleteOf, addKept, snapshotCount, emptyResult.
    cbn [keptCount skippedSnapshots]. rewrite length_map.
    pose proof (doomed_length (minVersionsOf config) (maxAgeCutoffOf config (clock w))
                  (windowCutoffOf config (fetched c d w)) (fetched c d w) 0).
    lia. }
  destruct Hcount as [Hkept [Hskip Hsum]].
  rewrite cleanup_run, preview_run. unfold found.
  destruct (hd false (faults w)).
  - cbn [fst snd auditLogs logLine afterCall withFaults].
    repeat split; try assumption.
    exists (emptyResult 1), (emptyResult 1). unfold snapshotCount. simpl.
    repeat split; lia.
  - destruct (fetched c d w) as [|latest rest] eqn:Hdocs.
    + cbn [fst snd auditLogs afterCall withFaults].
      repeat split; try assumption.
      exists (emptyResult 1), (emptyResult 1). unfold snapshotCount, toDeleteOf.
      rewrite Hdocs. simpl. repeat split; lia.
    + cbv zeta.
      destruct (deleteAll_store (toDeleteOf c d config w) (afterCall w)
                  (keptAfterLoop c d config w)) as [Hstore [Hk Hs]].
      destruct (deleteAll_deleted (toDeleteOf c d config w) (afterCall w)
                  (keptAfterLoop c d config w)) as [Hdel _].
      cbv zeta in Hstore, Hk, Hs, Hdel.
      specialize (Hstore e Hin Hnot).
      set (run := deleteAll (toDeleteOf c d config w)
                            (afterCall w, keptAfterLoop c d config w)) in *.
      split; [assumption|]. split.
      { destruct (fst run); cbn [snd auditLogs logLine]; assumption. }
      split; [cbn [snd auditLogs afterCall withFaults]; assumption|].
      exists (snd (snd run)),
             (addDeleted (Z.of_nat (List.length (toDeleteOf c d config w)))
                         (keptAfterLoop c d config w)).
      split; [destruct (fst run); reflexivity|].
      split; [reflexivity|].
      assert (Hzero : deletedCount (keptAfterLoop c d config w) = 0%Z) by reflexivity.
      unfold addDeleted. cbn [keptCount skippedSnapshots deletedCount].
      rewrite Hk, Hs, Hzero in *. repeat split; solve [assumption | lia].
Qed.

Lemma snapshots_are_never_deleted_witness :
  NoDup (map id (auditLogs sparseHistory))
  /\ In (sparseEntry 3) (auditLogs sparseHistory)
  /\ isSnapshot (sparseEntry 3) = true
  /\ In (sparseEntry 3)
        (auditLogs (snd (cleanupDocumentAuditLogs "blog-posts" "test-doc-123"
                           testConfig sparseHistory))).
Proof.
  assert (Hids : NoDup (map id (auditLogs sparseHistory))) by (simpl; distinct_ids).
  assert (Hin : In (sparseEntry 3) (auditLogs sparseHistory))
    by (simpl; right; right; right; left; reflexivity).
  assert (Hsnap : isSnapshot (sparseEntry 3) = true) by (vm_compute; reflexivity).
  split; [assumption|]. split; [assumption|]. split; [assumption|].
  exact (proj1 (proj2 (snapshots_are_never_deleted sparseHistory "blog-posts"
                         "test-doc-123" testConfig (sparseEntry 3) Hids Hin Hsnap))).
Defined.

(** C2.  On ten update entries one day apart, with policy
    [{minVersions: 3, windowDays: 30, maxDays: 90}] and the clock at the
    latest entry, cleanup and preview keep all ten and delete none: the seven
    entries behind the first three are inside the 30-day window and younger
    than 90 days. *)
Theorem ten_daily_updates_are_all_kept :
  fst (cleanupDocumentAuditLogs "blog-posts" "test-doc-123" testConfig tenUpdates)
  = Ok (mkCleanupResult 0 10 0 1)
  /\ fst (getCleanupPreview "blog-posts" "test-doc-123" testConfig tenUpdates)
     = Ok (mkCleanupResult 0 10 0 1)
  /\ auditLogs (snd (cleanupDocumentAuditLogs "blog-posts" "test-doc-123" testConfig
                       tenUpdates))
     = auditLogs tenUpdates.
Proof. vm_compute. repeat split. Qed.

(** C3, as stated, fails: an entry older than [now - maxDays] at rank 0 is
    kept. *)
Lemma age_ceiling_counterexample :
  isSnapshot oldEntry = false
  /\ (timestamp oldEntry < maxAgeCutoffOf testConfig (clock oneOldEntry))%Z
  /\ fetched "blog-posts" "test-doc-123" oneOldEntry = [oldEntry]
  /\ toDeleteOf "blog-posts" "test-doc-123" testConfig oneOldEntry = []
  /\ cleanupDocumentAuditLogs "blog-posts" "test-doc-123" testConfig oneOldEntry
     = (Ok (mkCleanupResult 0 1 0 1), oneOldEntry).
Proof. vm_compute. repeat split. Qed.

Lemma doomed_NoDup (minV maxAgeCutoff windowCutoff : Z) (docs : list AuditLog) :
  forall i : nat,
    NoDup (map id docs) ->
    NoDup (map id (doomed minV maxAgeCutoff windowCutoff i docs)).
Proof.
  induction docs as [|x rest IH]; intros i Hnd; [constructor|].
  cbn [map] in Hnd. apply NoDup_cons_iff in Hnd. destruct Hnd as [Hnotin Hrest].
  cbn [doomed]. destruct (expired minV maxAgeCutoff windowCutoff i x); [|now apply IH].
  cbn [map]. constructor; [|now apply IH].
  intros Hin. apply Hnotin. apply in_map_iff in Hin.
  destruct Hin as [y [Hy Hin]]. apply doomed_nth in Hin.
  destruct Hin as [j [Hj _]]. apply nth_error_In in Hj.
  apply in_map_iff. exists y. auto.
Qed.

(** When no call fails, the cleanup of a store without duplicate ids deletes
    exactly the entries it set out to delete. *)
Lemma cleanup_deletes_toDelete (w : World) (c d : string) (config : AuditConfig) :
  NoDup (map id (auditLogs w)) ->
  Forall (eq false) (tl (faults w)) ->
  exists w',
    deleteAll (toDeleteOf c d config w) (afterCall w, keptAfterLoop c d config w)
    = (Ok tt, (w', addDeleted (Z.of_nat (List.length (toDeleteOf c d config w)))
                              (keptAfterLoop c d config w)))
    /\ auditLogs w'
       = filter (fun e => negb (idIn (toDeleteOf c d config w) e)) (auditLogs w).
Proof.
  intros Hids Hok.
  destruct (deleteAll_ok (toDeleteOf c d config w) (afterCall w)
              (keptAfterLoop c d config w)) as [w' [Hrun Hlogs]].
  - exact Hok.
  - unfold toDeleteOf. apply doomed_NoDup. now apply fetched_NoDup.
  - intros i Hi. apply toDeleteOf_spec in Hi.
    destruct Hi as [j [e [Hj [_ Hid]]]]. apply nth_error_In in Hj.
    apply fetched_In in Hj. exists e. tauto.
  - exists w'. split; assumption.
Qed.

(** C3, amended.  A non-snapshot entry older than [now - maxDays] is deleted
    by the cleanup exactly when its rank is not below [minVersions]: within
    the first [minVersions] ranks it is kept whatever its age. *)
Theorem age_ceiling_applies_behind_min_versions (w : World) (c d : string)
    (config : AuditConfig) (i : nat) (e : AuditLog)
    (Hids : NoDup (map id (auditLogs w)))
    (Hok : Forall (eq false) (faults w))
    (Hrank : nth_error (fetched c d w) i = Some e)
    (Hplain : isSnapshot e = false)
    (Hold : (timestamp e < maxAgeCutoffOf config (clock w))%Z) :
  In e (auditLogs (snd (cleanupDocumentAuditLogs c d config w)))
  <-> (Z.of_nat i < minVersionsOf config)%Z.
Proof.
  apply all_false_tl in Hok. destruct Hok as [Hhd Htl].
  destruct (cleanup_deletes_toDelete w c d config Hids Htl) as [w' [Hrun Hlogs]].
  assert (Hstored : In e (auditLogs w))
    by (apply nth_error_In in Hrank; now apply fetched_In in Hrank).
  assert (Hafter : auditLogs (snd (cleanupDocumentAuditLogs c d config w))
                   = auditLogs w').
  { rewrite cleanup_run, Hhd.
    destruct (fetched c d w) eqn:Hdocs; [destruct i; discriminate|].
    cbv zeta. rewrite Hrun. reflexivity. }
  rewrite Hafter, Hlogs, filter_In, negb_true_iff.
  assert (Hdel : In (id e) (toDeleteOf c d config w)
                 <-> ~ (Z.of_nat i < minVersionsOf config)%Z).
  { rewrite toDeleteOf_spec. split.
    - intros [j [e' [Hj [He Hid]]]].
      assert (j = i).
      { pose proof (fetched_NoDup c d w Hids) as Hnd.
        rewrite NoDup_nth_error in Hnd. apply Hnd.
        - rewrite length_map. apply nth_error_Some. congruence.
        - rewrite !nth_error_map, Hj, Hrank. simpl. congruence. }
      subst j. assert (e' = e) by congruence. subst e'.
      unfold expired in He. apply andb_prop in He. destruct He as [He _].
      apply andb_prop in He. destruct He as [_ He].
      apply negb_true_iff, Z.ltb_ge in He. lia.
    - intros Hge. exists i, e. repeat split; try assumption.
      unfold expired. rewrite Hplain. cbn [negb andb].
      apply andb_true_intro. split.
      + apply negb_true_iff, Z.ltb_ge. lia.
      + apply orb_true_intro. left. now apply Z.ltb_lt. }
  split.
  - intros [_ Hnot]. destruct (Z_lt_dec (Z.of_nat i) (minVersionsOf config));
      [assumption|]. exfalso.
    apply Hdel in n. apply idIn_spec in n. congruence.
  - intros Hlt. split; [assumption|].
    destruct (idIn (toDeleteOf c d config w) e) eqn:E; [|reflexivity].
    apply idIn_spec, Hdel in E. contradiction.
Qed.

Lemma age_ceiling_applies_behind_min_versions_witness :
  NoDup (map id (auditLogs sparseHistory))
  /\ Forall (eq false) (faults sparseHistory)
  /\ nth_error (fetched "blog-posts" "test-doc-123" sparseHistory) 4 = Some (sparseEntry 4)
  /\ isSnapshot (sparseEntry 4) = false
  /\ (timestamp (sparseEntry 4) < maxAgeCutoffOf testConfig (clock sparseHistory))%Z
  /\ (In (sparseEntry 4)
         (auditLogs (snd (cleanupDocumentAuditLogs "blog-posts" "test-doc-123"
                            testConfig sparseHistory)))
      <-> (Z.of_nat 4 < minVersionsOf testConfig)%Z).
Proof.
  assert (Hids : NoDup (map id (auditLogs sparseHistory))) by (simpl; distinct_ids).
  assert (Hok : Forall (eq false) (faults sparseHistory)) by constructor.
  assert (Hold : (timestamp (sparseEntry 4)
                  < maxAgeCutoffOf testConfig (clock sparseHistory))%Z)
    by (vm_compute; reflexivity).
  assert (Hrank : nth_error (fetched "blog-posts" "test-doc-123" sparseHistory) 4
                  = Some (sparseEntry 4))
    by (vm_compute; reflexivity).
  assert (Hplain : isSnapshot (sparseEntry 4) = false) by (vm_compute; reflexivity).
  split; [assumption|]. split; [assumption|]. split; [assumption|].
  split; [assumption|]. split; [assumption|].
  exact (age_ceiling_applies_behind_min_versions sparseHistory "blog-posts"
           "test-doc-123" testConfig 4 (sparseEntry 4) Hids Hok Hrank Hplain Hold).
Defined.

(** C4.  On a store without duplicate ids, and when no deletion fails,
    [getCleanupPreview] returns the [CleanupResult] of
    [cleanupDocumentAuditLogs] run in the same state, and leaves the audit
    store as it was. *)
Theorem preview_agrees_with_cleanup (w : World) (c d : string) (config : AuditConfig)
    (Hids : NoDup (map id (auditLogs w)))
    (Hdeletions : Forall (eq false) (tl (faults w))) :
  fst (getCleanupPreview c d config w) = fst (cleanupDocumentAuditLogs c d config w)
  /\ auditLogs (snd (getCleanupPreview c d config w)) = auditLogs w.
Proof.
  destruct (cleanup_deletes_toDelete w c d config Hids Hdeletions) as [w' [Hrun _]].
  rewrite cleanup_run, preview_run.
  destruct (hd false (faults w)); [split; reflexivity|].
  destruct (fetched c d w); [split; reflexivity|].
  cbv zeta. rewrite Hrun. split; reflexivity.
Qed.

Lemma preview_agrees_with_cleanup_witness :
  NoDup (map id (auditLogs sparseHistory))
  /\ Forall (eq false) (tl (faults sparseHistory))
  /\ fst (getCleanupPreview "blog-posts" "test-doc-123" testConfig sparseHistory)
     = fst (cleanupDocumentAuditLogs "blog-posts" "test-doc-123" testConfig sparseHistory)
  /\ auditLogs (snd (getCleanupPreview "blog-posts" "test-doc-123" testConfig
                       sparseHistory))
     = auditLogs sparseHistory.
Proof.
  assert (Hids : NoDup (map id (auditLogs sparseHistory))) by (simpl; distinct_ids).
  assert (Hok : Forall (eq false) (tl (faults sparseHistory))) by constructor.
  split; [assumption|]. split; [assumption|].
  exact (preview_agrees_with_cleanup sparseHistory "blog-posts" "test-doc-123"
           testConfig Hids Hok).
Defined.

(** ** The capture hooks *)

(** C9.  Whatever Payload does, and whichever of its calls throw, the
    post-mutation hook returns the document it was given and the pre-deletion
    hook returns normally; so does the pre-mutation hook with its data. *)
Theorem audit_hooks_never_throw (W : Type) (P : Payload W) (collectionSlug : string)
    (excluded : list string) (config : AuditConfig) (req : Req) (doc data : Fields)
    (operation : Operation) (previousDoc : Doc) (docId : JsVal) (w : W) :
  fst (createAfterChangeHook collectionSlug excluded config req doc operation
                             previousDoc w) = Ok doc
  /\ fst (createBeforeDeleteHook collectionSlug config req docId w) = Ok tt
  /\ exists req',
       fst (createBeforeChangeHook collectionSlug excluded config req operation data w)
       = Ok (data, req').
Proof.
  split; [|split].
  - unfold createAfterChangeHook.
    destruct (String.eqb collectionSlug "audit-logs"); [reflexivity|].
    destruct (negb (tracks config _)); [reflexivity|].
    unfold bind at 1. unfold tryCatch.
    match goal with
    | |- context [match ?body w with _ => _ end] => destruct (body w) as [[u|m] w']
    end; reflexivity.
  - unfold createBeforeDeleteHook.
    destruct (String.eqb collectionSlug "audit-logs"); [reflexivity|].
    destruct (negb (tracks config Delete)); [reflexivity|].
    unfold tryCatch.
    match goal with
    | |- context [match ?body w with _ => _ end] => destruct (body w) as [[[]|m] w']
    end; reflexivity.
  - unfold createBeforeChangeHook.
    destruct (String.eqb collectionSlug "audit-logs"); [now exists req|].
    destruct (negb (tracks config _)); [now exists req|].
    destruct operation; [now exists req|].
    destruct (context req) as [ctx|]; [|now exists req].
    unfold bind at 1. unfold tryCatch.
    match goal with
    | |- context [match ?body w with _ => _ end] => destruct (body w) as [[r|m] w']
    end.
    + now exists r.
    + now exists req.
Qed.

(** *** Versions *)

Lemma insertByVersion_head (x : AuditLog) (s : list AuditLog) :
  option_map (fun e : AuditLog => version e) (hd_error (insertByVersion x s)) =
  match option_map (fun e : AuditLog => version e) (hd_error s) with
  | None => Some (version x)
  | Some m => Some (Z.max (version x) m)
  end.
Proof.
  destruct s as [|h t]; [reflexivity|]. cbn [insertByVersion hd_error option_map].
  destruct (version h <=? version x)%Z eqn:E; cbn [hd_error option_map]; f_equal.
  - apply Z.leb_le in E. lia.
  - apply Z.leb_gt in E. lia.
Qed.

(** The first entry in the order [-version] carries the highest version. *)
Lemma sortByVersionDesc_head (l : list AuditLog) :
  option_map (fun e : AuditLog => version e) (hd_error (sortByVersionDesc l))
  = highestVersion l.
Proof.
  induction l as [|x rest IH]; [reflexivity|].
  cbn [sortByVersionDesc fold_right highestVersion].
  fold (sortByVersionDesc rest). rewrite insertByVersion_head, IH. reflexivity.
Qed.

(** What the hooks make of the answer to [limit: 1]. *)
Lemma latest_plus_one (c d : string) (rows : list AuditLog) :
  match firstn 1 (sortByVersionDesc (filter (matches c d) rows)) with
  | latest :: _ => (version latest + 1)%Z
  | [] => 1%Z
  end = nextVersion c d rows.
Proof.
  unfold nextVersion. rewrite <- sortByVersionDesc_head.
  destruct (sortByVersionDesc (filter (matches c d) rows)); reflexivity.
Qed.

Lemma highestVersion_bound (l : list AuditLog) (e : AuditLog) :
  In e l -> exists m, highestVersion l = Some m /\ (version e <= m)%Z.
Proof.
  induction l as [|x rest IH]; [contradiction|].
  intros [->|Hin]; cbn [highestVersion].
  - destruct (highestVersion rest); eexists; split; try reflexivity; lia.
  - destruct (IH Hin) as [m [Hm Hle]]. rewrite Hm.
    eexists; split; [reflexivity | lia].
Qed.

Lemma nextVersion_above (c d : string) (rows : list AuditLog) (e : AuditLog) :
  In e rows -> matches c d e = true -> (version e < nextVersion c d rows)%Z.
Proof.
  intros Hin Hm. unfold nextVersion.
  destruct (highestVersion_bound (filter (matches c d) rows) e) as [m [Hmax Hle]].
  - apply filter_In. auto.
  - rewrite Hmax. lia.
Qed.

Lemma nextVersion_positive (c d : string) (rows : list AuditLog) :
  Forall (fun e : AuditLog => (0 < version e)%Z) rows -> (0 < nextVersion c d rows)%Z.
Proof.
  intros Hpos. unfold nextVersion.
  destruct (filter (matches c d) rows) as [|x l] eqn:Hf; [simpl; lia|].
  assert (Hin : In x (filter (matches c d) rows)) by (rewrite Hf; now left).
  destruct (highestVersion_bound _ x Hin) as [m [Hmax Hle]].
  rewrite <- Hf, Hmax. apply filter_In in Hin. destruct Hin as [Hin _].
  rewrite Forall_forall in Hpos. specialize (Hpos x Hin). lia.
Qed.

Lemma StronglySorted_snoc (l : list Z) (x : Z) :
  StronglySorted Z.lt l -> Forall (fun y => (y < x)%Z) l ->
  StronglySorted Z.lt (l ++ [x]).
Proof.
  induction l as [|y rest IH]; intros Hs Hall; simpl.
  - repeat constructor.
  - apply StronglySorted_inv in Hs. destruct Hs as [Hs Hy].
    inversion Hall as [|? ? Hyx Hrest]; subst.
    constructor; [now apply IH|].
    apply Forall_app. split; [assumption | now constructor].
Qed.

Lemma StronglySorted_map_filter (p : AuditLog -> bool) (l : list AuditLog) :
  StronglySorted Z.lt (map (fun e : AuditLog => version e) l) ->
  StronglySorted Z.lt (map (fun e : AuditLog => version e) (filter p l)).
Proof.
  induction l as [|x rest IH]; intros Hs; [constructor|].
  cbn [map] in Hs. apply StronglySorted_inv in Hs. destruct Hs as [Hs Hx].
  cbn [filter]. destruct (p x); [|now apply IH].
  cbn [map]. constructor; [now apply IH|].
  rewrite Forall_forall in *. intros v Hv. apply Hx.
  apply in_map_iff in Hv. destruct Hv as [e [He Hin]]. apply filter_In in Hin.
  apply in_map_iff. exists e. tauto.
Qed.

Lemma filter_comm {A : Type} (p q : A -> bool) (l : list A) :
  filter p (filter q l) = filter q (filter p l).
Proof.
  induction l as [|x rest IH]; [reflexivity|]. cbn [filter].
  destruct (q x) eqn:Q, (p x) eqn:Pp; cbn [filter]; rewrite ?Q, ?Pp, IH; reflexivity.
Qed.

(** The order of versions survives deletions ... *)
Lemma VersionsOrdered_filter (p : AuditLog -> bool) (rows : list AuditLog) :
  VersionsOrdered rows -> VersionsOrdered (filter p rows).
Proof.
  intros [Hpos Hsorted]. split.
  - rewrite Forall_forall in *. intros e He. apply filter_In in He. now apply Hpos.
  - intros c d. rewrite filter_comm. apply StronglySorted_map_filter, Hsorted.
Qed.

(** ... and the recording of an entry with the next version. *)
Lemma VersionsOrdered_recorded (c d : string) (before after : list AuditLog) :
  recorded c d before after -> VersionsOrdered before -> VersionsOrdered after.
Proof.
  intros [->|[e [-> [Hc [Hd Hv]]]]] [Hpos Hsorted]; [now split|].
  split.
  - apply Forall_app. split; [assumption|]. constructor; [|constructor].
    rewrite Hv. now apply nextVersion_positive.
  - intros c' d'. rewrite filter_app. cbn [filter].
    destruct (matches c' d' e) eqn:Hm; [|rewrite app_nil_r; apply Hsorted].
    rewrite map_app. cbn [map]. apply StronglySorted_snoc; [apply Hsorted|].
    assert (c' = c /\ d' = d) as [-> ->].
    { unfold matches in Hm. apply andb_prop in Hm. destruct Hm as [H1 H2].
      apply String.eqb_eq in H1, H2. split; congruence. }
    rewrite Forall_forall. intros v Hin. apply in_map_iff in Hin.
    destruct Hin as [x [<- Hx]]. apply filter_In in Hx. destruct Hx as [Hx Hmx].
    rewrite Hv. now apply nextVersion_above.
Qed.

(** The store after the post-mutation hook, case by case. *)
Lemma afterChange_store (slug : string) (excluded : list string) (config : AuditConfig)
    (req : Req) (doc : Fields) (operation : Operation) (previousDoc : Doc) (w : World) :
  auditLogs (snd (createAfterChangeHook slug excluded config req doc operation
                                        previousDoc w)) =
  if String.eqb slug "audit-logs" then auditLogs w
  else if negb (tracks config match operation with
                              | OpCreate => Create
                              | OpUpdate => Update
                              end) then auditLogs w
  else if (Nat.eqb (List.length (calculateDiff (beforeState req slug previousDoc)
                                               (Some doc) excluded)) 0
           && match operation with OpUpdate => true | OpCreate => false end)%bool
       then auditLogs w
  else if hd false (faults w) then auditLogs w
  else if hd false (tl (faults w)) then auditLogs w
  else auditLogs w ++ [afterChangeEntry slug excluded req doc operation previousDoc w].
Proof.
  unfold createAfterChangeHook.
  destruct (String.eqb slug "audit-logs"); [reflexivity|].
  destruct (negb (tracks config _)); [reflexivity|].
  fold (beforeState req slug previousDoc).
  unfold bind at 1. unfold tryCatch.
  destruct (_ && _)%bool; [reflexivity|].
  unfold bind, reads, writes.
  cbn [findAuditLogs createAuditLog newDate loggerError setImmediate MemPayload].
  unfold memFind, memCreate, attempt, reads, writes.
  destruct (hd false (faults w)); [reflexivity|].
  cbn [faults afterCall withFaults].
  destruct (hd false (tl (faults w))); [reflexivity|].
  cbn [auditLogs clock nextId afterCall withFaults pushImmediate fst snd].
  rewrite latest_plus_one. reflexivity.
Qed.

Lemma afterChange_recorded (slug : string) (excluded : list string)
    (config : AuditConfig) (req : Req) (doc : Fields) (operation : Operation)
    (previousDoc : Doc) (w : World) :
  recorded slug (jsString (getField doc "id")) (auditLogs w)
    (auditLogs (snd (createAfterChangeHook slug excluded config req doc operation
                                           previousDoc w))).
Proof.
  rewrite afterChange_store.
  repeat match goal with
         | |- recorded _ _ _ (if ?b then _ else _) => destruct b; [now left|]
         end.
  right. eexists. split; [reflexivity|]. repeat split.
Qed.

Lemma beforeDelete_recorded (slug : string) (config : AuditConfig) (req : Req)
    (docId : JsVal) (w : World) :
  recorded slug (jsString docId) (auditLogs w)
    (auditLogs (snd (createBeforeDeleteHook slug config req docId w)))
  /\ Forall (fun e : AuditLog => In e (auditLogs w)
                                 \/ (action e = Delete /\ isSnapshot e = true))
            (auditLogs (snd (createBeforeDeleteHook slug config req docId w))).
Proof.
  assert (Hold : Forall (fun e : AuditLog => In e (auditLogs w)
                           \/ (action e = Delete /\ isSnapshot e = true)) (auditLogs w))
    by (apply Forall_forall; auto).
  unfold createBeforeDeleteHook.
  destruct (String.eqb slug "audit-logs"); [split; [now left | assumption]|].
  destruct (negb (tracks config Delete)); [split; [now left | assumption]|].
  unfold tryCatch, bind, reads, writes.
  cbn [findByID findAuditLogs createAuditLog newDate loggerError MemPayload].
  unfold memFindByID, memFind, memCreate, attempt, reads, writes.
  destruct (hd false (faults w)); [split; [now left | assumption]|].
  destruct (documents (afterCall w) slug docId) as [doc|];
    [|split; [now left | assumption]].
  cbn [faults afterCall withFaults].
  destruct (hd false (tl (faults w))); [split; [now left | assumption]|].
  cbn [faults afterCall withFaults].
  destruct (hd false (tl (tl (faults w)))); [split; [now left | assumption]|].
  cbn [auditLogs clock nextId afterCall withFaults fst snd].
  rewrite latest_plus_one. split.
  - right. eexists. split; [reflexivity|]. repeat split.
  - apply Forall_app. split; [assumption|].
    constructor; [right; split; reflexivity | constructor].
Qed.

Lemma deleteAll_filter (td : list Z) :
  forall (w : World) (r : CleanupResult),
    exists done,
      auditLogs (fst (snd (deleteAll td (w, r))))
      = filter (fun e => negb (idIn done e)) (auditLogs w).
Proof.
  induction td as [|i rest IH]; intros w r.
  - exists []. now rewrite deleteAll_nil, filter_idIn_nil.
  - rewrite deleteAll_cons.
    destruct (hd false (faults w)); [exists []; now rewrite filter_idIn_nil|].
    destruct (existsb _ (auditLogs w)); [|exists []; now rewrite filter_idIn_nil].
    destruct (IH (withLogs (filter (fun e => negb (Z.eqb (id e) i)) (auditLogs w))
                           (afterCall w)) (incrDeleted r)) as [done Hdone].
    exists (i :: done). rewrite Hdone. cbn [auditLogs withLogs].
    apply filter_idIn_cons.
Qed.

(** The cleanup only removes entries. *)
Lemma cleanup_store_filter (c d : string) (config : AuditConfig) (w : World) :
  exists p, auditLogs (snd (cleanupDocumentAuditLogs c d config w))
            = filter p (auditLogs w).
Proof.
  rewrite cleanup_run.
  destruct (hd false (faults w));
    [exists (fun e => negb (idIn [] e)); now rewrite filter_idIn_nil|].
  destruct (fetched c d w);
    [exists (fun e => negb (idIn [] e)); now rewrite filter_idIn_nil|].
  cbv zeta.
  destruct (deleteAll_filter (toDeleteOf c d config w) (afterCall w)
              (keptAfterLoop c d config w)) as [done Hdone].
  exists (fun e => negb (idIn done e)).
  destruct (fst (deleteAll _ _)); cbn [snd auditLogs logLine]; exact Hdone.
Qed.

Lemma preview_store (c d : string) (config : AuditConfig) (w : World) :
  auditLogs (snd (getCleanupPreview c d config w)) = auditLogs w.
Proof.
  rewrite preview_run.
  destruct (hd false (faults w)); [reflexivity|].
  destruct (fetched c d w); reflexivity.
Qed.

Lemma runEvent_ordered (e : Event) (w : World) :
  VersionsOrdered (auditLogs w) -> VersionsOrdered (auditLogs (runEvent e w)).
Proof.
  intros Hw. destruct e; cbn [runEvent].
  - eapply VersionsOrdered_recorded; [apply afterChange_recorded | assumption].
  - eapply VersionsOrdered_recorded; [apply beforeDelete_recorded | assumption].
  - destruct (immediates w) as [|task rest]; [assumption|].
    unfold runCleanupTask, tryCatch, bind, ret.
    set (w1 := mkWorld _ _ _ _ _ _ rest).
    destruct (cleanup_store_filter (taskCollection task) (taskDocumentId task)
                (taskConfig task) w1) as [p Hp].
    change (auditLogs w1) with (auditLogs w) in Hp.
    destruct (cleanupDocumentAuditLogs _ _ _ w1) as [[r|m] w2] eqn:Hrun;
      unfold writes; cbn [snd loggerWarn MemPayload auditLogs logLine] in *;
      rewrite Hp; now apply VersionsOrdered_filter.
  - destruct (cleanup_store_filter c d config w) as [p Hp]. rewrite Hp.
    now apply VersionsOrdered_filter.
  - now rewrite preview_store.
  - assumption.
Qed.

Lemma runEvents_ordered (es : list Event) :
  forall w : World,
    VersionsOrdered (auditLogs w) -> VersionsOrdered (auditLogs (runEvents es w)).
Proof.
  induction es as [|e rest IH]; intros w Hw; [assumption|].
  cbn [runEvents fold_left]. apply IH. now apply runEvent_ordered.
Qed.

Lemma StronglySorted_lt_NoDup (l : list Z) : StronglySorted Z.lt l -> NoDup l.
Proof.
  induction 1 as [|x l Hs IH Hall]; constructor; [|assumption].
  intros Hin. rewrite Forall_forall in Hall. specialize (Hall x Hin). lia.
Qed.

(** C8.  The post-mutation and pre-deletion hooks either leave the store as
    it was or add one entry for their [(collection, documentId)] whose version
    is one more than the highest version stored for that pair, 1 when there
    is none.  Hence, from a store whose versions are positive and strictly
    increasing within each pair, every sequential run of hooks, deferred
    cleanups and utilities leads to such a store, where the versions of a
    pair are pairwise distinct. *)
Theorem versions_follow_the_highest_stored (es : list Event) (w : World)
    (slug : string) (excluded : list string) (config : AuditConfig) (req : Req)
    (doc : Fields) (operation : Operation) (previousDoc : Doc) (docId : JsVal)
    (c d : string)
    (Hinit : VersionsOrdered (auditLogs w)) :
  recorded slug (jsString (getField doc "id")) (auditLogs w)
    (auditLogs (snd (createAfterChangeHook slug excluded config req doc operation
                                           previousDoc w)))
  /\ recorded slug (jsString docId) (auditLogs w)
       (auditLogs (snd (createBeforeDeleteHook slug config req docId w)))
  /\ VersionsOrdered (auditLogs (runEvents es w))
  /\ NoDup (map (fun e : AuditLog => version e)
                (filter (matches c d) (auditLogs (runEvents es w)))).
Proof.
  split; [apply afterChange_recorded|].
  split; [apply beforeDelete_recorded|].
  pose proof (runEvents_ordered es w Hinit) as Hfinal.
  split; [assumption|]. apply StronglySorted_lt_NoDup, Hfinal.
Qed.

Lemma versions_follow_the_highest_stored_witness :
  VersionsOrdered (auditLogs freshHost)
  /\ VersionsOrdered (auditLogs (runEvents lifeOfAPost freshHost))
  /\ NoDup (map (fun e : AuditLog => version e)
                (filter (matches "blog-posts" "7")
                        (auditLogs (runEvents lifeOfAPost freshHost)))).
Proof.
  assert (Hinit : VersionsOrdered (auditLogs freshHost)).
  { split; [constructor | intros c d; constructor]. }
  split; [assumption|].
  exact (proj2 (proj2 (versions_follow_the_highest_stored lifeOfAPost freshHost
                         "blog-posts" [] testConfig testReq blogPost OpCreate None
                         (JNum (Fin 7)) "blog-posts" "7" Hinit))).
Defined.

(** The end-to-end scenario of the specification: versions 1, 2, 3, the last
    entry a protected deletion. *)
Example life_of_a_post :
  map (fun e : AuditLog => (action e, version e, isSnapshot e, map path (changes e)))
      (auditLogs (runEvents lifeOfAPost freshHost))
  = [(Create, 1%Z, true, ["title"; "category"]%string);
     (Update, 2%Z, false, ["title"]%string);
     (Delete, 3%Z, true, ["title"; "category"]%string)].
Proof. vm_compute. reflexivity. Qed.

(** C10.  A tracked create whose diff is empty still stores an entry: action
    [create], the next version, no changes.  The same write as an update
    stores nothing. *)
Theorem create_with_empty_diff_is_recorded (slug : string) (excluded : list string)
    (config : AuditConfig) (req : Req) (doc : Fields) (previousDoc : Doc) (w : World)
    (Hslug : String.eqb slug "audit-logs" = false)
    (Htracked : tracks config Create = true)
    (Hempty : calculateDiff (beforeState req slug previousDoc) (Some doc) excluded = [])
    (Hfind : hd false (faults w) = false)
    (Hinsert : hd false (tl (faults w)) = false) :
  (exists e : AuditLog,
      auditLogs (snd (createAfterChangeHook slug excluded config req doc OpCreate
                                            previousDoc w))
      = auditLogs w ++ [e]
      /\ action e = Create
      /\ changes e = []
      /\ version e = nextVersion slug (jsString (getField doc "id")) (auditLogs w)
      /\ collection e = slug
      /\ documentId e = jsString (getField doc "id"))
  /\ auditLogs (snd (createAfterChangeHook slug excluded config req doc OpUpdate
                                           previousDoc w))
     = auditLogs w.
Proof.
  rewrite !afterChange_store, Hslug, Htracked, Hempty, Hfind, Hinsert.
  cbn [negb List.length Nat.eqb andb]. split.
  - eexists. split; [reflexivity|].
    unfold afterChangeEntry. cbn [data action changes version collection documentId].
    rewrite Hempty. repeat split.
  - destruct (negb (tracks config Update)); reflexivity.
Qed.

Lemma create_with_empty_diff_is_recorded_witness :
  String.eqb "blog-posts" "audit-logs" = false
  /\ tracks testConfig Create = true
  /\ calculateDiff (beforeState testReq "blog-posts" None) (Some bareDocument)
                   ["password"%string] = []
  /\ hd false (faults freshHost) = false
  /\ hd false (tl (faults freshHost)) = false
  /\ auditLogs (snd (createAfterChangeHook "blog-posts" ["password"%string] testConfig
                       testReq bareDocument OpUpdate None freshHost))
     = auditLogs freshHost.
Proof.
  assert (Hempty : calculateDiff (beforeState testReq "blog-posts" None)
                                 (Some bareDocument) ["password"%string] = [])
    by (vm_compute; reflexivity).
  assert (Hslug : String.eqb "blog-posts" "audit-logs" = false)
    by (vm_compute; reflexivity).
  assert (Htracked : tracks testConfig Create = true) by (vm_compute; reflexivity).
  assert (Hfind : hd false (faults freshHost) = false) by reflexivity.
  assert (Hinsert : hd false (tl (faults freshHost)) = false) by reflexivity.
  split; [assumption|]. split; [assumption|]. split; [assumption|].
  split; [assumption|]. split; [assumption|].
  exact (proj2 (create_with_empty_diff_is_recorded "blog-posts" ["password"%string]
                  testConfig testReq bareDocument None freshHost
                  Hslug Htracked Hempty Hfind Hinsert)).
Defined.

(** The empty create of [bareDocument] in [freshHost]: one entry, version 1,
    no changes. *)
Example bare_document_is_recorded :
  map (fun e : AuditLog => (action e, version e, changes e, documentId e))
      (auditLogs (snd (createAfterChangeHook "blog-posts" ["password"%string] testConfig
                         testReq bareDocument OpCreate None freshHost)))
  = [(Create, 1%Z, [], "8"%string)].
Proof. vm_compute. reflexivity. Qed.

(** ** The diff engine *)

Lemma calculateDiffF_step (fuel : nat) (o n : Fields) (excluded : list string)
    (parentPath : string) :
  calculateDiffF (S fuel) (Some o) (Some n) excluded parentPath =
  flat_map (diffKey (calculateDiffF fuel) o n excluded parentPath)
           (newSet (keys o ++ keys n)).
Proof. reflexivity. Qed.

Lemma flattenObjectF_step (fuel : nat) (o : Fields) (parentPath : string)
    (excluded : list string) :
  flattenObjectF (S fuel) (Some o) parentPath excluded =
  flat_map (flattenEntry (flattenObjectF fuel) parentPath excluded) o.
Proof. reflexivity. Qed.

(** *** The cases of the test-suite of [calculateDiff] *)

Example detects_primitive_changes :
  (calculateDiff (Some [("title", JStr "Old Title"); ("status", JStr "draft")])
                (Some [("title", JStr "New Title"); ("status", JStr "draft")]) []
  = [mkChange "title" (JStr "Old Title") (JStr "New Title") "title"])%string.
Proof. reflexivity. Qed.

Example detects_nested_changes :
  (calculateDiff (Some [("meta", JObj 1 [("seo", JObj 2 [("title", JStr "Old SEO")])])])
                (Some [("meta", JObj 3 [("seo", JObj 4 [("title", JStr "New SEO")])])]) []
  = [mkChange "title" (JStr "Old SEO") (JStr "New SEO") "meta.seo.title"])%string.
Proof. reflexivity. Qed.

Example detects_array_length_changes :
  (calculateDiff (Some [("items", JArr 1 [JNum (Fin 1); JNum (Fin 2); JNum (Fin 3)])])
                (Some [("items", JArr 2 [JNum (Fin 1); JNum (Fin 2)])]) []
  = [mkChange "items.length" (JNum (Fin 3)) (JNum (Fin 2)) "items.length";
     mkChange "items[2]" (JNum (Fin 3)) JNull "items[2]"])%string.
Proof. reflexivity. Qed.

Example detects_null_to_undefined :
  (calculateDiff (Some [("field", JNull)]) (Some [("field", JUndefined)]) []
  = [mkChange "field" JNull JNull "field"])%string.
Proof. reflexivity. Qed.

Example detects_date_changes :
  (calculateDiff (Some [("publishDate", JDate 1 1735689600000)])
                (Some [("publishDate", JDate 2 1735776000000)]) []
  = [mkChange "publishDate" (JStr "2025-01-01T00:00:00.000Z")
              (JStr "2025-01-02T00:00:00.000Z") "publishDate"])%string.
Proof. vm_compute. reflexivity. Qed.

Example ignores_internal_fields :
  (calculateDiff
    (Some [("title", JStr "Title"); ("id", JNum (Fin 1));
           ("createdAt", JStr "2025-01-01"); ("updatedAt", JStr "2025-01-01")])
    (Some [("title", JStr "Title"); ("id", JNum (Fin 1));
           ("createdAt", JStr "2025-01-01"); ("updatedAt", JStr "2025-01-02")]) []
  = [])%string.
Proof. reflexivity. Qed.

Example handles_deleted_document :
  (calculateDiff (Some [("title", JStr "Deleted Document"); ("status", JStr "published")])
                None []
  = [mkChange "title" (JStr "Deleted Document") JNull "title";
     mkChange "status" (JStr "published") JNull "status"])%string.
Proof. reflexivity. Qed.

Example first_forwarded_hop :
  (getClientIp (mkReq None None
                     (Some (mkHeaders (Some " 203.0.113.7 , 10.0.0.1") None None))
                     (Some "127.0.0.1") None)
  = "203.0.113.7")%string.
Proof. reflexivity. Qed.

(** C6.  The diff of a document with itself is not empty when a field holds
    [NaN]: [deepEqual] starts from [===], which tells [NaN] from itself. *)
Theorem diff_with_itself_reports_NaN :
  deepEqual (JNum NaN) (JNum NaN) = false
  /\ calculateDiff (Some [("score"%string, JNum NaN)])
                   (Some [("score"%string, JNum NaN)]) []
     = [mkChange "score" (JNum NaN) (JNum NaN) "score"].
Proof. split; reflexivity. Qed.

Lemma strictEq_refl (v : JsVal) : v <> JNum NaN -> strictEq v v = true.
Proof.
  destruct v as [| |b|n|s|r|r|r|r t|r a|r o]; intros Hv; cbn [strictEq];
    try reflexivity; try apply Nat.eqb_refl.
  - now destruct b.
  - destruct n; [contradiction | apply Z.eqb_refl].
  - apply String.eqb_refl.
Qed.

Lemma deepEqual_same (v : JsVal) : v <> JNum NaN -> deepEqual v v = true.
Proof.
  intros Hv. destruct v; cbn [deepEqual]; rewrite strictEq_refl by assumption;
    reflexivity.
Qed.

Lemma flat_map_nil {A B : Type} (f : A -> list B) (l : list A) :
  (forall x, In x l -> f x = []) -> flat_map f l = [].
Proof.
  induction l as [|x rest IH]; intros Hf; [reflexivity|]. cbn [flat_map].
  rewrite (Hf x) by now left. apply IH. intros y Hy. apply Hf. now right.
Qed.

(** Apart from [NaN], the diff of a document with itself is empty: a value is
    [===] to itself. *)
Lemma diff_with_itself (o : Fields) (excluded : list string) :
  (forall key, getField o key <> JNum NaN) ->
  calculateDiff (Some o) (Some o) excluded = [].
Proof.
  intros Hnan. unfold calculateDiff, diffFuel. rewrite calculateDiffF_step.
  apply flat_map_nil. intros key _. unfold diffKey.
  destruct (includes excluded key); [reflexivity|].
  destruct (isInternalField key); [reflexivity|].
  cbv zeta. now rewrite deepEqual_same.
Qed.

(** *** Objects as lists of entries *)

Lemma includes_In (l : list string) (key : string) :
  includes l key = true <-> In key l.
Proof.
  unfold includes. rewrite existsb_exists. split.
  - intros [x [Hin Heq]]. apply String.eqb_eq in Heq. now subst.
  - intros Hin. exists key. split; [assumption | apply String.eqb_refl].
Qed.

Lemma distinct_NoDup (l : list string) : distinct l = true <-> NoDup l.
Proof.
  induction l as [|x rest IH]; cbn [distinct]; [split; [constructor | reflexivity]|].
  rewrite andb_true_iff, negb_true_iff, IH, NoDup_cons_iff.
  assert (includes rest x = false <-> ~ In x rest).
  { rewrite <- includes_In. destruct (includes rest x); split; congruence. }
  tauto.
Qed.

Lemma getField_absent (o : Fields) (key : string) :
  ~ In key (keys o) -> getField o key = JUndefined.
Proof.
  induction o as [|[k v] rest IH]; intros Hnot; [reflexivity|]. cbn [getField].
  destruct (String.eqb k key) eqn:E.
  - apply String.eqb_eq in E. subst. exfalso. apply Hnot. now left.
  - apply IH. intros Hin. apply Hnot. now right.
Qed.

Lemma getField_entry (o : Fields) (key : string) (v : JsVal) :
  NoDup (keys o) -> In (key, v) o -> getField o key = v.
Proof.
  induction o as [|[k x] rest IH]; intros Hnd Hin; [contradiction|].
  cbn [keys map fst] in Hnd. apply NoDup_cons_iff in Hnd. destruct Hnd as [Hnot Hrest].
  cbn [getField]. destruct Hin as [Heq|Hin].
  - injection Heq as -> ->. now rewrite String.eqb_refl.
  - destruct (String.eqb k key) eqn:E; [|now apply IH].
    apply String.eqb_eq in E. subst. exfalso. apply Hnot.
    change (In (fst (key, v)) (map fst rest)). now apply in_map.
Qed.

Lemma getField_present (o : Fields) (key : string) :
  In key (keys o) -> In (key, getField o key) o.
Proof.
  induction o as [|[k x] rest IH]; intros Hin; [contradiction|].
  cbn [getField]. destruct (String.eqb k key) eqn:E.
  - apply String.eqb_eq in E. subst. now left.
  - right. apply IH. destruct Hin as [Heq|Hin]; [|assumption].
    cbn in Heq. subst. now rewrite String.eqb_refl in E.
Qed.

Lemma newSet_In (l : list string) (x : string) : In x (newSet l) <-> In x l.
Proof.
  induction l as [|y rest IH]; [reflexivity|]. cbn [newSet]. split.
  - intros [->|Hin]; [now left|]. apply filter_In in Hin. right. now apply IH.
  - intros [->|Hin]; [now left|].
    destruct (String.eqb x y) eqn:E.
    + apply String.eqb_eq in E. subst. now left.
    + right. apply filter_In. split; [now apply IH|]. now rewrite E.
Qed.



(** *** Paths *)

Lemma Child_getField (r : Ref) (o : Fields) (key : string) :
  Child (JObj r o) key (getField o key).
Proof.
  destruct (in_dec string_dec key (keys o)) as [Hin|Hnot].
  - left. exists r, o. split; [reflexivity | now apply getField_present].
  - right. split; [exact Hnot | now apply getField_absent].
Qed.

Lemma Child_entry (r : Ref) (o : Fields) (key : string) (x : JsVal) :
  In (key, x) o -> Child (JObj r o) key x /\ In key (ownKeys (JObj r o)).
Proof.
  intros Hin. split; [left; exists r, o; auto|].
  change (In (fst (key, x)) (map fst o)). now apply in_map.
Qed.

Lemma Child_absent (key : string) : Child JUndefined key JUndefined.
Proof. right. split; [intros [] | reflexivity]. Qed.

Lemma Walk_swap (excluded : list string) (a b : JsVal) (segments : list Segment) :
  Walk excluded a b segments -> Walk excluded b a segments.
Proof.
  induction 1 as [a b|a b x y key rest Hkey Hex Hint Hx Hy _ IH|a b i rest Hi _ IH
                  |a b Ha Hb Hsize].
  - constructor.
  - apply (walk_key _ b a y x); tauto.
  - apply walk_index; [now rewrite Nat.max_comm | assumption].
  - apply walk_length; auto.
Qed.

Lemma Walk_allowed (excluded : list string) (a b : JsVal) (segments : list Segment) :
  Walk excluded a b segments -> Forall (allowed excluded) segments.
Proof.
  induction 1; repeat constructor; assumption.
Qed.

Lemma Follows_swap (excluded : list string) (a b : JsVal) (parentPath p f : string) :
  Follows excluded a b parentPath p f -> Follows excluded b a parentPath p f.
Proof.
  intros [segments [Hp [Hwalk Hf]]]. exists segments.
  split; [exact Hp|]. split; [now apply Walk_swap | exact Hf].
Qed.

Lemma Follows_key (excluded : list string) (a b x y : JsVal)
    (parentPath key p f : string) :
  In key (ownKeys a) \/ In key (ownKeys b) ->
  includes excluded key = false -> isInternalField key = false ->
  Child a key x -> Child b key y ->
  Follows excluded x y (joinPath parentPath key) p f ->
  Follows excluded a b parentPath p f.
Proof.
  intros Hkey Hex Hint Hx Hy [segments [Hp [Hwalk Hf]]]. exists (Key key :: segments).
  split; [exact Hp|]. split; [now apply (walk_key _ a b x y)|].
  destruct Hf as [Hf|[before [own [Hsplit Hf]]]]; [now left|].
  right. exists (Key key :: before), own. split; [now rewrite Hsplit | exact Hf].
Qed.

Lemma Follows_index (excluded : list string) (a b : JsVal) (parentPath p f : string)
    (i : nat) :
  (i < Nat.max (size a) (size b))%nat ->
  Follows excluded (element a i) (element b i) (indexPath parentPath i) p f ->
  Follows excluded a b parentPath p f.
Proof.
  intros Hi [segments [Hp [Hwalk Hf]]]. exists (Index i :: segments).
  split; [exact Hp|]. split; [now apply walk_index|].
  destruct Hf as [Hf|[before [own [Hsplit Hf]]]]; [now left|].
  right. exists (Index i :: before), own. split; [now rewrite Hsplit | exact Hf].
Qed.

(** The change of a field that is not followed further. *)
Lemma Follows_field (excluded : list string) (a b x y : JsVal)
    (parentPath key : string) :
  In key (ownKeys a) \/ In key (ownKeys b) ->
  includes excluded key = false -> isInternalField key = false ->
  Child a key x -> Child b key y ->
  Follows excluded a b parentPath (joinPath parentPath key) key.
Proof.
  intros Hkey Hex Hint Hx Hy. exists [Key key]. split; [reflexivity|].
  split; [apply (walk_key _ a b x y); auto; constructor|].
  right. exists [], [Key key]. split; reflexivity.
Qed.

(** The change of an item that is not followed further. *)
Lemma Follows_item (excluded : list string) (a b : JsVal) (parentPath : string)
    (i : nat) :
  (i < Nat.max (size a) (size b))%nat ->
  Follows excluded a b parentPath (indexPath parentPath i) (indexPath parentPath i).
Proof.
  intros Hi. exists [Index i]. split; [reflexivity|].
  split; [apply walk_index; [assumption | constructor] | now left].
Qed.

Lemma flatten_paths (excluded : list string) (fuel : nat) :
  forall (obj : Doc) (parentPath : string) (it : FlatItem) (v : JsVal),
    Represents v obj ->
    In it (flattenObjectF fuel obj parentPath excluded) ->
    Follows excluded v JUndefined parentPath (flatPath it) (flatField it).
Proof.
  induction fuel as [|fuel IH]; intros obj parentPath it v Hv Hin; [contradiction|].
  destruct obj as [o|]; [|contradiction]. destruct Hv as [r0 ->].
  rewrite flattenObjectF_step in Hin. apply in_flat_map in Hin.
  destruct Hin as [[key value] [Hentry Hin]]. unfold flattenEntry in Hin.
  destruct (includes excluded key) eqn:Hex; [contradiction|].
  destruct (isInternalField key) eqn:Hint; [contradiction|].
  destruct (Child_entry r0 o key value Hentry) as [Hchild Hown].
  pose proof (Child_absent key) as Hnone.
  assert (Hkey : In key (ownKeys (JObj r0 o)) \/ In key (ownKeys JUndefined))
    by now left.
  cbv zeta in Hin.
  destruct value as [| |b|n|s|r|r|r|r t|r a|r o'];
    try (destruct Hin as [<-|[]]; cbn [flatPath flatField];
         eapply Follows_field; eassumption).
  - apply in_flat_map in Hin. destruct Hin as [index [Hindex Hin]].
    apply in_seq in Hindex.
    assert (Hbelow : (index < Nat.max (size (JArr r a)) (size JUndefined))%nat)
      by (cbn [size]; lia).
    destruct (item a index) as [| |b|n|s|r'|r'|r'|r' t|r' a'|r' o'] eqn:Hitem;
      try (destruct Hin as [<-|[]]; cbn [flatPath flatField];
           exists [Key key; Index index]; split; [reflexivity|];
           split;
           [apply (walk_key _ _ _ (JArr r a) JUndefined); auto;
            apply walk_index; [exact Hbelow | constructor]
           |right; exists [], [Key key; Index index]; split; reflexivity]).
    apply (Follows_key excluded _ _ (JArr r a) JUndefined parentPath key); auto.
    apply (Follows_index excluded _ _ _ _ _ index); [exact Hbelow|].
    cbn [element]. rewrite Hitem.
    apply (IH (Some o')); [now exists r' | exact Hin].
  - apply (Follows_key excluded _ _ (JObj r o') JUndefined parentPath key); auto.
    apply (IH (Some o')); [now exists r | exact Hin].
Qed.

Lemma compareArrays_paths (excluded : list string)
    (diff : Doc -> Doc -> list string -> string -> list FieldChange) :
  (forall o n parentPath c a b,
      Represents a o -> Represents b n ->
      In c (diff o n excluded parentPath) ->
      Follows excluded a b parentPath (path c) (field c)) ->
  forall oldArray newArray p c (ra rb : Ref),
    In c (compareArraysWith diff oldArray newArray p excluded) ->
    Follows excluded (JArr ra oldArray) (JArr rb newArray) p (path c) (field c).
Proof.
  intros Hdiff oldArray newArray p c ra rb Hin. unfold compareArraysWith in Hin.
  apply in_app_or in Hin. destruct Hin as [Hin|Hin].
  - destruct (Nat.eqb (List.length oldArray) (List.length newArray)) eqn:Hlen;
      [contradiction|].
    destruct Hin as [<-|[]]. cbn [path field]. exists [Length].
    split; [reflexivity|]. split; [|now left].
    apply walk_length; [reflexivity | reflexivity|]. cbn [size].
    now apply Nat.eqb_neq.
  - apply in_flat_map in Hin. destruct Hin as [i [Hi Hin]]. apply in_seq in Hi.
    assert (Hbelow : (i < Nat.max (size (JArr ra oldArray))
                                  (size (JArr rb newArray)))%nat)
      by (cbn [size]; lia).
    cbv zeta in Hin.
    destruct (negb (deepEqual _ _)); [|contradiction].
    destruct (item oldArray i) as [| |b|n|s|r|r|r|r t|r a|r o] eqn:Hold;
      try (destruct Hin as [<-|[]]; now apply Follows_item).
    destruct (item newArray i) as [| |b|n|s|r'|r'|r'|r' t|r' a|r' o'] eqn:Hnew;
      try (destruct Hin as [<-|[]]; now apply Follows_item).
    apply (Follows_index excluded _ _ _ _ _ i); [exact Hbelow|].
    cbn [element]. rewrite Hold, Hnew.
    apply (Hdiff (Some o) (Some o')); [now exists r | now exists r' | exact Hin].
Qed.

Lemma calculateDiff_paths (excluded : list string) (fuel : nat) :
  forall (oldDoc newDoc : Doc) (parentPath : string) (c : FieldChange) (a b : JsVal),
    Represents a oldDoc -> Represents b newDoc ->
    In c (calculateDiffF fuel oldDoc newDoc excluded parentPath) ->
    Follows excluded a b parentPath (path c) (field c).
Proof.
  induction fuel as [|fuel IH]; intros oldDoc newDoc parentPath c a b Ha Hb Hin;
    [contradiction|].
  destruct oldDoc as [o|], newDoc as [n|]; cbn [calculateDiffF] in Hin.
  - change (In c (calculateDiffF (S fuel) (Some o) (Some n) excluded parentPath)) in Hin.
    destruct Ha as [ra ->], Hb as [rb ->].
    rewrite calculateDiffF_step in Hin.
    apply in_flat_map in Hin. destruct Hin as [key [Hkey Hin]].
    apply newSet_In, in_app_or in Hkey. unfold diffKey in Hin.
    destruct (includes excluded key) eqn:Hex; [contradiction|].
    destruct (isInternalField key) eqn:Hint; [contradiction|].
    pose proof (Child_getField ra o key) as Hx.
    pose proof (Child_getField rb n key) as Hy.
    cbv zeta in Hin. destruct (negb (deepEqual _ _)); [|contradiction].
    destruct (getField o key) as [| |v|x|s|r|r|r|r t|r a1|r o'];
      try (destruct Hin as [<-|[]]; cbn [path field];
           eapply Follows_field; eassumption).
    + destruct (getField n key) as [| |v|x|s|r'|r'|r'|r' t|r' a2|r' n'];
        try (destruct Hin as [<-|[]]; cbn [path field];
             eapply Follows_field; eassumption).
      apply (Follows_key excluded (JObj ra o) (JObj rb n) (JArr r a1) (JArr r' a2)
               parentPath key); auto.
      eapply compareArrays_paths; [|exact Hin].
      intros o1 n1 p1 c1 x1 y1 Hx1 Hy1 H1. now apply (IH o1 n1).
    + destruct (getField n key) as [| |v|x|s|r'|r'|r'|r' t|r' a2|r' n'];
        try (destruct Hin as [<-|[]]; cbn [path field];
             eapply Follows_field; eassumption).
      apply (Follows_key excluded (JObj ra o) (JObj rb n) (JObj r o') (JObj r' n')
               parentPath key); auto.
      apply (IH (Some o') (Some n')); [now exists r | now exists r' | exact Hin].
  - apply in_map_iff in Hin. destruct Hin as [it [<- Hin]]. cbn [path field].
    unfold Represents in Hb. subst b. unfold flattenObject in Hin.
    exact (flatten_paths excluded _ (Some o) parentPath it a Ha Hin).
  - apply in_map_iff in Hin. destruct Hin as [it [<- Hin]]. cbn [path field].
    unfold Represents in Ha. subst a. apply Follows_swap. unfold flattenObject in Hin.
    exact (flatten_paths excluded _ (Some n) parentPath it b Hb Hin).
  - contradiction.
Qed.

(** C7, as stated, fails: with [length] among the excluded names, the change
    of an array's length has [length] as a segment of its path and field. *)
Lemma excluded_name_in_length_path :
  let c := mkChange "items.length" (JNum (Fin 3)) (JNum (Fin 2)) "items.length" in
  In c (calculateDiff (Some [("items"%string, JArr 1 [JNum (Fin 1); JNum (Fin 2); JNum (Fin 3)])])
                      (Some [("items"%string, JArr 2 [JNum (Fin 1); JNum (Fin 2)])])
                      ["length"%string])
  /\ In "length"%string (pathSegments (path c))
  /\ In "length"%string (pathSegments (field c))
  /\ includes ["length"%string] "length" = true.
Proof. vm_compute. repeat split; auto. Qed.

(** C7, amended.  The path of every change is spelled by segments that lead
    down the old and the new document side by side: every key segment is an
    own key of the object reached in one of the two documents and is neither
    excluded nor a Payload internal field, every index is an index of the
    longer array, and [.length] stands only for the lengths of two arrays
    that differ.  The field is spelled by the last of these segments. *)
Theorem paths_are_made_of_allowed_keys (oldDoc newDoc : Doc) (excluded : list string)
    (c : FieldChange)
    (Hin : In c (calculateDiff oldDoc newDoc excluded)) :
  exists segments before own,
    path c = render "" segments
    /\ Walk excluded (asValue oldDoc) (asValue newDoc) segments
    /\ segments = before ++ own
    /\ field c = render "" own
    /\ Forall (allowed excluded) segments
    /\ Forall (allowed excluded) own.
Proof.
  apply (calculateDiff_paths excluded _ oldDoc newDoc "" c
           (asValue oldDoc) (asValue newDoc)) in Hin.
  - destruct Hin as [segments [Hp [Hwalk Hf]]].
    pose proof (Walk_allowed _ _ _ _ Hwalk) as Hall.
    exists segments. destruct Hf as [Hf|[before [own [Hsplit Hf]]]].
    + exists [], segments. rewrite Hf. repeat split; assumption.
    + exists before, own. repeat split; try assumption.
      rewrite Hsplit in Hall. now apply Forall_app in Hall.
  - destruct oldDoc; [now exists 0%nat | reflexivity].
  - destruct newDoc; [now exists 0%nat | reflexivity].
Qed.

Lemma paths_are_made_of_allowed_keys_witness :
  let c := mkChange "enabled" (JBool true) (JBool false) "features[0].enabled" in
  In c (calculateDiff (Some featureOn) (Some featureOff) ["password"%string])
  /\ exists segments before own,
       path c = render "" segments
       /\ Walk ["password"%string] (asValue (Some featureOn)) (asValue (Some featureOff))
               segments
       /\ segments = before ++ own
       /\ field c = render "" own
       /\ Forall (allowed ["password"%string]) segments
       /\ Forall (allowed ["password"%string]) own.
Proof.
  cbv zeta.
  assert (Hin : In (mkChange "enabled" (JBool true) (JBool false) "features[0].enabled")
                   (calculateDiff (Some featureOn) (Some featureOff)
                                  ["password"%string]))
    by (vm_compute; left; reflexivity).
  split; [exact Hin|].
  exact (paths_are_made_of_allowed_keys _ _ _ _ Hin).
Defined.

(** No walk spells a key that is excluded, whatever follows it; and under
    an object whose only key is excluded there is no walk but the empty
    one. *)
Example no_walk_through_an_excluded_key :
  (forall (a b : JsVal) (rest : list Segment),
      ~ Walk ["password"%string] a b (Key "password" :: rest))
  /\ forall segments : list Segment,
       Walk ["password"%string]
            (asValue (Some [("password"%string, JObj 1 [("hash"%string, JNum (Fin 1))])]))
            (asValue (Some [("password"%string, JObj 2 [("hash"%string, JNum (Fin 2))])]))
            segments ->
       segments = [].
Proof.
  split.
  - intros a b rest Hwalk. inversion Hwalk; subst. discriminate.
  - intros segments Hwalk. inversion Hwalk as [| a b x y key rest Hkey Hex | a b i rest Hi
                                               | a b Ha]; subst.
    + reflexivity.
    + cbn in Hkey. destruct Hkey as [[<-|[]]|[<-|[]]]; discriminate.
    + cbn in Hi. lia.
    + discriminate.
Qed.

(** *** Depth *)

Lemma list_max_In (l : list nat) (x : nat) : In x l -> (x <= list_max l)%nat.
Proof.
  intros Hin. pose proof (list_max_le l (list_max l)) as [H _].
  specialize (H (Nat.le_refl _)). rewrite Forall_forall in H. now apply H.
Qed.

Lemma depth_getField (o : Fields) (key : string) :
  (depth (getField o key) <= depthFields o)%nat.
Proof.
  destruct (in_dec string_dec key (keys o)) as [Hin|Hnot].
  - apply getField_present in Hin. unfold depthFields. apply list_max_In.
    apply in_map_iff. exists (key, getField o key). auto.
  - rewrite getField_absent by assumption. simpl. lia.
Qed.

Lemma depth_item (a : list JsVal) (i : nat) :
  (depth (item a i) <= list_max (map depth a))%nat.
Proof.
  unfold item. destruct (Nat.lt_ge_cases i (List.length a)) as [Hlt|Hge].
  - apply list_max_In. apply in_map. now apply nth_In.
  - rewrite nth_overflow by assumption. simpl. lia.
Qed.

Lemma regular_getField (r : Ref) (o : Fields) (key : string) :
  regular (JObj r o) = true -> regular (getField o key) = true.
Proof.
  cbn [regular]. intros H. apply andb_prop in H. destruct H as [_ H].
  rewrite forallb_forall in H.
  destruct (in_dec string_dec key (keys o)) as [Hin|Hnot].
  - apply getField_present in Hin. apply H in Hin. cbn [snd] in Hin.
    now apply andb_prop in Hin.
  - now rewrite getField_absent.
Qed.

Lemma regular_defined (r : Ref) (o : Fields) (key : string) :
  regular (JObj r o) = true -> In key (keys o) -> getField o key <> JUndefined.
Proof.
  cbn [regular]. intros H Hin. apply andb_prop in H. destruct H as [_ H].
  rewrite forallb_forall in H. apply getField_present in Hin. apply H in Hin.
  cbn [snd] in Hin. apply andb_prop in Hin. destruct Hin as [Hdef _].
  intros Heq. rewrite Heq in Hdef. discriminate.
Qed.

Lemma regular_keys (r : Ref) (o : Fields) :
  regular (JObj r o) = true -> NoDup (keys o).
Proof.
  cbn [regular]. intros H. apply andb_prop in H. destruct H as [H _].
  now apply distinct_NoDup.
Qed.

Lemma regular_item (r : Ref) (a : list JsVal) (i : nat) :
  regular (JArr r a) = true -> regular (item a i) = true.
Proof.
  cbn [regular]. intros H. rewrite forallb_forall in H. unfold item.
  destruct (Nat.lt_ge_cases i (List.length a)) as [Hlt|Hge].
  - apply H. now apply nth_In.
  - now rewrite nth_overflow.
Qed.

(** *** Deep equality *)

Lemma forallb_ext_in {A : Type} (f g : A -> bool) (l : list A) :
  (forall x, In x l -> f x = g x) -> forallb f l = forallb g l.
Proof.
  induction l as [|x rest IH]; intros H; [reflexivity|]. cbn [forallb].
  rewrite (H x) by now left. f_equal. apply IH. intros y Hy. apply H. now right.
Qed.

Lemma deepEqual_objects (r1 r2 : Ref) (o1 o2 : Fields) :
  deepEqual (JObj r1 o1) (JObj r2 o2) =
  Nat.eqb r1 r2
  || (Nat.eqb (List.length o1) (List.length o2)
      && forallb (fun kv : string * JsVal => deepEqual (snd kv) (getField o2 (fst kv))) o1).
Proof.
  cbn [deepEqual strictEq isNullish orb]. unfold keys. rewrite !length_map.
  destruct (Nat.eqb r1 r2); [reflexivity|]. cbn [orb].
  destruct (Nat.eqb (List.length o1) (List.length o2)); [|reflexivity].
  cbn [negb andb]. induction o1 as [|[k v] rest IH]; [reflexivity|].
  cbn [forallb fst snd]. now rewrite <- IH.
Qed.

Lemma every_item (a2 : list JsVal) (l : list JsVal) :
  forall index : nat,
    (fix every (l : list JsVal) (index : nat) {struct l} : bool :=
       match l with
       | [] => true
       | x :: rest => deepEqual x (item a2 index) && every rest (S index)
       end) l index
    = forallb (fun i => deepEqual (item l (i - index)) (item a2 i))
              (seq index (List.length l)).
Proof.
  induction l as [|x rest IH]; intros index; [reflexivity|].
  cbn [List.length seq forallb]. rewrite Nat.sub_diag. cbn [item nth].
  f_equal. rewrite IH. apply forallb_ext_in. intros i Hi. apply in_seq in Hi.
  unfold item. replace (i - index)%nat with (S (i - S index)) by lia. reflexivity.
Qed.

Lemma deepEqual_arrays (r1 r2 : Ref) (a1 a2 : list JsVal) :
  deepEqual (JArr r1 a1) (JArr r2 a2) =
  Nat.eqb r1 r2
  || (Nat.eqb (List.length a1) (List.length a2)
      && forallb (fun i => deepEqual (item a1 i) (item a2 i)) (seq 0 (List.length a1))).
Proof.
  cbn [deepEqual strictEq isNullish orb].
  destruct (Nat.eqb r1 r2); [reflexivity|]. cbn [orb].
  destruct (Nat.eqb (List.length a1) (List.length a2)); [|reflexivity].
  cbn [negb andb]. rewrite every_item. apply forallb_ext_in.
  intros i _. now rewrite Nat.sub_0_r.
Qed.

Lemma strictEq_sym (a b : JsVal) : strictEq a b = strictEq b a.
Proof.
  destruct a as [| |x|x|x|x|x|x|x ?|x ?|x ?], b as [| |y|y|y|y|y|y|y ?|y ?|y ?];
    cbn [strictEq]; try reflexivity; try apply Nat.eqb_sym.
  - now destruct x, y.
  - destruct x, y; cbn [numEq]; try reflexivity. apply Z.eqb_sym.
  - apply String.eqb_sym.
Qed.

Lemma deepEqual_undefined_r (v : JsVal) :
  deepEqual v JUndefined = true -> v = JUndefined.
Proof.
  destruct v; cbn [deepEqual strictEq isNullish orb]; try discriminate; auto.
  all: intros H; exfalso; revert H; rewrite ?orb_true_r; discriminate.
Qed.

Lemma deepEqual_undefined_l (v : JsVal) :
  deepEqual JUndefined v = true -> v = JUndefined.
Proof.
  destruct v; cbn [deepEqual strictEq isNullish orb]; try discriminate; auto.
Qed.

Lemma deepEqual_sym_flat (a b : JsVal) :
  isArray a && isArray b = false ->
  isPlainObject a && isPlainObject b = false ->
  deepEqual a b = deepEqual b a.
Proof.
  destruct a as [| |x|x|x|x|x|x|x ?|x ?|x ?], b as [| |y|y|y|y|y|y|y ?|y ?|y ?];
    cbn [isArray isPlainObject andb]; try discriminate; intros _ _;
    cbn [deepEqual strictEq isNullish orb]; try reflexivity;
    try (rewrite (Nat.eqb_sym x y); try rewrite (Z.eqb_sym time time0); reflexivity).
  - now destruct x, y.
  - destruct x, y; cbn [numEq]; try reflexivity. now rewrite Z.eqb_sym.
  - now rewrite String.eqb_sym.
Qed.

Lemma keys_length (o : Fields) : List.length (keys o) = List.length o.
Proof. apply length_map. Qed.

(** The entries of [o1] are deep-equal to the fields of [o2] of the same
    name: then the keys of [o1] are keys of [o2]. *)
Lemma entries_equal_keys (r1 : Ref) (o1 o2 : Fields) :
  regular (JObj r1 o1) = true ->
  forallb (fun kv : string * JsVal => deepEqual (snd kv) (getField o2 (fst kv))) o1 = true ->
  incl (keys o1) (keys o2).
Proof.
  intros Hreg Hall key Hin. rewrite forallb_forall in Hall.
  destruct (in_dec string_dec key (keys o2)) as [Hin2|Hnot]; [assumption|].
  exfalso. apply (regular_defined r1 o1 key Hreg Hin).
  apply getField_present in Hin. apply Hall in Hin. cbn [fst snd] in Hin.
  rewrite (getField_absent o2 key Hnot) in Hin. now apply deepEqual_undefined_r.
Qed.

Lemma same_keys (o1 o2 : Fields) :
  NoDup (keys o1) -> List.length o1 = List.length o2 ->
  incl (keys o1) (keys o2) -> incl (keys o2) (keys o1).
Proof.
  intros Hnd Hlen Hincl. apply NoDup_length_incl; try assumption.
  rewrite !keys_length. lia.
Qed.

Lemma entries_equal_fields (o1 o2 : Fields) :
  NoDup (keys o1) ->
  (forallb (fun kv : string * JsVal => deepEqual (snd kv) (getField o2 (fst kv))) o1 = true
   <-> forall key, In key (keys o1) ->
                   deepEqual (getField o1 key) (getField o2 key) = true).
Proof.
  intros Hnd. rewrite forallb_forall. split.
  - intros H key Hin. apply getField_present in Hin. now apply H in Hin.
  - intros H [k v] Hin. cbn [fst snd].
    rewrite <- (getField_entry o1 k v Hnd Hin). apply H.
    change (In (fst (k, v)) (map fst o1)). now apply in_map.
Qed.

(** On regular values, deep equality does not depend on the side. *)
Lemma deepEqual_sym (n : nat) :
  forall a b : JsVal,
    (depth a <= n)%nat -> regular a = true -> regular b = true ->
    deepEqual a b = deepEqual b a.
Proof.
  induction n as [|n IH]; intros a b Hdepth Ha Hb.
  - apply deepEqual_sym_flat; destruct a; try reflexivity; cbn [depth] in Hdepth; lia.
  - destruct a as [| |x|x|x|x|x|x|x ?|r1 a1|r1 o1];
      try (apply deepEqual_sym_flat; reflexivity).
    + destruct b as [| |y|y|y|y|y|y|y ?|r2 a2|r2 o2];
        try (apply deepEqual_sym_flat; reflexivity).
      rewrite !deepEqual_arrays, (Nat.eqb_sym r2 r1),
        (Nat.eqb_sym (List.length a2) (List.length a1)).
      destruct (Nat.eqb r1 r2); [reflexivity|]. cbn [orb].
      destruct (Nat.eqb (List.length a1) (List.length a2)) eqn:Hlen; [|reflexivity].
      apply Nat.eqb_eq in Hlen. cbn [andb]. rewrite <- Hlen.
      apply forallb_ext_in. intros i _. apply IH.
      * pose proof (depth_item a1 i). cbn [depth] in Hdepth. lia.
      * now apply (regular_item r1).
      * now apply (regular_item r2).
    + destruct b as [| |y|y|y|y|y|y|y ?|r2 a2|r2 o2];
        try (apply deepEqual_sym_flat; reflexivity).
      rewrite !deepEqual_objects, (Nat.eqb_sym r2 r1),
        (Nat.eqb_sym (List.length o2) (List.length o1)).
      destruct (Nat.eqb r1 r2); [reflexivity|]. cbn [orb].
      destruct (Nat.eqb (List.length o1) (List.length o2)) eqn:Hlen; [|reflexivity].
      apply Nat.eqb_eq in Hlen. cbn [andb].
      pose proof (regular_keys r1 o1 Ha) as Hnd1.
      pose proof (regular_keys r2 o2 Hb) as Hnd2.
      assert (Hfield : forall key,
                 deepEqual (getField o1 key) (getField o2 key)
                 = deepEqual (getField o2 key) (getField o1 key)).
      { intros key. apply IH.
        - pose proof (depth_getField o1 key). cbn [depth] in Hdepth.
          unfold depthFields in *. lia.
        - now apply (regular_getField r1).
        - now apply (regular_getField r2). }
      apply Bool.eq_iff_eq_true. split; intros Hall.
      * pose proof (entries_equal_keys r1 o1 o2 Ha Hall) as H12.
        pose proof (same_keys o1 o2 Hnd1 Hlen H12) as H21.
        apply (entries_equal_fields o2 o1 Hnd2). intros key Hin.
        rewrite <- Hfield. apply (entries_equal_fields o1 o2 Hnd1); auto.
      * pose proof (entries_equal_keys r2 o2 o1 Hb Hall) as H21.
        pose proof (same_keys o2 o1 Hnd2 (eq_sym Hlen) H21) as H12.
        apply (entries_equal_fields o1 o2 Hnd1). intros key Hin.
        rewrite Hfield. apply (entries_equal_fields o2 o1 Hnd2); auto.
Qed.

(** *** The diff read backwards *)



Lemma deepEqual_swap (a b : JsVal) :
  regular a = true -> regular b = true -> deepEqual a b = deepEqual b a.
Proof. intros. now apply (deepEqual_sym (depth a)). Qed.



(** *** An empty diff *)














(** *** Enough fuel *)

Lemma flattenObjectF_fuel (excluded : list string) (n : nat) :
  forall (m : nat) (obj : Doc) (parentPath : string),
    (depthDoc obj < n)%nat -> (depthDoc obj < m)%nat ->
    flattenObjectF n obj parentPath excluded = flattenObjectF m obj parentPath excluded.
Proof.
  induction n as [|n IH]; intros m obj parentPath Hn Hm; [lia|].
  destruct m as [|m]; [lia|]. destruct obj as [o|]; [|reflexivity].
  rewrite !flattenObjectF_step. cbn [depthDoc] in Hn, Hm.
  induction o as [|[key value] rest IHo]; [reflexivity|].
  cbn [flat_map]. unfold depthFields, list_max in *.
  cbn [map snd fold_right] in Hn, Hm.
  f_equal; [|apply IHo; lia].
  unfold flattenEntry. destruct (includes excluded key); [reflexivity|].
  destruct (isInternalField key); [reflexivity|]. cbv zeta.
  destruct value as [| |b|x|s|r|r|r|r t|r a|r o']; try reflexivity.
  - apply flat_map_ext. intros index. cbv zeta.
    pose proof (depth_item a index) as Hd.
    destruct (item a index) as [| |b|x|s|r'|r'|r'|r' t|r' a'|r' o']; try reflexivity.
    apply IH; cbn [depthDoc depth] in *; unfold depthFields, list_max in *; lia.
  - apply IH; cbn [depthDoc depth] in *; unfold depthFields, list_max in *; lia.
Qed.

Lemma compareArraysWith_ext
    (f g : Doc -> Doc -> list string -> string -> list FieldChange)
    (a1 a2 : list JsVal) (p : string) (excluded : list string) :
  (forall i r o' n' q,
      item a1 i = JObj r o' ->
      f (Some o') (Some n') excluded q = g (Some o') (Some n') excluded q) ->
  compareArraysWith f a1 a2 p excluded = compareArraysWith g a1 a2 p excluded.
Proof.
  intros Hfg. unfold compareArraysWith. f_equal. apply flat_map_ext. intros i.
  cbv zeta. destruct (negb (deepEqual _ _)); [|reflexivity].
  destruct (item a1 i) as [| |b|x|s|r|r|r|r t|r a|r o'] eqn:E; try reflexivity.
  destruct (item a2 i); try reflexivity. now apply (Hfg i r).
Qed.

(** With more fuel than the old document is deep, the result of
    [calculateDiffF] does not depend on the fuel. *)
Lemma calculateDiffF_fuel (excluded : list string) (n : nat) :
  forall (m : nat) (oldDoc newDoc : Doc) (parentPath : string),
    (depthDoc oldDoc < n)%nat -> (depthDoc oldDoc < m)%nat ->
    calculateDiffF n oldDoc newDoc excluded parentPath
    = calculateDiffF m oldDoc newDoc excluded parentPath.
Proof.
  induction n as [|n IH]; intros m oldDoc newDoc parentPath Hn Hm; [lia|].
  destruct m as [|m]; [lia|].
  destruct oldDoc as [o|], newDoc as [nw|]; try reflexivity.
  rewrite !calculateDiffF_step. apply flat_map_ext. intros key. unfold diffKey.
  destruct (includes excluded key); [reflexivity|].
  destruct (isInternalField key); [reflexivity|]. cbv zeta.
  destruct (negb (deepEqual _ _)); [|reflexivity].
  pose proof (depth_getField o key) as Hd. cbn [depthDoc] in Hn, Hm.
  destruct (getField o key) as [| |b|x|s|r|r|r|r t|r a|r o']; try reflexivity.
  - destruct (getField nw key); try reflexivity.
    apply compareArraysWith_ext. intros i r' o'' n'' q Hitem.
    pose proof (depth_item a i) as Hi. rewrite Hitem in Hi.
    apply IH; cbn [depthDoc depth] in *; unfold depthFields in *; lia.
  - destruct (getField nw key); try reflexivity.
    apply IH; cbn [depthDoc depth] in *; unfold depthFields in *; lia.
Qed.

(** [calculateDiff] is [calculateDiffF] with any fuel that is enough. *)
Lemma calculateDiff_enough_fuel (fuel : nat) (oldDoc newDoc : Doc)
    (excluded : list string) :
  (depthDoc oldDoc < fuel)%nat ->
  calculateDiffF fuel oldDoc newDoc excluded "" = calculateDiff oldDoc newDoc excluded.
Proof.
  intros Hfuel. unfold calculateDiff, diffFuel. apply calculateDiffF_fuel; lia.
Qed.

(** *** Documents that differ *)




(** The two directions on [draftPost] and [revisedPost]. *)
Example diff_both_ways :
  map (fun c => (path c, oldValue c, newValue c))
      (calculateDiff (Some draftPost) (Some revisedPost) [])
  = [("title", JStr "Title", JStr "New Title");
     ("meta.tags.length", JNum (Fin 2), JNum (Fin 3));
     ("meta.tags[1]", JStr "tag2", JStr "tag3");
     ("meta.tags[2]", JNull, JStr "tag4");
     ("status", JNull, JStr "published")]%string
  /\ map (fun c => (path c, oldValue c, newValue c))
         (calculateDiff (Some revisedPost) (Some draftPost) [])
     = [("title", JStr "New Title", JStr "Title");
        ("meta.tags.length", JNum (Fin 3), JNum (Fin 2));
        ("meta.tags[1]", JStr "tag3", JStr "tag2");
        ("meta.tags[2]", JStr "tag4", JNull);
        ("status", JStr "published", JNull)]%string.
Proof. vm_compute. split; reflexivity. Qed.

(** ** Further properties of the diff engine *)

Lemma serializeValue_storable (v : JsVal) : storable (serializeValue v) = true.
Proof.
  destruct v as [| |b|n|s|r|r|r|r t|r a|r o]; cbn [serializeValue storable];
    try reflexivity.
  - destruct (100 <? List.length a)%nat eqn:E; [reflexivity|].
    cbn [storable]. apply Nat.leb_le. apply Nat.ltb_ge in E. exact E.
  - unfold keys. rewrite length_map.
    destruct (50 <? List.length o)%nat eqn:E; [reflexivity|].
    cbn [storable]. apply Nat.leb_le. apply Nat.ltb_ge in E. exact E.
Qed.

Lemma serializeValue_fixes_storable (v : JsVal) :
  storable v = true -> serializeValue v = v.
Proof.
  destruct v as [| |b|n|s|r|r|r|r t|r a|r o]; cbn [serializeValue storable];
    try reflexivity; try discriminate; intros Hv; apply Nat.leb_le in Hv.
  - destruct (100 <? List.length a)%nat eqn:E; [|reflexivity].
    apply Nat.ltb_lt in E. lia.
  - unfold keys. rewrite length_map.
    destruct (50 <? List.length o)%nat eqn:E; [|reflexivity].
    apply Nat.ltb_lt in E. lia.
Qed.

Lemma flatten_values (excluded : list string) (fuel : nat) :
  forall (obj : Doc) (parentPath : string) (it : FlatItem),
    In it (flattenObjectF fuel obj parentPath excluded) ->
    storable (flatValue it) = true.
Proof.
  induction fuel as [|fuel IH]; intros obj parentPath it Hin; [contradiction|].
  destruct obj as [o|]; [|contradiction].
  rewrite flattenObjectF_step in Hin. apply in_flat_map in Hin.
  destruct Hin as [[key value] [_ Hin]]. unfold flattenEntry in Hin.
  destruct (includes excluded key); [contradiction|].
  destruct (isInternalField key); [contradiction|]. cbv zeta in Hin.
  destruct value as [| |b|n|s|r|r|r|r t|r a|r o'];
    try (destruct Hin as [<-|[]]; apply serializeValue_storable).
  - apply in_flat_map in Hin. destruct Hin as [index [_ Hin]].
    destruct (item a index) as [| |b|n|s|r'|r'|r'|r' t|r' a'|r' o'] eqn:E;
      try (destruct Hin as [<-|[]]; cbn [flatValue]; rewrite <- E;
           apply serializeValue_storable).
    now apply IH in Hin.
  - now apply IH in Hin.
Qed.

Lemma compareArrays_values (excluded : list string)
    (diff : Doc -> Doc -> list string -> string -> list FieldChange) :
  (forall o n parentPath c,
      In c (diff o n excluded parentPath) ->
      storable (oldValue c) = true /\ storable (newValue c) = true) ->
  forall oldArray newArray p c,
    In c (compareArraysWith diff oldArray newArray p excluded) ->
    storable (oldValue c) = true /\ storable (newValue c) = true.
Proof.
  intros Hdiff oldArray newArray p c Hin. unfold compareArraysWith in Hin.
  apply in_app_or in Hin. destruct Hin as [Hin|Hin].
  - destruct (negb _); [|contradiction]. destruct Hin as [<-|[]]. split; reflexivity.
  - apply in_flat_map in Hin. destruct Hin as [i [_ Hin]]. cbv zeta in Hin.
    destruct (negb (deepEqual _ _)); [|contradiction].
    destruct (item oldArray i) as [| |b|n|s|r|r|r|r t|r a|r o] eqn:E1;
      try (destruct Hin as [<-|[]]; cbn [oldValue newValue]; rewrite <- E1;
           split; apply serializeValue_storable).
    destruct (item newArray i) as [| |b|n|s|r'|r'|r'|r' t|r' a|r' o'] eqn:E2;
      try (destruct Hin as [<-|[]]; cbn [oldValue newValue]; rewrite <- E1, <- E2;
           split; apply serializeValue_storable).
    now apply Hdiff in Hin.
Qed.

Lemma calculateDiff_values (excluded : list string) (fuel : nat) :
  forall (oldDoc newDoc : Doc) (parentPath : string) (c : FieldChange),
    In c (calculateDiffF fuel oldDoc newDoc excluded parentPath) ->
    storable (oldValue c) = true /\ storable (newValue c) = true.
Proof.
  induction fuel as [|fuel IH]; intros oldDoc newDoc parentPath c Hin;
    [contradiction|].
  destruct oldDoc as [o|], newDoc as [n|]; cbn [calculateDiffF] in Hin.
  - change (In c (calculateDiffF (S fuel) (Some o) (Some n) excluded parentPath)) in Hin.
    rewrite calculateDiffF_step in Hin.
    apply in_flat_map in Hin. destruct Hin as [key [_ Hin]]. unfold diffKey in Hin.
    destruct (includes excluded key); [contradiction|].
    destruct (isInternalField key); [contradiction|].
    cbv zeta in Hin. destruct (negb (deepEqual _ _)); [|contradiction].
    destruct (getField o key) as [| |b|x|s|r|r|r|r t|r a|r o'] eqn:E1;
      try (destruct Hin as [<-|[]]; cbn [oldValue newValue]; rewrite <- E1;
           split; apply serializeValue_storable).
    + destruct (getField n key) as [| |b|x|s|r'|r'|r'|r' t|r' a'|r' n'] eqn:E2;
        try (destruct Hin as [<-|[]]; cbn [oldValue newValue]; rewrite <- E1, <- E2;
             split; apply serializeValue_storable).
      eapply compareArrays_values; [|exact Hin].
      intros o1 n1 p1 c1 H1. now apply IH in H1.
    + destruct (getField n key) as [| |b|x|s|r'|r'|r'|r' t|r' a'|r' n'] eqn:E2;
        try (destruct Hin as [<-|[]]; cbn [oldValue newValue]; rewrite <- E1, <- E2;
             split; apply serializeValue_storable).
      now apply IH in Hin.
  - apply in_map_iff in Hin. destruct Hin as [it [<- Hin]].
    apply flatten_values in Hin. cbn [oldValue newValue]. now split.
  - apply in_map_iff in Hin. destruct Hin as [it [<- Hin]].
    apply flatten_values in Hin. cbn [oldValue newValue]. now split.
  - contradiction.
Qed.

(** X1.  For documents whose objects have no own key [constructor], so that
    they are plain objects for the source: no change of a diff holds
    [undefined], a [Date], a function or a symbol as old or new value, nor a
    plain object of more than 50 keys or an array of more than 100 items; and
    serializing such a value again gives the same value. *)
Theorem changes_hold_storable_values (oldDoc newDoc : Doc) (excluded : list string)
    (c : FieldChange)
    (Hold : plainDoc oldDoc = true)
    (Hnew : plainDoc newDoc = true)
    (Hin : In c (calculateDiff oldDoc newDoc excluded)) :
  storable (oldValue c) = true /\ storable (newValue c) = true
  /\ serializeValue (oldValue c) = oldValue c
  /\ serializeValue (newValue c) = newValue c.
Proof.
  apply calculateDiff_values in Hin. destruct Hin as [Hold' Hnew'].
  repeat split; try assumption; now apply serializeValue_fixes_storable.
Qed.

Lemma changes_hold_storable_values_witness :
  let c := mkChange "publishDate" (JStr "2025-01-01T00:00:00.000Z") JNull "publishDate" in
  plainDoc (Some [("publishDate"%string, JDate 1 1735689600000)]) = true
  /\ plainDoc (Some [("publishDate"%string, JUndefined)]) = true
  /\ In c (calculateDiff (Some [("publishDate", JDate 1 1735689600000)])
                         (Some [("publishDate", JUndefined)]) [])%string
  /\ storable (oldValue c) = true /\ storable (newValue c) = true
  /\ serializeValue (oldValue c) = oldValue c
  /\ serializeValue (newValue c) = newValue c.
Proof.
  cbv zeta.
  assert (Hold : plainDoc (Some [("publishDate"%string, JDate 1 1735689600000)]) = true)
    by (vm_compute; reflexivity).
  assert (Hnew : plainDoc (Some [("publishDate"%string, JUndefined)]) = true)
    by (vm_compute; reflexivity).
  assert (Hin : In (mkChange "publishDate" (JStr "2025-01-01T00:00:00.000Z") JNull
                             "publishDate")
                   (calculateDiff (Some [("publishDate", JDate 1 1735689600000)])
                                  (Some [("publishDate", JUndefined)]) [])%string)
    by (vm_compute; left; reflexivity).
  split; [exact Hold|]. split; [exact Hnew|]. split; [exact Hin|].
  exact (changes_hold_storable_values _ _ _ _ Hold Hnew Hin).
Defined.

Lemma removed_values_are_null (X : Fields) (excluded : list string) :
  Forall (fun c => newValue c = JNull) (calculateDiff (Some X) None excluded).
Proof.
  unfold calculateDiff, diffFuel. cbn [calculateDiffF].
  apply Forall_forall. intros c Hin. apply in_map_iff in Hin.
  now destruct Hin as [it [<- _]].
Qed.

(** X2.  The diff of nothing with a document has [null] as every old value,
    the diff of a document with nothing is the same list with old and new
    values swapped, in the same order, and the diff of nothing with nothing
    is empty. *)
Theorem diff_against_nothing (X : Fields) (excluded : list string) :
  Forall (fun c => oldValue c = JNull) (calculateDiff None (Some X) excluded)
  /\ Forall (fun c => newValue c = JNull) (calculateDiff (Some X) None excluded)
  /\ calculateDiff (Some X) None excluded
     = map swap (calculateDiff None (Some X) excluded)
  /\ map path (calculateDiff (Some X) None excluded)
     = map path (calculateDiff None (Some X) excluded)
  /\ calculateDiff None None excluded = [].
Proof.
  unfold calculateDiff, diffFuel. cbn [calculateDiffF].
  split; [|split; [|split; [|split]]].
  - apply Forall_forall. intros c Hin. apply in_map_iff in Hin.
    now destruct Hin as [it [<- _]].
  - apply (removed_values_are_null X excluded).
  - rewrite map_map. reflexivity.
  - rewrite !map_map. reflexivity.
  - reflexivity.
Qed.

(** X3.  The diff of nothing with a document records every field of the
    document that is looked at and holds neither an object nor an array, under
    its own name, with [null] as old value and the serialized value as new
    value. *)
Theorem created_fields_are_recorded (X : Fields) (excluded : list string)
    (key : string) (v : JsVal)
    (Hfield : In (key, v) X)
    (Htracked : tracked excluded key = true)
    (Hleaf : isLeaf v = true) :
  In (mkChange key JNull (serializeValue v) key)
     (calculateDiff None (Some X) excluded).
Proof.
  unfold calculateDiff, diffFuel. cbn [calculateDiffF].
  apply in_map_iff. exists (mkFlat key (serializeValue v) key). split; [reflexivity|].
  unfold flattenObject. rewrite flattenObjectF_step. apply in_flat_map.
  exists (key, v). split; [assumption|]. unfold flattenEntry.
  unfold tracked in Htracked. apply andb_prop in Htracked.
  destruct Htracked as [Hex Hint]. apply negb_true_iff in Hex, Hint.
  rewrite Hex, Hint. cbv zeta. unfold joinPath. cbn [String.eqb].
  destruct v; try discriminate; left; reflexivity.
Qed.

Lemma created_fields_are_recorded_witness :
  In ("title"%string, JStr "Original Title") blogPost
  /\ tracked ["password"%string] "title" = true
  /\ isLeaf (JStr "Original Title") = true
  /\ In (mkChange "title" JNull (serializeValue (JStr "Original Title")) "title")
        (calculateDiff None (Some blogPost) ["password"%string]).
Proof.
  assert (Hfield : In ("title"%string, JStr "Original Title") blogPost)
    by (right; left; reflexivity).
  assert (Htracked : tracked ["password"%string] "title" = true)
    by (vm_compute; reflexivity).
  assert (Hleaf : isLeaf (JStr "Original Title") = true) by reflexivity.
  split; [assumption|]. split; [assumption|]. split; [assumption|].
  exact (created_fields_are_recorded blogPost ["password"%string] "title"
           (JStr "Original Title") Hfield Htracked Hleaf).
Defined.

(** *** The field of a change ends its path *)

Lemma append_assoc (a b c : string) :
  String.append (String.append a b) c = String.append a (String.append b c).
Proof. induction a as [|x a IH]; cbn [String.append]; [reflexivity | now rewrite IH]. Qed.

Lemma EndsWith_refl (p : string) : EndsWith p p.
Proof. now exists EmptyString. Qed.

Lemma EndsWith_key (parentPath key : string) : EndsWith key (joinPath parentPath key).
Proof.
  unfold joinPath. destruct (String.eqb parentPath ""); [apply EndsWith_refl|].
  exists (String.append parentPath "."). now rewrite append_assoc.
Qed.

Lemma EndsWith_index (f p : string) (i : nat) :
  EndsWith f p -> EndsWith (indexPath f i) (indexPath p i).
Proof.
  intros [pre ->]. exists pre. unfold indexPath. now rewrite append_assoc.
Qed.

Lemma flatten_fields (excluded : list string) (fuel : nat) :
  forall (obj : Doc) (parentPath : string) (it : FlatItem),
    In it (flattenObjectF fuel obj parentPath excluded) ->
    EndsWith (flatField it) (flatPath it).
Proof.
  induction fuel as [|fuel IH]; intros obj parentPath it Hin; [contradiction|].
  destruct obj as [o|]; [|contradiction].
  rewrite flattenObjectF_step in Hin. apply in_flat_map in Hin.
  destruct Hin as [[key value] [_ Hin]]. unfold flattenEntry in Hin.
  destruct (includes excluded key); [contradiction|].
  destruct (isInternalField key); [contradiction|]. cbv zeta in Hin.
  destruct value as [| |b|n|s|r|r|r|r t|r a|r o'];
    try (destruct Hin as [<-|[]]; apply EndsWith_key).
  - apply in_flat_map in Hin. destruct Hin as [index [_ Hin]].
    destruct (item a index) as [| |b|n|s|r'|r'|r'|r' t|r' a'|r' o'];
      try (destruct Hin as [<-|[]]; cbn [flatField flatPath];
           apply EndsWith_index, EndsWith_key).
    now apply IH in Hin.
  - now apply IH in Hin.
Qed.

Lemma compareArrays_fields (excluded : list string)
    (diff : Doc -> Doc -> list string -> string -> list FieldChange) :
  (forall o n parentPath c,
      In c (diff o n excluded parentPath) -> EndsWith (field c) (path c)) ->
  forall oldArray newArray p c,
    In c (compareArraysWith diff oldArray newArray p excluded) ->
    EndsWith (field c) (path c).
Proof.
  intros Hdiff oldArray newArray p c Hin. unfold compareArraysWith in Hin.
  apply in_app_or in Hin. destruct Hin as [Hin|Hin].
  - destruct (negb _); [|contradiction]. destruct Hin as [<-|[]]. apply EndsWith_refl.
  - apply in_flat_map in Hin. destruct Hin as [i [_ Hin]]. cbv zeta in Hin.
    destruct (negb (deepEqual _ _)); [|contradiction].
    destruct (item oldArray i) as [| |b|n|s|r|r|r|r t|r a|r o];
      try (destruct Hin as [<-|[]]; apply EndsWith_refl).
    destruct (item newArray i) as [| |b|n|s|r'|r'|r'|r' t|r' a|r' o'];
      try (destruct Hin as [<-|[]]; apply EndsWith_refl).
    now apply Hdiff in Hin.
Qed.

Lemma calculateDiff_fields (excluded : list string) (fuel : nat) :
  forall (oldDoc newDoc : Doc) (parentPath : string) (c : FieldChange),
    In c (calculateDiffF fuel oldDoc newDoc excluded parentPath) ->
    EndsWith (field c) (path c).
Proof.
  induction fuel as [|fuel IH]; intros oldDoc newDoc parentPath c Hin;
    [contradiction|].
  destruct oldDoc as [o|], newDoc as [n|]; cbn [calculateDiffF] in Hin.
  - change (In c (calculateDiffF (S fuel) (Some o) (Some n) excluded parentPath)) in Hin.
    rewrite calculateDiffF_step in Hin.
    apply in_flat_map in Hin. destruct Hin as [key [_ Hin]]. unfold diffKey in Hin.
    destruct (includes excluded key); [contradiction|].
    destruct (isInternalField key); [contradiction|].
    cbv zeta in Hin. destruct (negb (deepEqual _ _)); [|contradiction].
    destruct (getField o key) as [| |b|x|s|r|r|r|r t|r a|r o'];
      try (destruct Hin as [<-|[]]; apply EndsWith_key).
    + destruct (getField n key) as [| |b|x|s|r'|r'|r'|r' t|r' a'|r' n'];
        try (destruct Hin as [<-|[]]; apply EndsWith_key).
      eapply compareArrays_fields; [|exact Hin].
      intros o1 n1 p1 c1 H1. now apply IH in H1.
    + destruct (getField n key) as [| |b|x|s|r'|r'|r'|r' t|r' a'|r' n'];
        try (destruct Hin as [<-|[]]; apply EndsWith_key).
      now apply IH in Hin.
  - apply in_map_iff in Hin. destruct Hin as [it [<- Hin]].
    now apply flatten_fields in Hin.
  - apply in_map_iff in Hin. destruct Hin as [it [<- Hin]].
    now apply flatten_fields in Hin.
  - contradiction.
Qed.

(** X4.  In every change of a diff, the path ends with the field. *)
Theorem path_ends_with_field (oldDoc newDoc : Doc) (excluded : list string)
    (c : FieldChange)
    (Hin : In c (calculateDiff oldDoc newDoc excluded)) :
  exists pre : string, path c = String.append pre (field c).
Proof. now apply calculateDiff_fields in Hin. Qed.

Lemma path_ends_with_field_witness :
  let c := mkChange "tags[0]" JNull (JStr "tag1") "meta.tags[0]" in
  In c (calculateDiff None
          (Some [("meta", JObj 1 [("tags", JArr 2 [JStr "tag1"])])]) [])%string
  /\ exists pre : string, path c = String.append pre (field c).
Proof.
  cbv zeta.
  assert (Hin : In (mkChange "tags[0]" JNull (JStr "tag1") "meta.tags[0]")
                   (calculateDiff None
                      (Some [("meta", JObj 1 [("tags", JArr 2 [JStr "tag1"])])]) [])%string)
    by (vm_compute; left; reflexivity).
  split; [exact Hin|].
  exact (path_ends_with_field _ _ _ _ Hin).
Defined.

(** X5.  On values whose objects hold no [undefined] field and shadow no
    member of [Object.prototype], [deepEqual] gives the same answer whichever
    argument comes first. *)
Theorem deepEqual_is_symmetric (a b : JsVal)
    (Ha : regular a = true)
    (Hb : regular b = true)
    (Hoa : ordinary a = true)
    (Hob : ordinary b = true) :
  deepEqual a b = deepEqual b a.
Proof. now apply deepEqual_swap. Qed.

Lemma deepEqual_is_symmetric_witness :
  regular (JObj 1 draftPost) = true
  /\ regular (JObj 2 revisedPost) = true
  /\ ordinary (JObj 1 draftPost) = true
  /\ ordinary (JObj 2 revisedPost) = true
  /\ deepEqual (JObj 1 draftPost) (JObj 2 revisedPost)
     = deepEqual (JObj 2 revisedPost) (JObj 1 draftPost).
Proof.
  assert (Ha : regular (JObj 1 draftPost) = true) by (vm_compute; reflexivity).
  assert (Hb : regular (JObj 2 revisedPost) = true) by (vm_compute; reflexivity).
  assert (Hoa : ordinary (JObj 1 draftPost) = true) by (vm_compute; reflexivity).
  assert (Hob : ordinary (JObj 2 revisedPost) = true) by (vm_compute; reflexivity).
  split; [assumption|]. split; [assumption|]. split; [assumption|].
  split; [assumption|].
  exact (deepEqual_is_symmetric _ _ Ha Hb Hoa Hob).
Defined.

(** *** The order of the fields *)

Lemma getField_permuted (o o' : Fields) (key : string) :
  Permutation o o' -> NoDup (keys o) -> getField o' key = getField o key.
Proof.
  intros Hperm Hnd.
  assert (Hnd' : NoDup (keys o'))
    by (unfold keys; eapply Permutation_NoDup; [apply Permutation_map, Hperm | exact Hnd]).
  destruct (in_dec string_dec key (keys o)) as [Hin|Hnot].
  - apply getField_present in Hin.
    apply (getField_entry o' key _ Hnd'). eapply Permutation_in; eassumption.
  - rewrite (getField_absent o key Hnot). apply getField_absent.
    intros Hin. apply Hnot. unfold keys in *.
    eapply Permutation_in; [apply Permutation_sym, Permutation_map, Hperm | exact Hin].
Qed.

(** X6.  The order of the fields of a document does not count: a document
    without an own key [constructor], so that it is a plain object for the
    source, and a copy with the same fields in another order are deep-equal
    and have an empty diff (no field holding [NaN]). *)
Theorem field_order_is_ignored (r r' : Ref) (o o' : Fields) (excluded : list string)
    (Hperm : Permutation o o')
    (Hkeys : NoDup (keys o))
    (Hplain : hasKey o "constructor" = false)
    (Hnan : forall key, getField o key <> JNum NaN) :
  deepEqual (JObj r o) (JObj r' o') = true
  /\ calculateDiff (Some o) (Some o') excluded = [].
Proof.
  split.
  - rewrite deepEqual_objects. apply orb_true_intro. right.
    apply andb_true_intro. split.
    + apply Nat.eqb_eq. now apply Permutation_length.
    + apply (entries_equal_fields o o' Hkeys). intros key _.
      rewrite (getField_permuted o o' key Hperm Hkeys). now apply deepEqual_same.
  - unfold calculateDiff, diffFuel. rewrite calculateDiffF_step.
    apply flat_map_nil. intros key _. unfold diffKey.
    destruct (includes excluded key); [reflexivity|].
    destruct (isInternalField key); [reflexivity|]. cbv zeta.
    rewrite (getField_permuted o o' key Hperm Hkeys).
    now rewrite deepEqual_same.
Qed.

Lemma field_order_is_ignored_witness :
  Permutation [("title", JStr "T"); ("count", JNum (Fin 5))]%string
              [("count", JNum (Fin 5)); ("title", JStr "T")]%string
  /\ hasKey [("title", JStr "T"); ("count", JNum (Fin 5))]%string "constructor" = false
  /\ deepEqual (JObj 1 [("title", JStr "T"); ("count", JNum (Fin 5))]%string)
               (JObj 2 [("count", JNum (Fin 5)); ("title", JStr "T")]%string) = true.
Proof.
  assert (Hperm : Permutation [("title", JStr "T"); ("count", JNum (Fin 5))]%string
                              [("count", JNum (Fin 5)); ("title", JStr "T")]%string)
    by apply perm_swap.
  assert (Hkeys : NoDup (keys [("title", JStr "T"); ("count", JNum (Fin 5))]%string)).
  { apply distinct_NoDup. vm_compute. reflexivity. }
  assert (Hplain : hasKey [("title", JStr "T"); ("count", JNum (Fin 5))]%string
                          "constructor" = false)
    by (vm_compute; reflexivity).
  assert (Hnan : forall key,
             getField [("title", JStr "T"); ("count", JNum (Fin 5))]%string key
             <> JNum NaN).
  { intros key. cbn [getField].
    destruct (String.eqb "title" key); [discriminate|].
    destruct (String.eqb "count" key); discriminate. }
  split; [assumption|]. split; [assumption|].
  exact (proj1 (field_order_is_ignored 1 2 _ _ [] Hperm Hkeys Hplain Hnan)).
Defined.

(** *** What an update records *)

(** X7.  An update after which every field that is looked at is deep-equal
    to its state before is not recorded: the hook returns the document and
    the audit store is as it was, whatever else changed. *)
Theorem untracked_update_is_not_recorded (slug : string) (excluded : list string)
    (config : AuditConfig) (req : Req) (before doc : Fields) (w : World)
    (Hsame : forall key,
        tracked excluded key = true ->
        deepEqual (getField before key) (getField doc key) = true) :
  createAfterChangeHook slug excluded config req doc OpUpdate (Some before) w
  = (Ok doc, w).
Proof.
  assert (Hempty : calculateDiff (Some before) (Some doc) excluded = []).
  { unfold calculateDiff, diffFuel. rewrite calculateDiffF_step.
    apply flat_map_nil. intros key _. unfold diffKey.
    specialize (Hsame key). unfold tracked in Hsame.
    destruct (includes excluded key); [reflexivity|].
    destruct (isInternalField key); [reflexivity|]. cbv zeta.
    now rewrite Hsame. }
  unfold createAfterChangeHook.
  destruct (String.eqb slug "audit-logs"); [reflexivity|].
  destruct (negb (tracks config Update)); [reflexivity|].
  rewrite Hempty. reflexivity.
Qed.

Lemma untracked_update_is_not_recorded_witness :
  (forall key,
      tracked ["title"%string] key = true ->
      deepEqual (getField blogPost key) (getField editedPost key) = true)
  /\ createAfterChangeHook "blog-posts" ["title"%string] testConfig testReq editedPost
                           OpUpdate (Some blogPost) freshHost
     = (Ok editedPost, freshHost).
Proof.
  assert (Hsame : forall key,
             tracked ["title"%string] key = true ->
             deepEqual (getField blogPost key) (getField editedPost key) = true).
  { intros key. unfold tracked, blogPost, editedPost.
    cbn [includes existsb getField isInternalField].
    rewrite (String.eqb_sym key "title").
    destruct (String.eqb "id" key) eqn:E1.
    - apply String.eqb_eq in E1. subst key. intros _. reflexivity.
    - destruct (String.eqb "title" key) eqn:E2; [discriminate|].
      destruct (String.eqb "category" key) eqn:E3; [reflexivity|].
      destruct (String.eqb "updatedAt" key) eqn:E4; [|reflexivity].
      apply String.eqb_eq in E4. subst key. cbn. discriminate. }
  split; [exact Hsame|].
  exact (untracked_update_is_not_recorded "blog-posts" ["title"%string] testConfig
           testReq blogPost editedPost freshHost Hsame).
Defined.

Lemma leaf_change_in_diff (before doc : Fields) (excluded : list string) (key : string) :
  tracked excluded key = true ->
  deepEqual (getField before key) (getField doc key) = false ->
  isPlainObject (getField before key) && isPlainObject (getField doc key) = false ->
  isArray (getField before key) && isArray (getField doc key) = false ->
  In (mkChange key (serializeValue (getField before key))
               (serializeValue (getField doc key)) key)
     (calculateDiff (Some before) (Some doc) excluded).
Proof.
  intros Htracked Hdiffers Hobj Harr.
  unfold calculateDiff, diffFuel. rewrite calculateDiffF_step. apply in_flat_map.
  exists key. split.
  - apply newSet_In, in_or_app.
    destruct (in_dec string_dec key (keys before)) as [Hin|Hnot]; [now left|].
    destruct (in_dec string_dec key (keys doc)) as [Hin'|Hnot']; [now right|].
    rewrite (getField_absent before key Hnot), (getField_absent doc key Hnot') in Hdiffers.
    discriminate.
  - unfold diffKey. unfold tracked in Htracked. apply andb_prop in Htracked.
    destruct Htracked as [Hex Hint]. apply negb_true_iff in Hex, Hint.
    rewrite Hex, Hint. cbv zeta. rewrite Hdiffers. cbn [negb].
    unfold joinPath. cbn [String.eqb].
    destruct (getField before key); destruct (getField doc key);
      try discriminate; now left.
Qed.

(** X8.  An update that changes a field that is looked at, when the old and
    the new value are not both objects and not both arrays, is recorded if
    the lookup and the insert succeed: one entry is added, with action
    [update], the next version, and a change of that field from the
    serialized old value to the serialized new value. *)
Theorem tracked_change_is_recorded (slug : string) (excluded : list string)
    (config : AuditConfig) (req : Req) (before doc : Fields) (key : string) (w : World)
    (Hslug : String.eqb slug "audit-logs" = false)
    (Htracks : tracks config Update = true)
    (Htracked : tracked excluded key = true)
    (Hdiffers : deepEqual (getField before key) (getField doc key) = false)
    (Hobj : isPlainObject (getField before key) && isPlainObject (getField doc key) = false)
    (Harr : isArray (getField before key) && isArray (getField doc key) = false)
    (Hfind : hd false (faults w) = false)
    (Hinsert : hd false (tl (faults w)) = false) :
  exists e : AuditLog,
    auditLogs (snd (createAfterChangeHook slug excluded config req doc OpUpdate
                                          (Some before) w))
    = auditLogs w ++ [e]
    /\ action e = Update
    /\ version e = nextVersion slug (jsString (getField doc "id")) (auditLogs w)
    /\ In (mkChange key (serializeValue (getField before key))
                    (serializeValue (getField doc key)) key)
          (changes e).
Proof.
  pose proof (leaf_change_in_diff before doc excluded key Htracked Hdiffers Hobj Harr)
    as Hin.
  rewrite afterChange_store, Hslug, Htracks, Hfind, Hinsert. cbn [negb].
  change (beforeState req slug (Some before)) with (Some before).
  destruct (calculateDiff (Some before) (Some doc) excluded) as [|c rest] eqn:Hdiff;
    [contradiction|].
  cbn [List.length Nat.eqb andb].
  eexists. split; [reflexivity|].
  unfold afterChangeEntry. cbn [data action version changes].
  change (beforeState req slug (Some before)) with (Some before).
  rewrite Hdiff. repeat split. exact Hin.
Qed.

Lemma tracked_change_is_recorded_witness :
  String.eqb "blog-posts" "audit-logs" = false
  /\ tracks testConfig Update = true
  /\ tracked [] "title" = true
  /\ deepEqual (getField blogPost "title") (getField editedPost "title") = false
  /\ hd false (faults freshHost) = false
  /\ hd false (tl (faults freshHost)) = false
  /\ exists e : AuditLog,
       auditLogs (snd (createAfterChangeHook "blog-posts" [] testConfig testReq editedPost
                                             OpUpdate (Some blogPost) freshHost))
       = auditLogs freshHost ++ [e]
       /\ action e = Update
       /\ version e = nextVersion "blog-posts" (jsString (getField editedPost "id"))
                                  (auditLogs freshHost)
       /\ In (mkChange "title" (serializeValue (getField blogPost "title"))
                       (serializeValue (getField editedPost "title")) "title")
             (changes e).
Proof.
  assert (Hslug : String.eqb "blog-posts" "audit-logs" = false) by (vm_compute; reflexivity).
  assert (Htracks : tracks testConfig Update = true) by (vm_compute; reflexivity).
  assert (Htracked : tracked [] "title" = true) by (vm_compute; reflexivity).
  assert (Hdiffers : deepEqual (getField blogPost "title") (getField editedPost "title")
                     = false) by (vm_compute; reflexivity).
  assert (Hobj : isPlainObject (getField blogPost "title")
                 && isPlainObject (getField editedPost "title") = false)
    by (vm_compute; reflexivity).
  assert (Harr : isArray (getField blogPost "title")
                 && isArray (getField editedPost "title") = false)
    by (vm_compute; reflexivity).
  assert (Hfind : hd false (faults freshHost) = false) by reflexivity.
  assert (Hinsert : hd false (tl (faults freshHost)) = false) by reflexivity.
  split; [assumption|]. split; [assumption|]. split; [assumption|].
  split; [assumption|]. split; [assumption|]. split; [assumption|].
  exact (tracked_change_is_recorded "blog-posts" [] testConfig testReq blogPost
           editedPost "title" freshHost Hslug Htracks Htracked Hdiffers Hobj Harr
           Hfind Hinsert).
Defined.

(** ** Further properties of the capture hooks *)

Lemma lookupSlug_other (bag : list (string * Fields)) (slug other : string)
    (original : Fields) :
  String.eqb slug other = false ->
  lookupSlug ((slug, original) :: bag) other = lookupSlug bag other.
Proof. intros Hne. cbn [lookupSlug]. now rewrite Hne. Qed.

(** X9.  On an update with a request context and a truthy id, when the fetch
    of the original succeeds, the pre-mutation hook returns the data as it
    came and a request in which the original is the snapshot of this
    collection, so that it is the "before" state of the post-mutation hook
    when [previousDoc] is absent; the snapshots of the other collections are
    as they were. *)
Theorem before_snapshot_reaches_the_after_hook (W : Type) (P : Payload W)
    (slug : string) (excluded : list string) (config : AuditConfig) (req : Req)
    (ctx : Context) (data original : Fields) (w w' : W)
    (Hslug : String.eqb slug "audit-logs" = false)
    (Htracks : tracks config Update = true)
    (Hctx : context req = Some ctx)
    (Hid : truthy (if hasKey data "id" then getField data "id" else contextId ctx) = true)
    (Hfetch : findByID slug (if hasKey data "id" then getField data "id"
                             else contextId ctx) w = (Ok original, w')) :
  exists req' : Req,
    createBeforeChangeHook slug excluded config req OpUpdate data w
    = (Ok (data, req'), w')
    /\ beforeState req' slug None = Some original
    /\ (forall other, String.eqb slug other = false ->
                      snapshotOf req' other = snapshotOf req other)
    /\ user req' = user req /\ headers req' = headers req.
Proof.
  unfold createBeforeChangeHook. rewrite Hslug, Htracks, Hctx. cbn [negb].
  unfold bind at 1. unfold tryCatch. cbv zeta. rewrite Hid.
  unfold bind at 1. rewrite Hfetch. unfold ret.
  eexists. split; [reflexivity|]. split; [|split; [|split; reflexivity]].
  - unfold beforeState, snapshotOf. cbn [context auditSnapshot lookupSlug].
    now rewrite String.eqb_refl.
  - intros other Hne. unfold snapshotOf. cbn [context auditSnapshot].
    rewrite Hctx, lookupSlug_other by assumption.
    destruct (auditSnapshot ctx); reflexivity.
Qed.

Lemma before_snapshot_reaches_the_after_hook_witness :
  exists req' : Req,
    createBeforeChangeHook "blog-posts" [] testConfig testReq OpUpdate editedPost freshHost
    = (Ok (editedPost, req'), afterCall freshHost)
    /\ beforeState req' "blog-posts" None = Some blogPost.
Proof.
  assert (Hslug : String.eqb "blog-posts" "audit-logs" = false) by (vm_compute; reflexivity).
  assert (Htracks : tracks testConfig Update = true) by (vm_compute; reflexivity).
  assert (Hctx : context testReq = Some (mkContext JUndefined None)) by reflexivity.
  assert (Hid : truthy (if hasKey editedPost "id" then getField editedPost "id"
                        else contextId (mkContext JUndefined None)) = true)
    by (vm_compute; reflexivity).
  assert (Hfetch : findByID "blog-posts"
                     (if hasKey editedPost "id" then getField editedPost "id"
                      else contextId (mkContext JUndefined None)) freshHost
                   = (Ok blogPost, afterCall freshHost))
    by (vm_compute; reflexivity).
  destruct (before_snapshot_reaches_the_after_hook World MemPayload "blog-posts" []
              testConfig testReq (mkContext JUndefined None) editedPost blogPost
              freshHost (afterCall freshHost) Hslug Htracks Hctx Hid Hfetch)
    as [req' [Hrun [Hbefore _]]].
  exists req'. split; assumption.
Defined.

(** X10.  On a create the pre-mutation hook hands data and request back as
    they came and leaves the state as it was, whatever the collection, the
    configuration and Payload.  On a tracked update whose fetch of the
    original throws, it logs one warning and hands data and request back as
    they came. *)
Theorem failed_fetch_leaves_the_request (W : Type) (P : Payload W)
    (slug : string) (excluded : list string) (config : AuditConfig) (req : Req)
    (data : Fields) (w : W) :
  createBeforeChangeHook slug excluded config req OpCreate data w = (Ok (data, req), w)
  /\ forall (ctx : Context) (message : string) (w' : W),
       String.eqb slug "audit-logs" = false ->
       tracks config Update = true ->
       context req = Some ctx ->
       truthy (if hasKey data "id" then getField data "id" else contextId ctx) = true ->
       findByID slug (if hasKey data "id" then getField data "id" else contextId ctx) w
       = (Throw message, w') ->
       createBeforeChangeHook slug excluded config req OpUpdate data w
       = (Ok (data, req),
          loggerWarn (errorMessage "Failed to fetch original document for audit: "
                                   message) w').
Proof.
  unfold createBeforeChangeHook. split.
  - destruct (String.eqb slug "audit-logs"); [reflexivity|].
    destruct (negb (tracks config Create)); reflexivity.
  - intros ctx message w' Hslug Htracks Hctx Hid Hfetch.
    rewrite Hslug, Htracks, Hctx. cbn [negb].
    unfold bind at 1. unfold tryCatch. cbv zeta. rewrite Hid.
    unfold bind at 1. rewrite Hfetch. reflexivity.
Qed.

Lemma failed_fetch_leaves_the_request_witness :
  createBeforeChangeHook "blog-posts" [] testConfig testReq OpCreate editedPost
                         (worldOf [] baseTime)
  = (Ok (editedPost, testReq), worldOf [] baseTime)
  /\ createBeforeChangeHook "blog-posts" [] testConfig testReq OpUpdate editedPost
                            (worldOf [] baseTime)
     = (Ok (editedPost, testReq),
        loggerWarn (errorMessage "Failed to fetch original document for audit: "
                                 "Not Found")
                   (afterCall (worldOf [] baseTime))).
Proof.
  assert (Hslug : String.eqb "blog-posts" "audit-logs" = false) by (vm_compute; reflexivity).
  assert (Htracks : tracks testConfig Update = true) by (vm_compute; reflexivity).
  assert (Hctx : context testReq = Some (mkContext JUndefined None)) by reflexivity.
  assert (Hid : truthy (if hasKey editedPost "id" then getField editedPost "id"
                        else contextId (mkContext JUndefined None)) = true)
    by (vm_compute; reflexivity).
  assert (Hfetch : findByID "blog-posts"
                     (if hasKey editedPost "id" then getField editedPost "id"
                      else contextId (mkContext JUndefined None)) (worldOf [] baseTime)
                   = (Throw "Not Found", afterCall (worldOf [] baseTime)))
    by (vm_compute; reflexivity).
  destruct (failed_fetch_leaves_the_request World MemPayload "blog-posts" []
              testConfig testReq editedPost (worldOf [] baseTime)) as [Hcreate Hupdate].
  split; [exact Hcreate|].
  exact (Hupdate (mkContext JUndefined None) "Not Found"%string
           (afterCall (worldOf [] baseTime)) Hslug Htracks Hctx Hid Hfetch).
Defined.

(** X11.  When the document is found and the lookup and the insert succeed,
    the pre-deletion hook adds one entry: action [delete], a protected
    snapshot, the next version, and as changes the diff of the document with
    nothing, so that every new value is [null]. *)
Theorem deletion_is_recorded_as_snapshot (slug : string) (config : AuditConfig)
    (req : Req) (docId : JsVal) (doc : Fields) (w : World)
    (Hslug : String.eqb slug "audit-logs" = false)
    (Htracks : tracks config Delete = true)
    (Hdoc : documents w slug docId = Some doc)
    (Hfetch : hd false (faults w) = false)
    (Hfind : hd false (tl (faults w)) = false)
    (Hinsert : hd false (tl (tl (faults w))) = false) :
  exists e : AuditLog,
    auditLogs (snd (createBeforeDeleteHook slug config req docId w)) = auditLogs w ++ [e]
    /\ action e = Delete
    /\ isSnapshot e = true
    /\ collection e = slug
    /\ documentId e = jsString docId
    /\ version e = nextVersion slug (jsString docId) (auditLogs w)
    /\ changes e = calculateDiff (Some doc) None (excludeFields config)
    /\ Forall (fun c => newValue c = JNull) (changes e).
Proof.
  unfold createBeforeDeleteHook. rewrite Hslug, Htracks. cbn [negb].
  unfold tryCatch, bind, reads, writes.
  cbn [findByID findAuditLogs createAuditLog newDate loggerError MemPayload].
  unfold memFindByID, memFind, memCreate, attempt, reads, writes.
  rewrite Hfetch. cbn [documents afterCall withFaults]. rewrite Hdoc.
  cbn [faults afterCall withFaults]. rewrite Hfind.
  cbn [faults afterCall withFaults]. rewrite Hinsert.
  cbn [auditLogs clock nextId afterCall withFaults fst snd].
  rewrite latest_plus_one.
  eexists. split; [reflexivity|]. cbn [data action isSnapshot collection documentId
                                       version changes].
  repeat split. apply removed_values_are_null.
Qed.

Lemma deletion_is_recorded_as_snapshot_witness :
  exists e : AuditLog,
    auditLogs (snd (createBeforeDeleteHook "blog-posts" testConfig testReq
                      (JNum (Fin 7)) freshHost))
    = auditLogs freshHost ++ [e]
    /\ action e = Delete
    /\ isSnapshot e = true.
Proof.
  assert (Hslug : String.eqb "blog-posts" "audit-logs" = false) by (vm_compute; reflexivity).
  assert (Htracks : tracks testConfig Delete = true) by (vm_compute; reflexivity).
  assert (Hdoc : documents freshHost "blog-posts" (JNum (Fin 7)) = Some blogPost)
    by reflexivity.
  assert (Hfetch : hd false (faults freshHost) = false) by reflexivity.
  assert (Hfind : hd false (tl (faults freshHost)) = false) by reflexivity.
  assert (Hinsert : hd false (tl (tl (faults freshHost))) = false) by reflexivity.
  destruct (deletion_is_recorded_as_snapshot "blog-posts" testConfig testReq
              (JNum (Fin 7)) blogPost freshHost Hslug Htracks Hdoc Hfetch Hfind Hinsert)
    as [e [Hlogs [Haction [Hsnap _]]]].
  exists e. repeat split; assumption.
Defined.

(** The pending callbacks after the post-mutation hook, next to the store. *)
Lemma afterChange_world (slug : string) (excluded : list string) (config : AuditConfig)
    (req : Req) (doc : Fields) (operation : Operation) (previousDoc : Doc) (w : World) :
  let w' := snd (createAfterChangeHook slug excluded config req doc operation
                                       previousDoc w) in
  (auditLogs w' = auditLogs w /\ immediates w' = immediates w /\ nextId w' = nextId w)
  \/ (auditLogs w'
      = auditLogs w ++ [afterChangeEntry slug excluded req doc operation previousDoc w]
      /\ immediates w'
         = immediates w ++ [mkCleanupTask slug (jsString (getField doc "id")) config]
      /\ nextId w' = (nextId w + 1)%Z).
Proof.
  cbv zeta. unfold createAfterChangeHook.
  destruct (String.eqb slug "audit-logs"); [left; repeat split|].
  destruct (negb (tracks config _)); [left; repeat split|].
  fold (beforeState req slug previousDoc).
  unfold bind at 1. unfold tryCatch.
  destruct (_ && _)%bool; [left; repeat split|].
  unfold bind, reads, writes.
  cbn [findAuditLogs createAuditLog newDate loggerError setImmediate MemPayload].
  unfold memFind, memCreate, attempt, reads, writes.
  destruct (hd false (faults w)); [left; repeat split|].
  cbn [faults afterCall withFaults].
  destruct (hd false (tl (faults w))); [left; repeat split|].
  right.
  cbn [auditLogs clock nextId immediates afterCall withFaults pushImmediate fst snd].
  rewrite latest_plus_one. repeat split.
Qed.

Lemma beforeDelete_world (slug : string) (config : AuditConfig) (req : Req)
    (docId : JsVal) (w : World) :
  let w' := snd (createBeforeDeleteHook slug config req docId w) in
  immediates w' = immediates w
  /\ ((auditLogs w' = auditLogs w /\ nextId w' = nextId w)
      \/ (exists e, auditLogs w' = auditLogs w ++ [e] /\ id e = nextId w)
         /\ nextId w' = (nextId w + 1)%Z).
Proof.
  cbv zeta. unfold createBeforeDeleteHook.
  destruct (String.eqb slug "audit-logs"); [split; [|left]; repeat split|].
  destruct (negb (tracks config Delete)); [split; [|left]; repeat split|].
  unfold tryCatch, bind, reads, writes.
  cbn [findByID findAuditLogs createAuditLog newDate loggerError MemPayload].
  unfold memFindByID, memFind, memCreate, attempt, reads, writes.
  destruct (hd false (faults w)); [split; [|left]; repeat split|].
  destruct (documents (afterCall w) slug docId) as [doc|];
    [|split; [|left]; repeat split].
  cbn [faults afterCall withFaults].
  destruct (hd false (tl (faults w))); [split; [|left]; repeat split|].
  cbn [faults afterCall withFaults].
  destruct (hd false (tl (tl (faults w)))); [split; [|left]; repeat split|].
  cbn [auditLogs clock nextId immediates afterCall withFaults fst snd].
  split; [reflexivity|]. right. split; [|reflexivity].
  eexists. split; reflexivity.
Qed.

(** X12.  The post-mutation hook defers one cleanup, of the document and with
    the configuration of the hook, exactly when it has stored an entry; the
    pre-deletion hook never defers anything. *)
Theorem a_cleanup_follows_every_recorded_change (slug : string)
    (excluded : list string) (config : AuditConfig) (req : Req) (doc : Fields)
    (operation : Operation) (previousDoc : Doc) (docId : JsVal) (w : World) :
  let w' := snd (createAfterChangeHook slug excluded config req doc operation
                                       previousDoc w) in
  ((auditLogs w' = auditLogs w /\ immediates w' = immediates w)
   \/ (exists e : AuditLog,
         auditLogs w' = auditLogs w ++ [e]
         /\ immediates w'
            = immediates w ++ [mkCleanupTask (collection e) (documentId e) config]))
  /\ immediates (snd (createBeforeDeleteHook slug config req docId w)) = immediates w.
Proof.
  cbv zeta. split.
  - destruct (afterChange_world slug excluded config req doc operation previousDoc w)
      as [[Hlogs [Him _]]|[Hlogs [Him _]]]; [left; now split|].
    right. eexists. split; [exact Hlogs | exact Him].
  - apply beforeDelete_world.
Qed.

(** ** Further properties of the retention *)

(** The deletions touch the rows and the script of failures only. *)
Lemma deleteAll_frame (td : list Z) :
  forall (w : World) (r : CleanupResult),
    let w' := fst (snd (deleteAll td (w, r))) in
    nextId w' = nextId w /\ clock w' = clock w /\ immediates w' = immediates w
    /\ documents w' = documents w.
Proof.
  induction td as [|i rest IH]; intros w r; [simpl; auto|].
  cbv zeta. rewrite deleteAll_cons.
  destruct (hd false (faults w)); [simpl; auto|].
  destruct (existsb _ (auditLogs w)); [|simpl; auto].
  apply (IH (withLogs _ (afterCall w)) (incrDeleted r)).
Qed.

Lemma cleanup_frame (c d : string) (config : AuditConfig) (w : World) :
  let w' := snd (cleanupDocumentAuditLogs c d config w) in
  nextId w' = nextId w /\ clock w' = clock w /\ immediates w' = immediates w
  /\ documents w' = documents w.
Proof.
  cbv zeta. rewrite cleanup_run.
  destruct (hd false (faults w)); [simpl; auto|].
  destruct (fetched c d w); [simpl; auto|].
  cbv zeta.
  pose proof (deleteAll_frame (toDeleteOf c d config w) (afterCall w)
                (keptAfterLoop c d config w)) as Hframe.
  cbv zeta in Hframe.
  destruct (fst (deleteAll _ _)); cbn [snd nextId clock immediates documents logLine];
    exact Hframe.
Qed.

(** Whatever fails, an entry whose id the cleanup did not set out to delete
    is still stored afterwards. *)
Lemma cleanup_keeps (c d : string) (config : AuditConfig) (w : World) (e : AuditLog) :
  In e (auditLogs w) -> ~ In (id e) (toDeleteOf c d config w) ->
  In e (auditLogs (snd (cleanupDocumentAuditLogs c d config w))).
Proof.
  intros Hin Hnot. rewrite cleanup_run.
  destruct (hd false (faults w)); [exact Hin|].
  destruct (fetched c d w); [exact Hin|].
  cbv zeta.
  destruct (deleteAll_store (toDeleteOf c d config w) (afterCall w)
              (keptAfterLoop c d config w)) as [Hstore _].
  cbv zeta in Hstore. specialize (Hstore e Hin Hnot).
  destruct (fst (deleteAll _ _)); cbn [snd auditLogs logLine]; exact Hstore.
Qed.

(** X13.  The cleanup of one document only removes entries.  On a store
    without duplicate ids, and whichever calls fail, it leaves every entry of
    the other documents where it is. *)
Theorem cleanup_spares_other_documents (w : World) (c d : string)
    (config : AuditConfig) (e : AuditLog)
    (Hids : NoDup (map id (auditLogs w)))
    (Hin : In e (auditLogs w))
    (Hother : matches c d e = false) :
  In e (auditLogs (snd (cleanupDocumentAuditLogs c d config w)))
  /\ incl (auditLogs (snd (cleanupDocumentAuditLogs c d config w))) (auditLogs w).
Proof.
  split.
  - apply cleanup_keeps; [assumption|]. intros Hdel.
    apply toDeleteOf_spec in Hdel. destruct Hdel as [j [e' [Hj [_ Hid]]]].
    apply nth_error_In, fetched_In in Hj. destruct Hj as [Hin' Hmatch].
    assert (e' = e) by (eapply same_id_same_entry; eauto).
    subst. congruence.
  - destruct (cleanup_store_filter c d config w) as [p Hp]. rewrite Hp.
    intros x Hx. now apply filter_In in Hx.
Qed.

Lemma cleanup_spares_other_documents_witness :
  NoDup (map id (auditLogs twoDocuments))
  /\ In otherEntry (auditLogs twoDocuments)
  /\ matches "blog-posts" "test-doc-123" otherEntry = false
  /\ In otherEntry
        (auditLogs (snd (cleanupDocumentAuditLogs "blog-posts" "test-doc-123" testConfig
                           twoDocuments))).
Proof.
  assert (Hids : NoDup (map id (auditLogs twoDocuments))) by (simpl; distinct_ids).
  assert (Hin : In otherEntry (auditLogs twoDocuments))
    by (simpl; do 5 right; left; reflexivity).
  assert (Hother : matches "blog-posts" "test-doc-123" otherEntry = false)
    by (vm_compute; reflexivity).
  split; [assumption|]. split; [assumption|]. split; [assumption|].
  exact (proj1 (cleanup_spares_other_documents twoDocuments "blog-posts" "test-doc-123"
                  testConfig otherEntry Hids Hin Hother)).
Defined.

(** The ranks of the fetched entries tell them apart. *)
Lemma rank_unique (c d : string) (w : World) (i j : nat) (e e' : AuditLog) :
  NoDup (map id (auditLogs w)) ->
  nth_error (fetched c d w) i = Some e -> nth_error (fetched c d w) j = Some e' ->
  id e' = id e -> j = i /\ e' = e.
Proof.
  intros Hids Hi Hj Hid.
  pose proof (fetched_NoDup c d w Hids) as Hnd.
  assert (j = i).
  { rewrite NoDup_nth_error in Hnd. apply Hnd.
    - rewrite length_map. apply nth_error_Some. congruence.
    - rewrite !nth_error_map, Hi, Hj. simpl. congruence. }
  subst j. split; [reflexivity | congruence].
Qed.

(** X14.  On a store without duplicate ids, and whichever calls fail, the
    cleanup keeps every entry of the document that ranks among the first
    [minVersions], and every entry that is as young as both cutoffs: the one
    of [maxDays] before now and the one of [windowDays] before the latest
    entry. *)
Theorem recent_entries_survive (w : World) (c d : string) (config : AuditConfig)
    (i : nat) (e : AuditLog)
    (Hids : NoDup (map id (auditLogs w)))
    (Hrank : nth_error (fetched c d w) i = Some e)
    (Hrecent : (Z.of_nat i < minVersionsOf config)%Z
               \/ (maxAgeCutoffOf config (clock w) <= timestamp e)%Z
                  /\ (windowCutoffOf config (fetched c d w) <= timestamp e)%Z) :
  In e (auditLogs (snd (cleanupDocumentAuditLogs c d config w))).
Proof.
  apply cleanup_keeps.
  - apply nth_error_In in Hrank. now apply fetched_In in Hrank.
  - intros Hdel. apply toDeleteOf_spec in Hdel.
    destruct Hdel as [j [e' [Hj [He Hid]]]].
    destruct (rank_unique c d w i j e e' Hids Hrank Hj Hid) as [-> ->].
    unfold expired in He. apply andb_prop in He. destruct He as [He Hold].
    apply andb_prop in He. destruct He as [_ Hbehind].
    apply negb_true_iff, Z.ltb_ge in Hbehind.
    apply orb_prop in Hold. rewrite !Z.ltb_lt in Hold. lia.
Qed.

Lemma recent_entries_survive_witness :
  NoDup (map id (auditLogs sparseHistory))
  /\ nth_error (fetched "blog-posts" "test-doc-123" sparseHistory) 2 = Some (sparseEntry 2)
  /\ (Z.of_nat 2 < minVersionsOf testConfig)%Z
  /\ In (sparseEntry 2)
        (auditLogs (snd (cleanupDocumentAuditLogs "blog-posts" "test-doc-123" testConfig
                           sparseHistory))).
Proof.
  assert (Hids : NoDup (map id (auditLogs sparseHistory))) by (simpl; distinct_ids).
  assert (Hrank : nth_error (fetched "blog-posts" "test-doc-123" sparseHistory) 2
                  = Some (sparseEntry 2))
    by (vm_compute; reflexivity).
  assert (Hfirst : (Z.of_nat 2 < minVersionsOf testConfig)%Z) by (vm_compute; reflexivity).
  split; [assumption|]. split; [assumption|]. split; [assumption|].
  exact (recent_entries_survive sparseHistory "blog-posts" "test-doc-123" testConfig 2
           (sparseEntry 2) Hids Hrank (or_introl Hfirst)).
Defined.

(** X15.  Whichever calls fail, the cleanup and the preview of the same
    state return normally, with the same [keptCount] and [skippedSnapshots];
    the cleanup reports at most as many deletions as the preview, the preview
    accounts for every entry it was handed, and both report one document. *)
Theorem counters_of_cleanup_and_preview (w : World) (c d : string)
    (config : AuditConfig) :
  exists r p : CleanupResult,
    fst (cleanupDocumentAuditLogs c d config w) = Ok r
    /\ fst (getCleanupPreview c d config w) = Ok p
    /\ keptCount r = keptCount p
    /\ skippedSnapshots r = skippedSnapshots p
    /\ (0 <= deletedCount r <= deletedCount p)%Z
    /\ (keptCount p + deletedCount p = Z.of_nat (List.length (found c d w)))%Z
    /\ documentsProcessed r = 1%Z
    /\ documentsProcessed p = 1%Z.
Proof.
  rewrite cleanup_run, preview_run. unfold found.
  destruct (hd false (faults w)).
  - exists (emptyResult 1), (emptyResult 1). cbn. repeat split; lia.
  - destruct (fetched c d w) as [|latest rest] eqn:Hdocs.
    + exists (emptyResult 1), (emptyResult 1). cbn. repeat split; lia.
    + cbv zeta. rewrite <- Hdocs.
      destruct (deleteAll_store (toDeleteOf c d config w) (afterCall w)
                  (keptAfterLoop c d config w)) as [_ [Hk Hs]].
      destruct (deleteAll_deleted (toDeleteOf c d config w) (afterCall w)
                  (keptAfterLoop c d config w)) as [Hd Hp].
      cbv zeta in Hk, Hs, Hd, Hp.
      set (run := deleteAll (toDeleteOf c d config w)
                            (afterCall w, keptAfterLoop c d config w)) in *.
      exists (snd (snd run)),
             (addDeleted (Z.of_nat (List.length (toDeleteOf c d config w)))
                         (keptAfterLoop c d config w)).
      split; [destruct (fst run); reflexivity|].
      split; [reflexivity|].
      unfold addDeleted.
      cbn [keptCount skippedSnapshots deletedCount documentsProcessed].
      rewrite Hk, Hs, Hp.
      assert (Hlen : (List.length (toDeleteOf c d config w)
                      <= List.length (fetched c d w))%nat).
      { unfold toDeleteOf. rewrite length_map.
        pose proof (doomed_length (minVersionsOf config)
                      (maxAgeCutoffOf config (clock w))
                      (windowCutoffOf config (fetched c d w)) (fetched c d w) 0).
        lia. }
      unfold keptAfterLoop, addKept, emptyResult in *.
      cbn [keptCount skippedSnapshots deletedCount documentsProcessed] in *.
      repeat split; lia.
Qed.

Lemma delete_absent (i : Z) (rows : list AuditLog) :
  ~ In i (map id rows) -> filter (fun e => negb (Z.eqb (id e) i)) rows = rows.
Proof.
  induction rows as [|x rest IH]; cbn [map filter]; intros Hnot; [reflexivity|].
  destruct (Z.eqb_spec (id x) i) as [Heq|Hne]; cbn [negb].
  - exfalso. apply Hnot. now left.
  - f_equal. apply IH. intros Hin. apply Hnot. now right.
Qed.

(** A deletion by id removes one row of a store without duplicate ids. *)
Lemma delete_one (i : Z) (rows : list AuditLog) :
  NoDup (map id rows) -> existsb (fun e => Z.eqb (id e) i) rows = true ->
  S (List.length (filter (fun e => negb (Z.eqb (id e) i)) rows)) = List.length rows.
Proof.
  induction rows as [|x rest IH]; cbn [map filter existsb List.length];
    intros Hids Hex; [discriminate|].
  apply NoDup_cons_iff in Hids. destruct Hids as [Hfresh Hrest].
  destruct (Z.eqb_spec (id x) i) as [Heq|Hne]; cbn [negb orb List.length] in *.
  - subst i. now rewrite delete_absent.
  - f_equal. now apply IH.
Qed.

Lemma deleteAll_removed (td : list Z) :
  forall (w : World) (r : CleanupResult),
    NoDup (map id (auditLogs w)) ->
    let run := deleteAll td (w, r) in
    (Z.of_nat (List.length (auditLogs (fst (snd run)))) + deletedCount (snd (snd run))
     = Z.of_nat (List.length (auditLogs w)) + deletedCount r)%Z.
Proof.
  induction td as [|i rest IH]; intros w r Hids; [reflexivity|].
  cbv zeta. rewrite deleteAll_cons.
  destruct (hd false (faults w)); [reflexivity|].
  destruct (existsb _ (auditLogs w)) eqn:Hex; [|reflexivity].
  specialize (IH (withLogs (filter (fun e => negb (Z.eqb (id e) i)) (auditLogs w))
                           (afterCall w)) (incrDeleted r)).
  cbv zeta in IH. rewrite IH.
  - cbn [auditLogs withLogs incrDeleted deletedCount].
    pose proof (delete_one i (auditLogs w) Hids Hex). lia.
  - cbn [auditLogs withLogs]. now apply filter_keeps_ids.
Qed.

Lemma cleanup_removed (c d : string) (config : AuditConfig) (w : World) :
  NoDup (map id (auditLogs w)) ->
  exists r : CleanupResult,
    fst (cleanupDocumentAuditLogs c d config w) = Ok r
    /\ (Z.of_nat (List.length (auditLogs (snd (cleanupDocumentAuditLogs c d config w))))
        + deletedCount r
        = Z.of_nat (List.length (auditLogs w)))%Z.
Proof.
  intros Hids. rewrite cleanup_run.
  destruct (hd false (faults w)); [exists (emptyResult 1); cbn; split; [reflexivity|lia]|].
  destruct (fetched c d w); [exists (emptyResult 1); cbn; split; [reflexivity|lia]|].
  cbv zeta.
  pose proof (deleteAll_removed (toDeleteOf c d config w) (afterCall w)
                (keptAfterLoop c d config w) Hids) as Hremoved.
  cbv zeta in Hremoved.
  set (run := deleteAll (toDeleteOf c d config w)
                        (afterCall w, keptAfterLoop c d config w)) in *.
  exists (snd (snd run)).
  split; [destruct (fst run); reflexivity|].
  assert (Hzero : deletedCount (keptAfterLoop c d config w) = 0%Z) by reflexivity.
  rewrite Hzero in Hremoved.
  destruct (fst run); cbn [snd auditLogs logLine afterCall withFaults] in *; lia.
Qed.

(** X16.  On a store without duplicate ids, and whichever calls fail,
    [deletedCount] is the number of entries that the cleanup has removed from
    the store. *)
Theorem deletedCount_is_what_was_removed (w : World) (c d : string)
    (config : AuditConfig)
    (Hids : NoDup (map id (auditLogs w))) :
  exists r : CleanupResult,
    fst (cleanupDocumentAuditLogs c d config w) = Ok r
    /\ (Z.of_nat (List.length (auditLogs (snd (cleanupDocumentAuditLogs c d config w))))
        + deletedCount r
        = Z.of_nat (List.length (auditLogs w)))%Z.
Proof. exact (cleanup_removed c d config w Hids). Qed.

Lemma deletedCount_is_what_was_removed_witness :
  NoDup (map id (auditLogs sparseHistory))
  /\ exists r : CleanupResult,
       fst (cleanupDocumentAuditLogs "blog-posts" "test-doc-123" testConfig sparseHistory)
       = Ok r
       /\ (Z.of_nat (List.length
                       (auditLogs (snd (cleanupDocumentAuditLogs "blog-posts"
                                          "test-doc-123" testConfig sparseHistory))))
           + deletedCount r
           = Z.of_nat (List.length (auditLogs sparseHistory)))%Z.
Proof.
  assert (Hids : NoDup (map id (auditLogs sparseHistory))) by (simpl; distinct_ids).
  split; [assumption|].
  exact (deletedCount_is_what_was_removed sparseHistory "blog-posts" "test-doc-123"
           testConfig Hids).
Defined.

(** *** Snapshots in the long run *)

Lemma IdsFresh_filter (p : AuditLog -> bool) (w w' : World) :
  auditLogs w' = filter p (auditLogs w) -> nextId w' = nextId w ->
  IdsFresh w -> IdsFresh w'.
Proof.
  intros Hlogs Hnext [Hids Hbelow]. unfold IdsFresh. rewrite Hlogs, Hnext. split.
  - now apply filter_keeps_ids.
  - rewrite Forall_forall in *. intros e He. apply filter_In in He. now apply Hbelow.
Qed.

Lemma IdsFresh_insert (e : AuditLog) (w w' : World) :
  auditLogs w' = auditLogs w ++ [e] -> id e = nextId w ->
  nextId w' = (nextId w + 1)%Z ->
  IdsFresh w -> IdsFresh w'.
Proof.
  intros Hlogs Hid Hnext [Hids Hbelow]. unfold IdsFresh. rewrite Hlogs, Hnext. split.
  - rewrite map_app. cbn [map].
    apply (Permutation_NoDup (Permutation_cons_append _ _)).
    constructor; [|assumption].
    intros Hin. apply in_map_iff in Hin. destruct Hin as [x [Hx Hin]].
    rewrite Forall_forall in Hbelow. specialize (Hbelow x Hin). lia.
  - apply Forall_app. split.
    + rewrite Forall_forall in *. intros x Hx. specialize (Hbelow x Hx). lia.
    + constructor; [lia | constructor].
Qed.

Lemma runCleanupTask_world (task : CleanupTask) (w : World) :
  snd (runCleanupTask task w)
  = snd (cleanupDocumentAuditLogs (taskCollection task) (taskDocumentId task)
                                  (taskConfig task) w).
Proof. reflexivity. Qed.

Lemma preview_frame (c d : string) (config : AuditConfig) (w : World) :
  nextId (snd (getCleanupPreview c d config w)) = nextId w.
Proof.
  rewrite preview_run.
  destruct (hd false (faults w)); [reflexivity|].
  destruct (fetched c d w); reflexivity.
Qed.

Lemma cleanup_fresh (c d : string) (config : AuditConfig) (w : World) :
  IdsFresh w -> IdsFresh (snd (cleanupDocumentAuditLogs c d config w)).
Proof.
  destruct (cleanup_store_filter c d config w) as [p Hp].
  apply (IdsFresh_filter p); [exact Hp | apply cleanup_frame].
Qed.

Lemma runEvent_fresh (ev : Event) (w : World) :
  IdsFresh w -> IdsFresh (runEvent ev w).
Proof.
  intros Hw.
  destruct ev
    as [slug ex config req doc op prev | slug config req docId | | c d config | c d config | now failures];
    cbn [runEvent].
  - destruct (afterChange_world slug ex config req doc op prev w) as [[Hlogs [_ Hnext]]|[Hlogs [_ Hnext]]].
    + destruct Hw as [Hids Hbelow]. unfold IdsFresh. now rewrite Hlogs, Hnext.
    + eapply IdsFresh_insert; [exact Hlogs | reflexivity | exact Hnext | exact Hw].
  - destruct (beforeDelete_world slug config req docId w)
      as [_ [[Hlogs Hnext]|[[e [Hlogs Hid]] Hnext]]].
    + destruct Hw as [Hids Hbelow]. unfold IdsFresh. now rewrite Hlogs, Hnext.
    + eapply IdsFresh_insert; [exact Hlogs | exact Hid | exact Hnext | exact Hw].
  - destruct (immediates w) as [|task rest]; [assumption|].
    rewrite runCleanupTask_world. apply cleanup_fresh. exact Hw.
  - now apply cleanup_fresh.
  - destruct Hw as [Hids Hbelow]. unfold IdsFresh.
    now rewrite preview_store, preview_frame.
  - exact Hw.
Qed.

Lemma cleanup_keeps_snapshot (c d : string) (config : AuditConfig) (w : World)
    (x : AuditLog) :
  NoDup (map id (auditLogs w)) -> In x (auditLogs w) -> isSnapshot x = true ->
  In x (auditLogs (snd (cleanupDocumentAuditLogs c d config w))).
Proof.
  intros Hids Hin Hsnap. apply cleanup_keeps; [assumption|].
  now apply snapshot_not_in_toDelete.
Qed.

Lemma runEvent_keeps_snapshot (ev : Event) (w : World) (x : AuditLog) :
  IdsFresh w -> In x (auditLogs w) -> isSnapshot x = true ->
  In x (auditLogs (runEvent ev w)).
Proof.
  intros [Hids _] Hin Hsnap.
  destruct ev
    as [slug ex config req doc op prev | slug config req docId | | c d config | c d config | now failures];
    cbn [runEvent].
  - destruct (afterChange_world slug ex config req doc op prev w) as [[Hlogs _]|[Hlogs _]]; rewrite Hlogs;
      [assumption | apply in_or_app; now left].
  - destruct (beforeDelete_world slug config req docId w)
      as [_ [[Hlogs _]|[[e [Hlogs _]] _]]]; rewrite Hlogs;
      [assumption | apply in_or_app; now left].
  - destruct (immediates w) as [|task rest]; [assumption|].
    rewrite runCleanupTask_world. now apply cleanup_keeps_snapshot.
  - now apply cleanup_keeps_snapshot.
  - now rewrite preview_store.
  - assumption.
Qed.

(** X17.  In a store whose ids are distinct and below the next id, a
    snapshot entry stays stored through every sequential run of hooks,
    deferred cleanups, cleanups and previews, whatever the clock shows and
    whichever calls fail in between. *)
Theorem stored_snapshots_are_permanent (es : list Event) (w : World) (x : AuditLog)
    (Hfresh : IdsFresh w)
    (Hin : In x (auditLogs w))
    (Hsnap : isSnapshot x = true) :
  In x (auditLogs (runEvents es w)).
Proof.
  revert w Hfresh Hin. induction es as [|ev rest IH]; intros w Hfresh Hin; [assumption|].
  cbn [runEvents fold_left]. apply IH.
  - now apply runEvent_fresh.
  - now apply runEvent_keeps_snapshot.
Qed.

Lemma stored_snapshots_are_permanent_witness :
  IdsFresh sparseHistory
  /\ In (sparseEntry 3) (auditLogs sparseHistory)
  /\ isSnapshot (sparseEntry 3) = true
  /\ In (sparseEntry 3)
        (auditLogs
           (runEvents [Cleanup "blog-posts" "test-doc-123" testConfig;
                       Environment (baseTime + 1000 * msPerDay) [];
                       AfterChange "blog-posts" [] testConfig testReq editedPost OpUpdate
                                   (Some blogPost);
                       Immediate]
                      sparseHistory)).
Proof.
  assert (Hfresh : IdsFresh sparseHistory).
  { split; [simpl; distinct_ids|].
    repeat (constructor; [vm_compute; reflexivity|]). constructor. }
  assert (Hin : In (sparseEntry 3) (auditLogs sparseHistory))
    by (simpl; right; right; right; left; reflexivity).
  assert (Hsnap : isSnapshot (sparseEntry 3) = true) by (vm_compute; reflexivity).
  split; [assumption|]. split; [assumption|]. split; [assumption|].
  exact (stored_snapshots_are_permanent _ sparseHistory (sparseEntry 3) Hfresh Hin Hsnap).
Defined.

(** *** A second cleanup *)

(** [sort: '-version'] and a selection of the rows commute. *)
Lemma insertByVersion_front (e : AuditLog) (l : list AuditLog) :
  Forall (fun x : AuditLog => (version x <= version e)%Z) l ->
  insertByVersion e l = e :: l.
Proof.
  intros Hall. destruct Hall as [|x rest Hx _]; [reflexivity|].
  cbn [insertByVersion]. apply Z.leb_le in Hx. now rewrite Hx.
Qed.

Lemma insertByVersion_sorted (e : AuditLog) (l : list AuditLog) :
  StronglySorted (fun a b : AuditLog => (version b <= version a)%Z) l ->
  StronglySorted (fun a b : AuditLog => (version b <= version a)%Z)
                 (insertByVersion e l).
Proof.
  induction 1 as [|x rest Hsorted IH Hall]; cbn [insertByVersion].
  - repeat constructor.
  - destruct (Z.leb_spec (version x) (version e)) as [Hle|Hgt].
    + constructor; [now constructor|].
      constructor; [assumption|].
      rewrite Forall_forall in *. intros y Hy. specialize (Hall y Hy). lia.
    + constructor; [assumption|].
      apply (Permutation_Forall (Permutation_sym (insertByVersion_perm e rest))).
      constructor; [lia | assumption].
Qed.

Lemma sortByVersionDesc_sorted (l : list AuditLog) :
  StronglySorted (fun a b : AuditLog => (version b <= version a)%Z)
                 (sortByVersionDesc l).
Proof.
  induction l as [|x rest IH]; [constructor|].
  cbn [sortByVersionDesc fold_right]. now apply insertByVersion_sorted.
Qed.

Lemma filter_insertByVersion (q : AuditLog -> bool) (e : AuditLog) (l : list AuditLog) :
  StronglySorted (fun a b : AuditLog => (version b <= version a)%Z) l ->
  filter q (insertByVersion e l)
  = if q e then insertByVersion e (filter q l) else filter q l.
Proof.
  induction 1 as [|x rest Hsorted IH Hall]; cbn [insertByVersion filter].
  - destruct (q e); reflexivity.
  - destruct (Z.leb_spec (version x) (version e)) as [Hle|Hgt].
    + cbn [filter]. destruct (q e); [|reflexivity].
      symmetry. apply insertByVersion_front.
      assert (Hbelow : Forall (fun y : AuditLog => (version y <= version e)%Z)
                              (x :: rest)).
      { constructor; [assumption|]. rewrite Forall_forall in *. intros y Hy.
        specialize (Hall y Hy). lia. }
      rewrite Forall_forall in *. intros y Hy. apply Hbelow.
      change (In y (filter q (x :: rest))) in Hy. now apply filter_In in Hy.
    + cbn [filter]. rewrite IH.
      destruct (q x), (q e); cbn [insertByVersion]; try reflexivity.
      apply Z.leb_gt in Hgt. now rewrite Hgt.
Qed.

Lemma sortByVersionDesc_filter (q : AuditLog -> bool) (l : list AuditLog) :
  sortByVersionDesc (filter q l) = filter q (sortByVersionDesc l).
Proof.
  induction l as [|x rest IH]; [reflexivity|].
  cbn [sortByVersionDesc fold_right filter].
  fold (sortByVersionDesc rest).
  rewrite filter_insertByVersion by apply sortByVersionDesc_sorted.
  destruct (q x); [|exact IH].
  cbn [sortByVersionDesc fold_right]. fold (sortByVersionDesc (filter q rest)).
  now rewrite IH.
Qed.

(** The rank of an entry in a selection is at most its rank in the whole. *)
Lemma rank_in_selection (q : AuditLog -> bool) (l : list AuditLog) :
  forall (j' : nat) (e : AuditLog),
    nth_error (filter q l) j' = Some e ->
    exists j, (j' <= j)%nat /\ nth_error l j = Some e /\ q e = true.
Proof.
  induction l as [|x rest IH]; intros j' e Hj'; [destruct j'; discriminate|].
  cbn [filter] in Hj'. destruct (q x) eqn:Hq.
  - destruct j' as [|j'].
    + injection Hj' as <-. exists 0%nat. auto.
    + cbn [nth_error] in Hj'. apply IH in Hj'. destruct Hj' as [j [Hle [Hj He]]].
      exists (S j). repeat split; [lia | assumption | assumption].
  - apply IH in Hj'. destruct Hj' as [j [Hle [Hj He]]].
    exists (S j). repeat split; [lia | assumption | assumption].
Qed.

(** An entry that is kept at some rank is kept at every rank before. *)
Lemma expired_rank_mono (minV maxAgeCutoff windowCutoff : Z) (j' j : nat) (e : AuditLog) :
  (j' <= j)%nat -> expired minV maxAgeCutoff windowCutoff j e = false ->
  expired minV maxAgeCutoff windowCutoff j' e = false.
Proof.
  unfold expired. intros Hle Hkept.
  destruct (isSnapshot e); [reflexivity|]. cbn [negb andb] in *.
  destruct (Z.ltb_spec (Z.of_nat j) minV) as [Hlt|Hge]; cbn [negb andb] in Hkept.
  - destruct (Z.ltb_spec (Z.of_nat j') minV); [reflexivity | lia].
  - rewrite Hkept. apply andb_false_r.
Qed.

(** When no call fails, the cleanup of a store without duplicate ids leaves
    the entries that it did not set out to delete, in their order. *)
Lemma cleanup_store_exact (c d : string) (config : AuditConfig) (w : World) :
  NoDup (map id (auditLogs w)) -> Forall (eq false) (faults w) ->
  auditLogs (snd (cleanupDocumentAuditLogs c d config w))
  = filter (fun e => negb (idIn (toDeleteOf c d config w) e)) (auditLogs w).
Proof.
  intros Hids Hok. apply all_false_tl in Hok. destruct Hok as [Hhd Htl].
  destruct (cleanup_deletes_toDelete w c d config Hids Htl) as [w' [Hrun Hlogs]].
  rewrite cleanup_run, Hhd.
  destruct (fetched c d w) eqn:Hdocs.
  - unfold toDeleteOf. rewrite Hdocs. cbn [doomed map snd auditLogs afterCall withFaults].
    now rewrite filter_idIn_nil.
  - cbv zeta. rewrite Hrun. exact Hlogs.
Qed.

(** What the next lookup finds after a cleanup that met no failure, when
    the entries of the document fit the page of a thousand. *)
Lemma fetched_after_cleanup (c d : string) (config : AuditConfig) (w : World) :
  NoDup (map id (auditLogs w)) -> Forall (eq false) (faults w) ->
  (List.length (filter (matches c d) (auditLogs w)) <= 1000)%nat ->
  fetched c d (snd (cleanupDocumentAuditLogs c d config w))
  = filter (fun e => negb (idIn (toDeleteOf c d config w) e)) (fetched c d w).
Proof.
  intros Hids Hok Hpage. unfold fetched at 1 2.
  rewrite cleanup_store_exact by assumption.
  rewrite filter_comm, sortByVersionDesc_filter.
  assert (Hsorted : (List.length (sortByVersionDesc (filter (matches c d) (auditLogs w)))
                     <= 1000)%nat).
  { now rewrite (Permutation_length (sortByVersionDesc_perm _)). }
  assert (Hwhole : forall l : list AuditLog,
             (List.length l <= 1000)%nat -> firstn 1000 l = l)
    by (intros l Hl; now apply firstn_all2).
  rewrite (Hwhole (sortByVersionDesc _) Hsorted). apply Hwhole.
  etransitivity; [apply filter_length_le | exact Hsorted].
Qed.

(** X18.  A cleanup that met no failure leaves nothing for the next one to
    delete: on a store without duplicate ids, with at most a thousand entries
    for the document and a positive [minVersions], a second cleanup run right
    after the first sets out to delete nothing, reports no deletion and
    leaves the store as it is. *)
Theorem second_cleanup_deletes_nothing (w : World) (c d : string)
    (config : AuditConfig)
    (Hids : NoDup (map id (auditLogs w)))
    (Hok : Forall (eq false) (faults w))
    (Hpage : (List.length (filter (matches c d) (auditLogs w)) <= 1000)%nat)
    (Hmin : (0 < minVersionsOf config)%Z) :
  toDeleteOf c d config (snd (cleanupDocumentAuditLogs c d config w)) = []
  /\ auditLogs (snd (cleanupDocumentAuditLogs c d config
                       (snd (cleanupDocumentAuditLogs c d config w))))
     = auditLogs (snd (cleanupDocumentAuditLogs c d config w))
  /\ exists r : CleanupResult,
       fst (cleanupDocumentAuditLogs c d config
              (snd (cleanupDocumentAuditLogs c d config w))) = Ok r
       /\ deletedCount r = 0%Z.
Proof.
  pose proof (fetched_after_cleanup c d config w Hids Hok Hpage) as Hfetched.
  destruct (cleanup_frame c d config w) as [_ [Hclock _]].
  set (w1 := snd (cleanupDocumentAuditLogs c d config w)) in *.
  set (q := fun e : AuditLog => negb (idIn (toDeleteOf c d config w) e)) in *.
  assert (Hnone : toDeleteOf c d config w1 = []).
  { unfold toDeleteOf at 1. rewrite Hclock, Hfetched.
    assert (Hwindow : windowCutoffOf config (filter q (fetched c d w))
                      = windowCutoffOf config (fetched c d w)
                      \/ fetched c d w = []).
    { destruct (fetched c d w) as [|latest rest] eqn:Hdocs; [now right|left].
      cbn [filter]. destruct (q latest) eqn:Hq; [reflexivity|]. exfalso.
      unfold q in Hq. apply negb_false_iff, idIn_spec, toDeleteOf_spec in Hq.
      destruct Hq as [j [e' [Hj [He Hid]]]].
      assert (H0 : nth_error (fetched c d w) 0 = Some latest) by now rewrite Hdocs.
      destruct (rank_unique c d w 0 j latest e' Hids H0 Hj Hid) as [-> ->].
      unfold expired in He. apply andb_prop in He. destruct He as [He _].
      apply andb_prop in He. destruct He as [_ He].
      apply negb_true_iff, Z.ltb_ge in He. cbn in He. lia. }
    destruct Hwindow as [Hwindow|Hempty]; [|now rewrite Hempty].
    rewrite Hwindow.
    destruct (doomed _ _ _ 0 (filter q (fetched c d w))) as [|a others] eqn:Hdoomed;
      [reflexivity|exfalso].
    assert (Hin : In a (doomed (minVersionsOf config) (maxAgeCutoffOf config (clock w))
                               (windowCutoffOf config (fetched c d w)) 0
                               (filter q (fetched c d w))))
      by (rewrite Hdoomed; now left).
    apply doomed_nth in Hin. destruct Hin as [j' [Hj' He']]. cbn [Nat.add] in He'.
    apply rank_in_selection in Hj'. destruct Hj' as [j [Hle [Hj Hq]]].
    destruct (expired (minVersionsOf config) (maxAgeCutoffOf config (clock w))
                      (windowCutoffOf config (fetched c d w)) j a) eqn:He.
    - unfold q in Hq. apply negb_true_iff in Hq.
      assert (Hdel : In (id a) (toDeleteOf c d config w))
        by (apply toDeleteOf_spec; exists j, a; auto).
      apply idIn_spec in Hdel. congruence.
    - apply (expired_rank_mono _ _ _ j' j a Hle) in He. congruence. }
  split; [exact Hnone|].
  rewrite cleanup_run.
  destruct (hd false (faults w1)).
  - split; [reflexivity|]. exists (emptyResult 1). split; reflexivity.
  - destruct (fetched c d w1) eqn:Hdocs.
    + split; [reflexivity|]. exists (emptyResult 1). split; reflexivity.
    + cbv zeta. rewrite Hnone, deleteAll_nil. cbn [fst snd].
      split; [reflexivity|]. eexists. split; reflexivity.
Qed.

Lemma second_cleanup_deletes_nothing_witness :
  NoDup (map id (auditLogs sparseHistory))
  /\ Forall (eq false) (faults sparseHistory)
  /\ (List.length (filter (matches "blog-posts" "test-doc-123") (auditLogs sparseHistory))
      <= 1000)%nat
  /\ (0 < minVersionsOf testConfig)%Z
  /\ toDeleteOf "blog-posts" "test-doc-123" testConfig
       (snd (cleanupDocumentAuditLogs "blog-posts" "test-doc-123" testConfig
               sparseHistory))
     = [].
Proof.
  assert (Hids : NoDup (map id (auditLogs sparseHistory))) by (simpl; distinct_ids).
  assert (Hok : Forall (eq false) (faults sparseHistory)) by constructor.
  assert (Hpage : (List.length (filter (matches "blog-posts" "test-doc-123")
                                       (auditLogs sparseHistory)) <= 1000)%nat).
  { assert (Hfive : List.length (filter (matches "blog-posts" "test-doc-123")
                                        (auditLogs sparseHistory)) = 5%nat)
      by (vm_compute; reflexivity).
    rewrite Hfive. repeat constructor. }
  assert (Hmin : (0 < minVersionsOf testConfig)%Z) by (vm_compute; reflexivity).
  split; [assumption|]. split; [assumption|]. split; [assumption|].
  split; [assumption|].
  exact (proj1 (second_cleanup_deletes_nothing sparseHistory "blog-posts" "test-doc-123"
                  testConfig Hids Hok Hpage Hmin)).
Defined.

(** ** The cleanup of all documents *)

(** One more document in the groups: its pair is there, next to the pairs
    that were. *)
Lemma pairsOf_keys (groups : DocGroups) (c d : string) :
  In (c, d) (pairsOf groups) -> In c (map fst groups).
Proof.
  unfold pairsOf. intros Hin. apply in_flat_map in Hin.
  destruct Hin as [[k ids] [Hg Hin]]. cbn [fst snd] in Hin.
  apply in_map_iff in Hin. destruct Hin as [x [Heq _]]. injection Heq as <- _.
  apply in_map_iff. exists (k, ids). auto.
Qed.

Lemma addToSet_In (ids : list string) (d x : string) :
  In x (addToSet ids d) <-> x = d \/ In x ids.
Proof.
  unfold addToSet. destruct (includes ids d) eqn:Hinc.
  - apply includes_In in Hinc. split; [now right|]. intros [->|Hin]; assumption.
  - rewrite in_app_iff. cbn [In]. intuition (subst; auto).
Qed.

Lemma addToSet_NoDup (ids : list string) (d : string) :
  NoDup ids -> NoDup (addToSet ids d).
Proof.
  intros Hnd. unfold addToSet. destruct (includes ids d) eqn:Hinc; [assumption|].
  apply (Permutation_NoDup (Permutation_cons_append _ _)). constructor; [|assumption].
  intros Hin. apply includes_In in Hin. congruence.
Qed.

Lemma pairs_of_one_collection (c : string) (ids : list string) :
  NoDup ids -> NoDup (map (fun x => (c, x)) ids).
Proof.
  induction 1 as [|x rest Hfresh Hrest IH]; cbn [map]; constructor; [|assumption].
  intros Hin. apply in_map_iff in Hin. destruct Hin as [y [Heq Hy]]. congruence.
Qed.

Lemma addToGroups_In (groups : DocGroups) (c' d' c d : string) :
  In (c, d) (pairsOf (addToGroups groups c' d'))
  <-> (c = c' /\ d = d') \/ In (c, d) (pairsOf groups).
Proof.
  induction groups as [|[k ids] rest IH]; cbn [addToGroups].
  - cbn. split.
    + intros [Heq|[]]. left. split; congruence.
    + intros [[-> ->]|[]]. now left.
  - destruct (String.eqb_spec k c') as [->|Hne].
    + unfold pairsOf. cbn [flat_map fst snd]. rewrite !in_app_iff, !in_map_iff.
      split.
      * intros [[x [Heq Hx]]|Hrest]; [|auto].
        injection Heq as <- <-. apply addToSet_In in Hx.
        destruct Hx as [->|Hx]; [now left|]. right. left. exists x. auto.
      * intros [[-> ->]|[[x [Heq Hx]]|Hrest]]; [| |auto].
        -- left. exists d'. split; [reflexivity|]. apply addToSet_In. now left.
        -- left. exists x. split; [assumption|]. apply addToSet_In. now right.
    + unfold pairsOf in *. cbn [flat_map fst snd]. rewrite !in_app_iff, IH. tauto.
Qed.

Lemma addToGroups_keys (groups : DocGroups) (c' d' k : string) :
  In k (map fst (addToGroups groups c' d')) -> k = c' \/ In k (map fst groups).
Proof.
  induction groups as [|[k' ids] rest IH]; cbn [addToGroups map fst In].
  - intuition.
  - destruct (String.eqb k' c'); cbn [map fst In]; intuition.
Qed.

(** The groups hold every collection once, and every document of a
    collection once. *)
Lemma addToGroups_NoDup (groups : DocGroups) (c' d' : string) :
  NoDup (map fst groups) /\ NoDup (pairsOf groups) ->
  NoDup (map fst (addToGroups groups c' d'))
  /\ NoDup (pairsOf (addToGroups groups c' d')).
Proof.
  induction groups as [|[k ids] rest IH]; cbn [addToGroups]; intros [Hkeys Hpairs].
  - cbn. split; repeat constructor; intros [].
  - cbn [map fst] in Hkeys. apply NoDup_cons_iff in Hkeys.
    destruct Hkeys as [Hfresh Hkeys].
    unfold pairsOf in Hpairs. cbn [flat_map fst snd] in Hpairs.
    fold (pairsOf rest) in Hpairs.
    pose proof (NoDup_app_remove_l _ _ Hpairs) as Hrest.
    pose proof (NoDup_app_remove_r _ _ Hpairs) as Hids.
    assert (Hapart : forall ids' (p : string * string),
               In p (map (fun x => (k, x)) ids') -> ~ In p (pairsOf rest)).
    { intros ids' [c d] Hin Hin'. apply in_map_iff in Hin.
      destruct Hin as [x [Heq _]]. injection Heq as <- _.
      apply Hfresh. eapply pairsOf_keys; eassumption. }
    destruct (String.eqb_spec k c') as [->|Hne].
    + split; [cbn [map fst]; now constructor|].
      unfold pairsOf. cbn [flat_map fst snd]. fold (pairsOf rest).
      apply NoDup_app; [|assumption|apply Hapart].
      apply pairs_of_one_collection, addToSet_NoDup.
      apply (NoDup_map_inv (fun x => (c', x))). assumption.
    + destruct (IH (conj Hkeys Hrest)) as [Hkeys' Hrest'].
      split.
      * cbn [map fst]. constructor; [|assumption].
        intros Hin. apply addToGroups_keys in Hin. destruct Hin; [congruence|auto].
      * unfold pairsOf. cbn [flat_map fst snd]. fold (pairsOf (addToGroups rest c' d')).
        apply NoDup_app; [assumption|assumption|].
        intros [c d] Hin Hin'. apply in_map_iff in Hin.
        destruct Hin as [x [Heq _]]. injection Heq as <- _.
        apply pairsOf_keys, addToGroups_keys in Hin'. destruct Hin'; [congruence|auto].
Qed.

Lemma groupDocuments_spec (docs : list AuditLog) :
  forall groups : DocGroups,
    NoDup (map fst groups) /\ NoDup (pairsOf groups) ->
    let groups' :=
      fold_left (fun g (e : AuditLog) => addToGroups g (collection e) (documentId e))
                docs groups in
    (NoDup (map fst groups') /\ NoDup (pairsOf groups'))
    /\ forall c d : string,
         In (c, d) (pairsOf groups')
         <-> In (c, d) (pairsOf groups)
             \/ exists e : AuditLog, In e docs /\ collection e = c /\ documentId e = d.
Proof.
  induction docs as [|x rest IH]; intros groups Hinv; cbn [fold_left].
  - split; [assumption|]. intros c d. split; [now left|].
    intros [Hin|[e [[] _]]]. assumption.
  - specialize (IH _ (addToGroups_NoDup groups (collection x) (documentId x) Hinv)).
    cbv zeta in IH. destruct IH as [Hinv' Hiff]. split; [assumption|].
    intros c d. rewrite Hiff, addToGroups_In. split.
    + intros [[[-> ->]|Hin]|[e [He Hcd]]]; [right; exists x; cbn; auto | now left |].
      right. exists e. cbn. tauto.
    + intros [Hin|[e [[<-|He] [Hc Hd]]]]; [left; now right | left; left; auto |].
      right. exists e. auto.
Qed.

(** X19.  The cleanup of all documents visits every [(collection,
    documentId)] pair of the listed entries, and each pair once. *)
Theorem every_document_is_visited_once (docs : list AuditLog) :
  NoDup (pairsOf (groupDocuments docs))
  /\ forall c d : string,
       In (c, d) (pairsOf (groupDocuments docs))
       <-> exists e : AuditLog, In e docs /\ collection e = c /\ documentId e = d.
Proof.
  destruct (groupDocuments_spec docs []) as [[_ Hnd] Hiff].
  - split; constructor.
  - split; [exact Hnd|]. intros c d. unfold groupDocuments. rewrite Hiff.
    split; [intros [[]|Hex]; exact Hex | now right].
Qed.

(** The loop over the documents never throws, and counts one document for
    every pair. *)
Lemma cleanupEach_run (W : Type) (P : Payload W) (config : AuditConfig)
    (pairs : list (string * string)) :
  forall (w : W) (total : CleanupResult),
    exists (w' : W) (total' : CleanupResult),
      cleanupEach config pairs (w, total) = (Ok tt, (w', total'))
      /\ documentsProcessed total'
         = (documentsProcessed total + Z.of_nat (List.length pairs))%Z.
Proof.
  induction pairs as [|[c d] rest IH]; intros w total.
  - exists w, total. split; [reflexivity | cbn; lia].
  - cbn [cleanupEach]. unfold bind at 1. unfold onFst at 1.
    unfold cleanupDocumentAuditLogs at 1. cbn [fst snd].
    unfold bind at 1. unfold writes at 1. cbn [fst snd].
    match goal with
    | |- context [cleanupEach config rest (?w1, ?t1)] =>
        destruct (IH w1 t1) as [w' [total' [Hrun Hcount]]]
    end.
    exists w', total'. split; [exact Hrun|].
    rewrite Hcount. unfold addResult. cbn [documentsProcessed List.length]. lia.
Qed.

(** X20.  Whatever Payload does, [cleanupAllAuditLogs] returns normally.
    When the listing of the entries throws, all its counters are zero and one
    error is logged; otherwise [documentsProcessed] is the number of distinct
    [(collection, documentId)] pairs of the listing. *)
Theorem bulk_cleanup_counts_the_documents (W : Type) (P : Payload W)
    (findAllAuditLogs : nat -> M W (list AuditLog)) (config : AuditConfig) (w : W) :
  exists r : CleanupResult,
    fst (cleanupAllAuditLogs findAllAuditLogs config w) = Ok r
    /\ match findAllAuditLogs (10 * 1000)%nat w with
       | (Ok docs, _) =>
           documentsProcessed r
           = Z.of_nat (List.length (pairsOf (groupDocuments docs)))
       | (Throw message, w') =>
           r = emptyResult 0
           /\ snd (cleanupAllAuditLogs findAllAuditLogs config w)
              = loggerError (bulkErrorLine message) w'
       end.
Proof.
  unfold cleanupAllAuditLogs, tryCatch, bind, onFst, writes. cbn [fst snd].
  destruct (findAllAuditLogs (10 * 1000)%nat w) as [[docs|message] w'].
  - destruct (cleanupEach_run W P config (pairsOf (groupDocuments docs)) w'
                (emptyResult 0)) as [w2 [total [Hrun Hcount]]].
    rewrite Hrun. cbn [fst snd]. exists total. split; [reflexivity|].
    rewrite Hcount. cbn. lia.
  - exists (emptyResult 0). repeat split.
Qed.

Lemma cleanupEach_cons (W : Type) (P : Payload W) (config : AuditConfig)
    (c d : string) (rest : list (string * string)) (w : W) (total : CleanupResult) :
  cleanupEach config ((c, d) :: rest) (w, total)
  = cleanupEach config rest
      (snd (cleanupDocumentAuditLogs c d config w),
       match fst (cleanupDocumentAuditLogs c d config w) with
       | Ok r => addResult total r
       | Throw _ => total
       end).
Proof. reflexivity. Qed.

(** The loop over the documents on the store in memory: it only removes
    entries, never a snapshot, and adds up what it removes. *)
Lemma cleanupEach_store (config : AuditConfig) (pairs : list (string * string)) :
  forall (w : World) (total : CleanupResult),
    NoDup (map id (auditLogs w)) ->
    let run := cleanupEach config pairs (w, total) in
    incl (auditLogs (fst (snd run))) (auditLogs w)
    /\ (forall x : AuditLog,
          In x (auditLogs w) -> isSnapshot x = true -> In x (auditLogs (fst (snd run))))
    /\ (Z.of_nat (List.length (auditLogs (fst (snd run)))) + deletedCount (snd (snd run))
        = Z.of_nat (List.length (auditLogs w)) + deletedCount total)%Z.
Proof.
  induction pairs as [|[c d] rest IH]; intros w total Hids.
  - cbn. repeat split; auto. apply incl_refl.
  - cbv zeta. rewrite cleanupEach_cons.
    destruct (cleanup_removed c d config w Hids) as [r [Hok Hremoved]].
    destruct (cleanup_store_filter c d config w) as [p Hp].
    rewrite Hok.
    set (w1 := snd (cleanupDocumentAuditLogs c d config w)) in *.
    assert (Hids1 : NoDup (map id (auditLogs w1)))
      by (rewrite Hp; now apply filter_keeps_ids).
    specialize (IH w1 (addResult total r) Hids1). cbv zeta in IH.
    destruct IH as [Hincl [Hsnap Hcount]].
    split; [|split].
    + intros x Hx. apply Hincl in Hx. rewrite Hp in Hx. now apply filter_In in Hx.
    + intros x Hx Hs. apply Hsnap; [|assumption].
      now apply cleanup_keeps_snapshot.
    + rewrite Hcount. unfold addResult. cbn [deletedCount]. lia.
Qed.

(** X21.  On a store without duplicate ids, and whichever calls fail, the
    cleanup of all documents only removes entries, never a snapshot, and its
    [deletedCount] is the number of entries that it has removed. *)
Theorem bulk_cleanup_of_the_store (w : World) (config : AuditConfig)
    (Hids : NoDup (map id (auditLogs w))) :
  exists r : CleanupResult,
    fst (cleanupAllAuditLogs memFindAll config w) = Ok r
    /\ incl (auditLogs (snd (cleanupAllAuditLogs memFindAll config w))) (auditLogs w)
    /\ (forall x : AuditLog,
          In x (auditLogs w) -> isSnapshot x = true ->
          In x (auditLogs (snd (cleanupAllAuditLogs memFindAll config w))))
    /\ (Z.of_nat (List.length
                    (auditLogs (snd (cleanupAllAuditLogs memFindAll config w))))
        + deletedCount r
        = Z.of_nat (List.length (auditLogs w)))%Z.
Proof.
  unfold cleanupAllAuditLogs, tryCatch, bind, onFst, writes, memFindAll, attempt, reads.
  cbn [fst snd].
  destruct (hd false (faults w)).
  - exists (emptyResult 0). cbn [fst snd loggerError MemPayload auditLogs logLine afterCall
                                 withFaults deletedCount emptyResult].
    repeat split; [apply incl_refl | auto | lia].
  - set (pairs := pairsOf _).
    destruct (cleanupEach_run World MemPayload config pairs (afterCall w) (emptyResult 0))
      as [w' [total [Hrun _]]].
    pose proof (cleanupEach_store config pairs (afterCall w) (emptyResult 0) Hids)
      as Hstore.
    cbv zeta in Hstore. rewrite Hrun in *. cbn [fst snd] in *.
    exists total. split; [reflexivity|].
    cbn [auditLogs afterCall withFaults deletedCount emptyResult] in Hstore.
    destruct Hstore as [Hincl [Hsnap Hcount]].
    repeat split; [assumption | assumption | lia].
Qed.

Lemma bulk_cleanup_of_the_store_witness :
  NoDup (map id (auditLogs twoDocuments))
  /\ exists r : CleanupResult,
       fst (cleanupAllAuditLogs memFindAll testConfig twoDocuments) = Ok r
       /\ incl (auditLogs (snd (cleanupAllAuditLogs memFindAll testConfig twoDocuments)))
               (auditLogs twoDocuments).
Proof.
  assert (Hids : NoDup (map id (auditLogs twoDocuments))) by (simpl; distinct_ids).
  split; [assumption|].
  destruct (bulk_cleanup_of_the_store twoDocuments testConfig Hids)
    as [r [Hok [Hincl _]]].
  exists r. split; assumption.
Defined.

(** ** Slugs ([utils/slugify.ts]) *)

Lemma slug_characters (c : ascii) :
  implb (isSlugChar c)
        (negb (isUpper c) && negb (isSpace c) && (isWord c || isDash c)) = true
  /\ implb (negb (isUpper c) && (isWord c || isDash c)) (isSlugChar c) = true
  /\ isUpper (lowerChar c) = false
  /\ implb (negb (isUpper c)) (Ascii.eqb (lowerChar c) c) = true.
Proof. destruct c as [[] [] [] [] [] [] [] []]; repeat split. Qed.

Lemma allChars_weaken (p q : ascii -> bool) (s : string) :
  (forall c, p c = true -> q c = true) -> allChars p s = true -> allChars q s = true.
Proof.
  intros Hpq. induction s as [|c rest IH]; cbn [allChars]; [reflexivity|].
  intros Hall. apply andb_prop in Hall. destruct Hall as [Hc Hrest].
  now rewrite (Hpq c Hc), IH.
Qed.

Lemma trimStart_dropStart (s : string) : trimStart s = dropStart isSpace s.
Proof.
  induction s as [|c rest IH]; cbn [trimStart dropStart]; [reflexivity|].
  now rewrite IH.
Qed.

Lemma trimEnd_dropEnd (s : string) : trimEnd s = dropEnd isSpace s.
Proof.
  induction s as [|c rest IH]; cbn [trimEnd dropEnd]; [reflexivity|].
  now rewrite IH.
Qed.

Lemma allChars_dropStart (p q : ascii -> bool) (s : string) :
  allChars q s = true -> allChars q (dropStart p s) = true.
Proof.
  induction s as [|c rest IH]; cbn [dropStart]; [auto|].
  intros Hall. destruct (p c); [|assumption].
  cbn [allChars] in Hall. apply andb_prop in Hall. now apply IH.
Qed.

Lemma allChars_dropEnd (p q : ascii -> bool) (s : string) :
  allChars q s = true -> allChars q (dropEnd p s) = true.
Proof.
  induction s as [|c rest IH]; cbn [dropEnd allChars]; [auto|].
  intros Hall. apply andb_prop in Hall. destruct Hall as [Hc Hrest].
  specialize (IH Hrest). destruct (dropEnd p rest) as [|c' rest'].
  - destruct (p c); cbn [allChars]; [reflexivity | now rewrite Hc].
  - cbn [allChars] in *. now rewrite Hc, IH.
Qed.

Lemma allChars_replaceRuns (p q : ascii -> bool) (replacement : ascii) (s : string) :
  q replacement = true -> allChars q s = true ->
  forall inRun : bool, allChars q (replaceRuns p replacement inRun s) = true.
Proof.
  intros Hr. induction s as [|c rest IH]; cbn [replaceRuns allChars]; [auto|].
  intros Hall inRun. apply andb_prop in Hall. destruct Hall as [Hc Hrest].
  specialize (IH Hrest).
  destruct (p c); [destruct inRun|]; cbn [allChars]; rewrite ?Hr, ?Hc; apply IH.
Qed.

Lemma allChars_keepOnly (keep q : ascii -> bool) (s : string) :
  allChars q s = true -> allChars (fun c => q c && keep c) (keepOnly keep s) = true.
Proof.
  induction s as [|c rest IH]; cbn [keepOnly allChars]; [auto|].
  intros Hall. apply andb_prop in Hall. destruct Hall as [Hc Hrest].
  destruct (keep c) eqn:Hk; cbn [allChars]; rewrite ?Hc, ?Hk; auto.
Qed.

Lemma allChars_toLowerCase (s : string) :
  allChars (fun c => negb (isUpper c)) (toLowerCase s) = true.
Proof.
  induction s as [|c rest IH]; cbn [toLowerCase allChars]; [reflexivity|].
  destruct (slug_characters c) as [_ [_ [Hlow _]]]. now rewrite Hlow, IH.
Qed.

Lemma noDoubleDash_replaceRuns (s : string) :
  forall afterDash : bool,
    noDoubleDash afterDash (replaceRuns isDash "-" afterDash s) = true.
Proof.
  induction s as [|c rest IH]; intros afterDash; cbn [replaceRuns]; [reflexivity|].
  destruct (isDash c) eqn:Hc.
  - destruct afterDash; [apply IH|].
    cbn [noDoubleDash]. change (isDash "-") with true. cbn [negb andb]. apply IH.
  - cbn [noDoubleDash]. rewrite Hc. apply IH.
Qed.

Lemma noDoubleDash_dropStart (s : string) :
  forall afterDash afterDash' : bool,
    noDoubleDash afterDash s = true ->
    noDoubleDash afterDash' (dropStart isDash s) = true.
Proof.
  induction s as [|c rest IH]; intros b b'; cbn [dropStart noDoubleDash]; [auto|].
  destruct (isDash c) eqn:Hc.
  - intros Hno. apply andb_prop in Hno. destruct Hno as [_ Hrest]. now apply (IH true).
  - cbn [noDoubleDash]. now rewrite Hc.
Qed.

Lemma noDoubleDash_dropEnd (s : string) :
  forall afterDash : bool,
    noDoubleDash afterDash s = true -> noDoubleDash afterDash (dropEnd isDash s) = true.
Proof.
  induction s as [|c rest IH]; intros b; cbn [dropEnd noDoubleDash]; [auto|].
  intros Hno.
  assert (Hrest : noDoubleDash (isDash c) (dropEnd isDash rest) = true).
  { apply IH. destruct (isDash c); [|assumption].
    apply andb_prop in Hno. tauto. }
  destruct (dropEnd isDash rest) as [|c' rest'].
  - destruct (isDash c) eqn:Hc; [reflexivity|]. cbn [noDoubleDash]. now rewrite Hc.
  - change (noDoubleDash b (String c (String c' rest')) = true).
    cbn [noDoubleDash] in *. destruct (isDash c); [|assumption].
    apply andb_prop in Hno. destruct Hno as [Hb _]. now rewrite Hb.
Qed.

Lemma firstIs_dropStart (p : ascii -> bool) (s : string) :
  firstIs p (dropStart p s) = false.
Proof.
  induction s as [|c rest IH]; cbn [dropStart]; [reflexivity|].
  destruct (p c) eqn:Hc; [assumption|]. cbn [firstIs]. exact Hc.
Qed.

Lemma firstIs_dropEnd (p : ascii -> bool) (s : string) :
  firstIs p s = false -> firstIs p (dropEnd p s) = false.
Proof.
  destruct s as [|c rest]; cbn [dropEnd firstIs]; [auto|]. intros Hc.
  destruct (dropEnd p rest); [rewrite Hc|]; cbn [firstIs]; assumption.
Qed.

Lemma lastIs_dropEnd (p : ascii -> bool) (s : string) :
  lastIs p (dropEnd p s) = false.
Proof.
  induction s as [|c rest IH]; cbn [dropEnd]; [reflexivity|].
  destruct (dropEnd p rest) as [|c' rest'].
  - destruct (p c) eqn:Hc; [reflexivity|]. cbn [lastIs]. exact Hc.
  - exact IH.
Qed.

(** What [slugify] returns is a slug. *)
Lemma slugify_isSlug (text : string) : isSlug (slugify text) = true.
Proof.
  unfold isSlug, slugify.
  set (kept := keepOnly _ _).
  assert (Hkept : allChars isSlugChar kept = true).
  { unfold kept.
    apply (allChars_weaken
             (fun c => negb (isUpper c) && (isWord c || isDash c))).
    - intros c Hc. destruct (slug_characters c) as [_ [Hslug _]].
      rewrite Hc in Hslug. exact Hslug.
    - apply (allChars_keepOnly _ (fun c => negb (isUpper c))).
      apply allChars_replaceRuns; [reflexivity|].
      unfold trim. rewrite trimEnd_dropEnd, trimStart_dropStart.
      apply allChars_dropEnd, allChars_dropStart, allChars_toLowerCase. }
  repeat (apply andb_true_intro; split).
  - apply allChars_dropEnd, allChars_dropStart.
    apply allChars_replaceRuns; [reflexivity | exact Hkept].
  - apply noDoubleDash_dropEnd, (noDoubleDash_dropStart _ false).
    apply noDoubleDash_replaceRuns.
  - apply negb_true_iff, firstIs_dropEnd, firstIs_dropStart.
  - apply negb_true_iff, lastIs_dropEnd.
Qed.

Lemma toLowerCase_lower (s : string) :
  allChars (fun c => negb (isUpper c)) s = true -> toLowerCase s = s.
Proof.
  induction s as [|c rest IH]; cbn [toLowerCase allChars]; [reflexivity|].
  intros Hall. apply andb_prop in Hall. destruct Hall as [Hc Hrest].
  destruct (slug_characters c) as [_ [_ [_ Hsame]]]. rewrite Hc in Hsame.
  apply Ascii.eqb_eq in Hsame. now rewrite Hsame, IH.
Qed.

Lemma dropStart_none (p : ascii -> bool) (s : string) :
  firstIs p s = false -> dropStart p s = s.
Proof. destruct s as [|c rest]; cbn [dropStart firstIs]; [auto|]. now intros ->. Qed.

Lemma dropEnd_none (p : ascii -> bool) (s : string) :
  lastIs p s = false -> dropEnd p s = s.
Proof.
  induction s as [|c rest IH]; cbn [dropEnd]; [reflexivity|].
  destruct rest as [|c' rest'].
  - cbn [lastIs dropEnd]. now intros ->.
  - intros Hlast. change (lastIs p (String c' rest') = false) in Hlast.
    now rewrite (IH Hlast).
Qed.

Lemma none_at_the_ends (p : ascii -> bool) (s : string) :
  allChars (fun c => negb (p c)) s = true -> firstIs p s = false /\ lastIs p s = false.
Proof.
  induction s as [|c rest IH]; cbn [allChars firstIs]; [auto|].
  intros Hall. apply andb_prop in Hall. destruct Hall as [Hc Hrest].
  apply negb_true_iff in Hc. split; [assumption|].
  destruct rest as [|c' rest']; [exact Hc|].
  change (lastIs p (String c' rest') = false). now apply IH.
Qed.

Lemma replaceRuns_none (p : ascii -> bool) (replacement : ascii) (s : string) :
  allChars (fun c => negb (p c)) s = true ->
  forall inRun : bool, replaceRuns p replacement inRun s = s.
Proof.
  induction s as [|c rest IH]; cbn [replaceRuns allChars]; [reflexivity|].
  intros Hall inRun. apply andb_prop in Hall. destruct Hall as [Hc Hrest].
  apply negb_true_iff in Hc. now rewrite Hc, IH.
Qed.

Lemma keepOnly_all (keep : ascii -> bool) (s : string) :
  allChars keep s = true -> keepOnly keep s = s.
Proof.
  induction s as [|c rest IH]; cbn [keepOnly allChars]; [reflexivity|].
  intros Hall. apply andb_prop in Hall. destruct Hall as [Hc Hrest].
  now rewrite Hc, IH.
Qed.

Lemma replaceRuns_single (s : string) :
  forall afterDash : bool,
    noDoubleDash afterDash s = true -> replaceRuns isDash "-" afterDash s = s.
Proof.
  induction s as [|c rest IH]; intros b; cbn [replaceRuns noDoubleDash]; [reflexivity|].
  destruct (isDash c) eqn:Hc.
  - intros Hno. apply andb_prop in Hno. destruct Hno as [Hb Hrest].
    apply negb_true_iff in Hb. subst b. apply Ascii.eqb_eq in Hc. subst c.
    now rewrite IH.
  - intros Hno. now rewrite IH.
Qed.

(** [slugify] leaves a slug as it is. *)
Lemma slugify_slug (s : string) : isSlug s = true -> slugify s = s.
Proof.
  unfold isSlug. intros Hslug.
  apply andb_prop in Hslug. destruct Hslug as [Hslug Hlast].
  apply andb_prop in Hslug. destruct Hslug as [Hslug Hfirst].
  apply andb_prop in Hslug. destruct Hslug as [Hchars Hsingle].
  apply negb_true_iff in Hfirst, Hlast.
  assert (Hlower : allChars (fun c => negb (isUpper c)) s = true).
  { revert Hchars. apply allChars_weaken. intros c Hc.
    destruct (slug_characters c) as [Himp _]. rewrite Hc in Himp.
    cbn [implb] in Himp. apply andb_prop in Himp. destruct Himp as [Himp _].
    apply andb_prop in Himp. tauto. }
  assert (Hsolid : allChars (fun c => negb (isSpace c)) s = true).
  { revert Hchars. apply allChars_weaken. intros c Hc.
    destruct (slug_characters c) as [Himp _]. rewrite Hc in Himp.
    cbn [implb] in Himp. apply andb_prop in Himp. destruct Himp as [Himp _].
    apply andb_prop in Himp. tauto. }
  assert (Hkeep : allChars (fun c => isWord c || isDash c) s = true).
  { revert Hchars. apply allChars_weaken. intros c Hc.
    destruct (slug_characters c) as [Himp _]. rewrite Hc in Himp.
    cbn [implb] in Himp. apply andb_prop in Himp. tauto. }
  destruct (none_at_the_ends isSpace s Hsolid) as [Hstart Hend].
  unfold slugify, trim.
  rewrite (toLowerCase_lower s Hlower).
  rewrite trimStart_dropStart, (dropStart_none _ _ Hstart).
  rewrite trimEnd_dropEnd, (dropEnd_none _ _ Hend).
  rewrite (replaceRuns_none _ _ _ Hsolid), (keepOnly_all _ _ Hkeep).
  rewrite (replaceRuns_single _ _ Hsingle).
  now rewrite (dropStart_none _ _ Hfirst), (dropEnd_none _ _ Hlast).
Qed.

(** X22.  Whatever the text, [slugify] returns a slug: lower-case letters,
    digits, underscores and hyphens only, no two hyphens in a row and no
    hyphen at either end. *)
Theorem slugify_returns_a_slug (text : string) :
  allChars isSlugChar (slugify text) = true
  /\ noDoubleDash false (slugify text) = true
  /\ firstIs isDash (slugify text) = false
  /\ lastIs isDash (slugify text) = false.
Proof.
  pose proof (slugify_isSlug text) as Hslug. unfold isSlug in Hslug.
  apply andb_prop in Hslug. destruct Hslug as [Hslug Hlast].
  apply andb_prop in Hslug. destruct Hslug as [Hslug Hfirst].
  apply andb_prop in Hslug. destruct Hslug as [Hchars Hsingle].
  apply negb_true_iff in Hfirst, Hlast. auto.
Qed.

(** X23.  The texts that [slugify] leaves as they are are the slugs, and
    [slugify] is idempotent. *)
Theorem slugify_fixes_the_slugs (text : string) :
  (slugify text = text <-> isSlug text = true)
  /\ slugify (slugify text) = slugify text.
Proof.
  split; [split|].
  - intros Hfixed. rewrite <- Hfixed. apply slugify_isSlug.
  - apply slugify_slug.
  - apply slugify_slug, slugify_isSlug.
Qed.

(** ** The summary of a diff *)

(** X24.  [getChangeSummary] answers [No changes] for the empty list and for
    no other: for every other list its answer starts with [Changed] and the
    field of the first change. *)
Theorem summary_tells_whether_anything_changed (changes : list FieldChange) :
  (getChangeSummary changes = "No changes"%string <-> changes = [])
  /\ match changes with
     | [] => True
     | first :: _ =>
         exists rest : string,
           getChangeSummary changes
           = String.append "Changed " (String.append (field first) rest)
     end.
Proof.
  destruct changes as [|a [|b rest]].
  - split; [split; reflexivity | exact I].
  - split; [split; discriminate|]. exists ""%string. cbn [getChangeSummary].
    f_equal. clear. induction (field a) as [|c s IH]; cbn; [reflexivity | now f_equal].
  - unfold getChangeSummary. cbn [map firstn].
    change (String.concat ", " (field a :: field b :: firstn 1 (map field rest)))
      with (String.append (field a)
              (String.append ", "
                 (String.concat ", " (field b :: firstn 1 (map field rest))))).
    generalize (String.concat ", " (field b :: firstn 1 (map field rest))).
    intros others. destruct (0 <? _)%nat.
    + split; [split; discriminate|].
      eexists. cbn [String.concat String.append]. rewrite append_assoc. reflexivity.
    + split; [split; discriminate|]. eexists. reflexivity.
Qed.

(** ** Which entries are snapshots *)

Lemma created_values_are_null (X : Fields) (excluded : list string) :
  Forall (fun c => oldValue c = JNull) (calculateDiff None (Some X) excluded).
Proof.
  unfold calculateDiff, diffFuel. cbn [calculateDiffF].
  apply Forall_forall. intros c Hin. apply in_map_iff in Hin.
  now destruct Hin as [it [<- _]].
Qed.

(** X25.  When the post-mutation hook has no "before" state, neither
    [previousDoc] nor a stashed snapshot, the entry that it stores, if any, is
    a protected snapshot whose changes all start from [null]. *)
Theorem first_version_is_a_snapshot (slug : string) (excluded : list string)
    (config : AuditConfig) (req : Req) (doc : Fields) (operation : Operation)
    (previousDoc : Doc) (w : World)
    (Hbefore : beforeState req slug previousDoc = None) :
  auditLogs (snd (createAfterChangeHook slug excluded config req doc operation
                                        previousDoc w))
  = auditLogs w
  \/ exists e : AuditLog,
       auditLogs (snd (createAfterChangeHook slug excluded config req doc operation
                                             previousDoc w))
       = auditLogs w ++ [e]
       /\ isSnapshot e = true
       /\ Forall (fun c => oldValue c = JNull) (changes e).
Proof.
  destruct (afterChange_world slug excluded config req doc operation previousDoc w)
    as [[Hlogs _]|[Hlogs _]]; [now left|right].
  eexists. split; [exact Hlogs|].
  unfold afterChangeEntry. cbn [data isSnapshot changes]. rewrite Hbefore. split.
  - unfold isCriticalSnapshot. destruct (find _ _); [|reflexivity].
    destruct (strictEq _ _); reflexivity.
  - apply created_values_are_null.
Qed.

Lemma first_version_is_a_snapshot_witness :
  beforeState testReq "blog-posts" None = None
  /\ (auditLogs (snd (createAfterChangeHook "blog-posts" [] testConfig testReq blogPost
                        OpCreate None freshHost))
      = auditLogs freshHost
      \/ exists e : AuditLog,
           auditLogs (snd (createAfterChangeHook "blog-posts" [] testConfig testReq
                             blogPost OpCreate None freshHost))
           = auditLogs freshHost ++ [e]
           /\ isSnapshot e = true
           /\ Forall (fun c => oldValue c = JNull) (changes e)).
Proof.
  assert (Hbefore : beforeState testReq "blog-posts" None = None) by reflexivity.
  split; [assumption|].
  exact (first_version_is_a_snapshot "blog-posts" [] testConfig testReq blogPost OpCreate
           None freshHost Hbefore).
Defined.

Lemma flat_getField (o : Fields) (key : string) :
  flat o = true -> isLeaf (getField o key) = true.
Proof.
  unfold flat. induction o as [|[k v] rest IH]; cbn [forallb getField snd];
    [reflexivity|].
  intros Hflat. apply andb_prop in Hflat. destruct Hflat as [Hv Hrest].
  destruct (String.eqb k key); [assumption | now apply IH].
Qed.

(** At the top of flat documents a key gives no change or one change, under
    its own name. *)
Lemma flat_diffKey (diff : Doc -> Doc -> list string -> string -> list FieldChange)
    (o n : Fields) (excluded : list string) (key : string) :
  flat o = true -> flat n = true ->
  diffKey diff o n excluded "" key = []
  \/ diffKey diff o n excluded "" key
     = [mkChange key (serializeValue (getField o key)) (serializeValue (getField n key))
                 key]
     /\ tracked excluded key = true
     /\ deepEqual (getField o key) (getField n key) = false.
Proof.
  intros Ho Hn. pose proof (flat_getField o key Ho) as Hold.
  pose proof (flat_getField n key Hn) as Hnew.
  unfold diffKey, tracked.
  destruct (includes excluded key); [now left|].
  destruct (isInternalField key); [now left|]. cbv zeta.
  destruct (deepEqual (getField o key) (getField n key)); [now left|right].
  cbn [negb andb]. unfold joinPath. cbn [String.eqb].
  destruct (getField o key); destruct (getField n key);
    try discriminate; repeat split.
Qed.

Lemma find_status (f : string -> list FieldChange) (ch : FieldChange) (l : list string) :
  (forall k, f k = [] \/ exists c, f k = [c] /\ field c = k) ->
  f "status"%string = [ch] ->
  In "status"%string l ->
  find (fun c => String.eqb (field c) "status") (flat_map f l) = Some ch.
Proof.
  intros Hone Hstatus. induction l as [|k rest IH]; intros Hin; [contradiction|].
  cbn [flat_map]. destruct (String.eqb_spec k "status") as [->|Hne].
  - rewrite Hstatus. cbn [app find].
    destruct (Hone "status"%string) as [Hnil|[c [Hc Hfield]]]; [congruence|].
    assert (c = ch) by congruence. subst c. now rewrite Hfield.
  - destruct Hin as [Heq|Hin]; [congruence|].
    destruct (Hone k) as [Hnil|[c [Hc Hfield]]].
    + rewrite Hnil. now apply IH.
    + rewrite Hc. cbn [app find]. rewrite Hfield.
      destruct (String.eqb_spec k "status"); [contradiction | now apply IH].
Qed.

(** X26.  An update of a flat document, one without nested objects and
    arrays, that brings a tracked [status] to [published] gives a diff that
    [isCriticalSnapshot] marks as a snapshot. *)
Theorem publishing_is_a_snapshot (before doc : Fields) (excluded : list string)
    (Hbefore : flat before = true)
    (Hdoc : flat doc = true)
    (Htracked : tracked excluded "status" = true)
    (Hnew : getField doc "status" = JStr "published")
    (Hold : deepEqual (getField before "status") (JStr "published") = false) :
  isCriticalSnapshot doc (Some before)
                     (calculateDiff (Some before) (Some doc) excluded) = true.
Proof.
  unfold calculateDiff, diffFuel. rewrite calculateDiffF_step.
  set (f := diffKey _ before doc excluded "").
  assert (Hone : forall k, f k = [] \/ exists c, f k = [c] /\ field c = k).
  { intros k. unfold f.
    destruct (flat_diffKey (calculateDiffF (Nat.max (depthDoc (Some before))
                                                      (depthDoc (Some doc))))
                before doc excluded k Hbefore Hdoc) as [Hnil|[Hc _]];
      [now left|right].
    eexists. split; [exact Hc | reflexivity]. }
  assert (Hstatus : f "status"%string
                    = [mkChange "status" (serializeValue (getField before "status"))
                                (JStr "published") "status"]).
  { unfold f, diffKey. unfold tracked in Htracked. apply andb_prop in Htracked.
    destruct Htracked as [Hex Hint]. apply negb_true_iff in Hex, Hint.
    rewrite Hex, Hint. cbv zeta. rewrite Hnew, Hold. cbn [negb].
    pose proof (flat_getField before "status" Hbefore) as Hleaf.
    destruct (getField before "status"); try discriminate; reflexivity. }
  unfold isCriticalSnapshot.
  rewrite (find_status f _ _ Hone Hstatus); [reflexivity|].
  apply newSet_In, in_or_app. right.
  destruct (in_dec string_dec "status"%string (keys doc)) as [Hin|Hnot]; [assumption|].
  rewrite (getField_absent doc _ Hnot) in Hnew. discriminate.
Qed.

Lemma publishing_is_a_snapshot_witness :
  isCriticalSnapshot
    [("title", JStr "Title"); ("status", JStr "published")]%string
    (Some [("title", JStr "Title"); ("status", JStr "draft")]%string)
    (calculateDiff (Some [("title", JStr "Title"); ("status", JStr "draft")]%string)
                   (Some [("title", JStr "Title"); ("status", JStr "published")]%string)
                   [])
  = true.
Proof.
  assert (Hbefore : flat [("title", JStr "Title"); ("status", JStr "draft")]%string = true)
    by reflexivity.
  assert (Hdoc : flat [("title", JStr "Title"); ("status", JStr "published")]%string = true)
    by reflexivity.
  assert (Htracked : tracked [] "status" = true) by reflexivity.
  assert (Hnew : getField [("title", JStr "Title"); ("status", JStr "published")]%string
                          "status" = JStr "published") by reflexivity.
  assert (Hold : deepEqual
                   (getField [("title", JStr "Title"); ("status", JStr "draft")]%string
                             "status")
                   (JStr "published") = false) by reflexivity.
  exact (publishing_is_a_snapshot _ _ [] Hbefore Hdoc Htracked Hnew Hold).
Defined.

(** A nested [status] that changes ahead of the one of the document hides
    the publication. *)
Example nested_status_hides_publication :
  (isCriticalSnapshot
     [("meta", JObj 2 [("status", JStr "indexed")]); ("status", JStr "published")]
     (Some [("meta", JObj 1 [("status", JStr "pending")]); ("status", JStr "draft")])
     (calculateDiff
        (Some [("meta", JObj 1 [("status", JStr "pending")]); ("status", JStr "draft")])
        (Some [("meta", JObj 2 [("status", JStr "indexed")]);
               ("status", JStr "published")])
        [])
   = false)%string.
Proof. reflexivity. Qed.

(** ** Arrays that grow *)

(** X27.  When one item that is not [undefined] is appended to an array
    whose items are not [NaN], [compareArrays] reports the change of the
    length and then the new item, from [null], and nothing else. *)
Theorem appended_item_is_reported (a : list JsVal) (x : JsVal) (path : string)
    (excluded : list string)
    (Hitems : Forall (fun v => v <> JNum NaN) a)
    (Hx : x <> JUndefined) :
  compareArrays a (a ++ [x]) path excluded
  = [mkChange (lengthPath path) (JNum (Fin (Z.of_nat (List.length a))))
              (JNum (Fin (Z.of_nat (List.length a) + 1))) (lengthPath path);
     mkChange (indexPath path (List.length a)) JNull (serializeValue x)
              (indexPath path (List.length a))].
Proof.
  unfold compareArrays, compareArraysF, compareArraysWith.
  rewrite length_app. cbn [List.length].
  replace (List.length a + 1)%nat with (S (List.length a)) by lia.
  assert (Hneq : Nat.eqb (List.length a) (S (List.length a)) = false)
    by (apply Nat.eqb_neq; lia).
  rewrite Hneq. cbn [negb app]. f_equal; [f_equal; f_equal; f_equal; lia|].
  rewrite (Nat.max_r (List.length a) (S (List.length a))) by lia.
  rewrite seq_S, flat_map_app. cbn [Nat.add flat_map].
  rewrite flat_map_nil.
  - cbn [app]. unfold item. rewrite nth_middle, nth_overflow by lia.
    destruct (deepEqual JUndefined x) eqn:Heq;
      [apply deepEqual_undefined_l in Heq; contradiction|].
    cbn [negb]. rewrite app_nil_r. destruct x; reflexivity.
  - intros i Hi. apply in_seq in Hi. unfold item.
    rewrite app_nth1 by lia. rewrite deepEqual_same; [reflexivity|].
    rewrite Forall_forall in Hitems. apply Hitems, nth_In. lia.
Qed.

Lemma appended_item_is_reported_witness :
  (compareArrays [JStr "tag1"; JStr "tag2"] ([JStr "tag1"; JStr "tag2"] ++ [JStr "tag3"])
                 "tags" []
   = [mkChange (lengthPath "tags") (JNum (Fin (Z.of_nat 2))) (JNum (Fin (Z.of_nat 2 + 1)))
               (lengthPath "tags");
      mkChange (indexPath "tags" 2) JNull (serializeValue (JStr "tag3"))
               (indexPath "tags" 2)])%string.
Proof.
  assert (Hitems : Forall (fun v => v <> JNum NaN) [JStr "tag1"; JStr "tag2"]%string)
    by (repeat constructor; discriminate).
  assert (Hx : JStr "tag3" <> JUndefined) by discriminate.
  exact (appended_item_is_reported [JStr "tag1"; JStr "tag2"]%string (JStr "tag3") "tags" []
           Hitems Hx).
Defined.

(** ** The author stamps ([hooks/auditHooks.ts]) *)

Lemma getField_setField (o : Fields) (key key' : string) (v : JsVal) :
  getField (setField o key v) key'
  = if String.eqb key key' then v else getField o key'.
Proof.
  induction o as [|[k x] rest IH]; cbn [setField getField]; [reflexivity|].
  destruct (String.eqb_spec k key) as [->|Hne]; cbn [getField].
  - destruct (String.eqb key key'); reflexivity.
  - rewrite IH. destruct (String.eqb_spec k key') as [->|Hne'];
      [|reflexivity].
    destruct (String.eqb_spec key key'); [congruence | reflexivity].
Qed.

Lemma keys_setField (o : Fields) (key : string) (v : JsVal) :
  keys (setField o key v) = if includes (keys o) key then keys o else keys o ++ [key].
Proof.
  unfold includes, keys.
  induction o as [|[k x] rest IH]; cbn [setField map fst existsb]; [reflexivity|].
  rewrite (String.eqb_sym key k).
  destruct (String.eqb k key); cbn [map fst orb]; [reflexivity|].
  rewrite IH. destruct (existsb _ _); reflexivity.
Qed.

(** X28.  [auditHook] changes nothing without a user.  With a user, the
    data it returns holds the id of the user as [updated_by], and on a
    creation as [created_by] too; every other field reads as before, and an
    update leaves [created_by] alone.  The fields of the data keep their
    order. *)
Theorem auditHook_stamps_the_user (data : Fields) (req : Req) (operation : Operation)
    (key : string) :
  match user req with
  | None => auditHook data req operation = data
  | Some u =>
      getField (auditHook data req operation) key
      = (if String.eqb "updated_by" key then userIdValue u
         else if String.eqb "created_by" key
                 && match operation with OpCreate => true | OpUpdate => false end
              then userIdValue u
              else getField data key)
      /\ firstn (List.length data) (keys (auditHook data req operation)) = keys data
  end.
Proof.
  unfold auditHook. destruct (user req) as [u|].
  - split.
    + rewrite getField_setField. destruct (String.eqb "updated_by" key); [reflexivity|].
      destruct operation; [|now rewrite andb_false_r].
      rewrite getField_setField, andb_true_r. reflexivity.
    + assert (Hgrow : forall o k v, exists extra,
                 keys (setField o k v) = keys o ++ extra).
      { intros o k v. rewrite keys_setField. destruct (includes (keys o) k).
        - exists []. now rewrite app_nil_r.
        - now exists [k]. }
      assert (Hkeys : exists extra,
                 keys (setField match operation with
                                | OpCreate => setField data "created_by" (userIdValue u)
                                | OpUpdate => data
                                end "updated_by" (userIdValue u))
                 = keys data ++ extra).
      { destruct operation; [|apply Hgrow].
        destruct (Hgrow data "created_by"%string (userIdValue u)) as [e1 He1].
        destruct (Hgrow (setField data "created_by" (userIdValue u))
                        "updated_by"%string (userIdValue u)) as [e2 He2].
        exists (e1 ++ e2). now rewrite He2, He1, app_assoc. }
      destruct Hkeys as [extra ->].
      rewrite <- (keys_length data), firstn_app, firstn_all, Nat.sub_diag.
      cbn [firstn]. apply app_nil_r.
  - reflexivity.
Qed.

(** ** The address of the client *)

Lemma orElse_nonempty (a : option string) (s : string) :
  orElse a None = Some s -> s <> ""%string.
Proof.
  unfold orElse. destruct a as [t|]; [|discriminate].
  destruct (String.eqb_spec t ""); [discriminate|]. now intros [= <-].
Qed.

Lemma firstHop_no_comma (s : string) :
  allChars (fun c => negb (Ascii.eqb c ","%char)) (firstHop s) = true.
Proof.
  induction s as [|c rest IH]; cbn [firstHop]; [reflexivity|].
  destruct (Ascii.eqb c ","%char) eqn:Hc; [reflexivity|].
  cbn [allChars]. now rewrite Hc, IH.
Qed.

(** X29.  With a non-empty [x-forwarded-for] header, [getClientIp] answers
    the text of the header before its first comma, without the white space
    around it: no comma is left in it and no white space at either end.
    Without such a header its answer is never empty. *)
Theorem forwarded_address_is_the_first_hop (req : Req) :
  match forwardedFor req with
  | Some forwarded =>
      getClientIp req = trim (firstHop forwarded)
      /\ allChars (fun c => negb (Ascii.eqb c ","%char)) (getClientIp req) = true
      /\ firstIs isSpace (getClientIp req) = false
      /\ lastIs isSpace (getClientIp req) = false
  | None => getClientIp req <> ""%string
  end.
Proof.
  unfold forwardedFor, getClientIp.
  destruct (headers req) as [h|].
  - destruct (orElse (xForwardedFor h) None) as [forwarded|] eqn:Hforwarded.
    + unfold trim. rewrite trimEnd_dropEnd, trimStart_dropStart.
      repeat split.
      * apply allChars_dropEnd, allChars_dropStart, firstHop_no_comma.
      * apply firstIs_dropEnd, firstIs_dropStart.
      * apply lastIs_dropEnd.
    + destruct (orElse (xRealIp h) None) as [realIp|] eqn:Hreal;
        [now apply orElse_nonempty in Hreal|].
      unfold orString.
      destruct (orElse (orElse _ _) None) eqn:Haddress;
        [now apply orElse_nonempty in Haddress | discriminate].
  - cbn [orElse]. unfold orString.
    destruct (orElse (orElse _ _) None) eqn:Haddress;
      [now apply orElse_nonempty in Haddress | discriminate].
Qed.

(** ** A document against itself *)

(** X30.  The diff of a document with itself is empty exactly when none of
    its fields that the diff looks at holds [NaN] itself: a [NaN] inside a
    nested object or array goes unnoticed, as the two sides are the same
    object. *)
Theorem diff_with_itself_is_empty_unless_NaN (o : Fields) (excluded : list string) :
  calculateDiff (Some o) (Some o) excluded = []
  <-> forall key : string,
        In key (keys o) -> tracked excluded key = true -> getField o key <> JNum NaN.
Proof.
  split.
  - intros Hempty key _ Htracked Hnan.
    assert (Hin : In (mkChange key (serializeValue (getField o key))
                               (serializeValue (getField o key)) key)
                     (calculateDiff (Some o) (Some o) excluded)).
    { apply leaf_change_in_diff; [assumption | | |]; now rewrite Hnan. }
    now rewrite Hempty in Hin.
  - intros Hclean. unfold calculateDiff, diffFuel. rewrite calculateDiffF_step.
    apply flat_map_nil. intros key Hkey. unfold diffKey.
    destruct (includes excluded key) eqn:Hex; [reflexivity|].
    destruct (isInternalField key) eqn:Hint; [reflexivity|].
    cbv zeta. rewrite deepEqual_same; [reflexivity|].
    apply Hclean.
    + apply newSet_In, in_app_or in Hkey. tauto.
    + unfold tracked. now rewrite Hex, Hint.
Qed.
